(** * Car-Scraper: rate limiter, validator, security monitor, merge and
      orchestrator loop, embedded from the JavaScript sources.

    Conventions of the embedding.
    - Wall-clock readings ([Date.now()], [new Date()]) are millisecond
      integers handed to the operations by the caller, or drawn from a clock
      oracle where one call reads the clock several times.
    - The rate limiter's configuration numbers are rationals: the code
      halves [requestsPerMinute] and multiplies [baseDelay] by 1.5, so they do
      not stay integers.  Counters are integers.
    - Strings are sequences of code units below 256. *)

From Stdlib Require Import ZArith QArith Qminmax Qround List String Ascii Bool Lia Lqa.
From Stdlib Require Import DecimalString.
Import ListNotations.

(* ===================================================================== *)
(** * Part I: the program                                                 *)
(* ===================================================================== *)

(** ** security/rate-limiter *)

Module RateLimiter.

Local Open Scope Q_scope.

Record Config := mkConfig {
  baseDelay : Q;
  maxDelay : Q;
  jitter : Q;
  requestsPerMinute : Q;
  concurrentRequests : Z
}.

(** The argument of the constructor: every key may be missing. *)
Record ConfigArg := mkConfigArg {
  arg_baseDelay : option Q;
  arg_maxDelay : option Q;
  arg_jitter : option Q;
  arg_requestsPerMinute : option Q;
  arg_concurrentRequests : option Z
}.

Record State := mkState {
  config : Config;
  requestTimestamps : list Z;
  activeRequests : Z;
  consecutiveFailures : nat;
  backoffMultiplier : Q
}.

(** [{ baseDelay: config.baseDelay || 2000, ..., ...config }]: the trailing
    spread writes every key the argument has over the defaulted one, so a
    default is used exactly when the key is missing. *)
Definition constructor (c : ConfigArg) : State :=
  {| config :=
       {| baseDelay := match arg_baseDelay c with Some v => v | None => 2000 end;
          maxDelay := match arg_maxDelay c with Some v => v | None => 10000 end;
          jitter := match arg_jitter c with Some v => v | None => 1000 end;
          requestsPerMinute :=
            match arg_requestsPerMinute c with Some v => v | None => 30 end;
          concurrentRequests :=
            match arg_concurrentRequests c with Some v => v | None => 5%Z end |};
     requestTimestamps := [];
     activeRequests := 0;
     consecutiveFailures := 0;
     backoffMultiplier := 1 |}.

Definition noArg : ConfigArg := mkConfigArg None None None None None.

Definition set_config (st : State) (c : Config) : State :=
  {| config := c;
     requestTimestamps := requestTimestamps st;
     activeRequests := activeRequests st;
     consecutiveFailures := consecutiveFailures st;
     backoffMultiplier := backoffMultiplier st |}.

Definition set_requestTimestamps (st : State) (ts : list Z) : State :=
  {| config := config st;
     requestTimestamps := ts;
     activeRequests := activeRequests st;
     consecutiveFailures := consecutiveFailures st;
     backoffMultiplier := backoffMultiplier st |}.

Definition set_activeRequests (st : State) (a : Z) : State :=
  {| config := config st;
     requestTimestamps := requestTimestamps st;
     activeRequests := a;
     consecutiveFailures := consecutiveFailures st;
     backoffMultiplier := backoffMultiplier st |}.

(** [timestamp => timestamp > oneMinuteAgo] *)
Definition recent (now : Z) (timestamp : Z) : bool :=
  (now - 60000 <? timestamp)%Z.

(** [n >= q] for an array length [n] and a configured number [q]. *)
Definition length_ge (n : nat) (q : Q) : bool :=
  Qle_bool q (inject_Z (Z.of_nat n)).

(** [canMakeRequest()]: the answer and the state it leaves. *)
Definition canMakeRequest (now : Z) (st : State) : bool * State :=
  if (concurrentRequests (config st) <=? activeRequests st)%Z then (false, st)
  else
    let st' := set_requestTimestamps st (filter (recent now) (requestTimestamps st)) in
    if length_ge (List.length (requestTimestamps st')) (requestsPerMinute (config st'))
    then (false, st')
    else (true, st').

Definition addRequestTimestamp (now : Z) (st : State) : State :=
  set_activeRequests
    (set_requestTimestamps st (requestTimestamps st ++ [now]))
    (activeRequests st + 1)%Z.

Definition completeRequest (st : State) : State :=
  set_activeRequests st (Z.max 0 (activeRequests st - 1)).

(** [Math.pow(2, Math.min(this.consecutiveFailures, 5))] *)
Definition backoffFactor (failures : nat) : Q :=
  inject_Z (2 ^ Z.of_nat (Nat.min failures 5)).

(** [calculateDelay()]: the delay and the state it leaves (the backoff
    multiplier is stepped as a side effect). *)
Definition calculateDelay (st : State) : Q * State :=
  if (0 <? consecutiveFailures st)%nat then
    (Qmin (baseDelay (config st) * backoffFactor (consecutiveFailures st))
          (maxDelay (config st)),
     {| config := config st;
        requestTimestamps := requestTimestamps st;
        activeRequests := activeRequests st;
        consecutiveFailures := consecutiveFailures st;
        backoffMultiplier := Qmin 10 (backoffMultiplier st * (3 # 2)) |})
  else (Qmin (baseDelay (config st)) (maxDelay (config st)), st).

Definition recordSuccess (st : State) : State :=
  {| config := config st;
     requestTimestamps := requestTimestamps st;
     activeRequests := activeRequests st;
     consecutiveFailures := 0;
     backoffMultiplier := 1 |}.

Definition recordFailure (st : State) : State :=
  {| config := config st;
     requestTimestamps := requestTimestamps st;
     activeRequests := activeRequests st;
     consecutiveFailures := S (consecutiveFailures st);
     backoffMultiplier := backoffMultiplier st |}.

Definition reset (st : State) : State :=
  {| config := config st;
     requestTimestamps := [];
     activeRequests := 0;
     consecutiveFailures := 0;
     backoffMultiplier := 1 |}.

(** The argument of [adaptiveLimit]: two flags tested for truthiness and a
    success rate that may be missing ([undefined < 0.5] is false). *)
Record Conditions := mkConditions {
  captchaDetected : bool;
  ipBlocked : bool;
  successRate : option Q
}.

Definition set_baseDelay (c : Config) (d : Q) : Config :=
  {| baseDelay := d; maxDelay := maxDelay c; jitter := jitter c;
     requestsPerMinute := requestsPerMinute c;
     concurrentRequests := concurrentRequests c |}.

Definition set_requestsPerMinute (c : Config) (r : Q) : Config :=
  {| baseDelay := baseDelay c; maxDelay := maxDelay c; jitter := jitter c;
     requestsPerMinute := r;
     concurrentRequests := concurrentRequests c |}.

Definition onCaptcha (c : Config) : Config :=
  set_requestsPerMinute
    (set_baseDelay c (Qmin (baseDelay c * 2) 10000))
    (Qmax 5 (requestsPerMinute c / 2)).

Definition onIpBlocked (c : Config) : Config :=
  set_requestsPerMinute (set_baseDelay c 10000) 1.

Definition onLowSuccess (c : Config) : Config :=
  set_baseDelay c (Qmin (baseDelay c * (3 # 2)) 5000).

Definition lowSuccess (r : option Q) : bool :=
  match r with
  | Some q => negb (Qle_bool (1 # 2) q)
  | None => false
  end.

Definition adaptiveLimit (conditions : Conditions) (st : State) : State :=
  let c1 := if captchaDetected conditions then onCaptcha (config st) else config st in
  let c2 := if ipBlocked conditions then onIpBlocked c1 else c1 in
  let c3 := if lowSuccess (successRate conditions) then onLowSuccess c2 else c2 in
  set_config st c3.

(** The calls a client makes on the limiter.  [Release] is what [execute]
    does when the request settles: [completeRequest] followed by
    [recordSuccess] or [recordFailure]. *)
Inductive call :=
| CanAdmit (now : Z)
| Admit (now : Z)
| Release (success : bool).

Definition release (success : bool) (st : State) : State :=
  if success then recordSuccess (completeRequest st)
  else recordFailure (completeRequest st).

Definition step (st : State) (c : call) : State :=
  match c with
  | CanAdmit now => snd (canMakeRequest now st)
  | Admit now => addRequestTimestamp now st
  | Release success => release success st
  end.

Definition run (st : State) (calls : list call) : State :=
  fold_left step calls st.

(** Admission as [execute] performs it: the timestamp is added only once
    [canMakeRequest] has answered true. *)
Definition gatedAdmit (now : Z) (st : State) : State :=
  let (ok, st') := canMakeRequest now st in
  if ok then addRequestTimestamp now st' else st'.

Definition gatedStep (st : State) (c : call) : State :=
  match c with
  | CanAdmit now => snd (canMakeRequest now st)
  | Admit now => gatedAdmit now st
  | Release success => release success st
  end.

Definition gatedRun (st : State) (calls : list call) : State :=
  fold_left gatedStep calls st.

(** The state after [n] failed requests in a row. *)
Definition afterFailures (n : nat) (st : State) : State :=
  Nat.iter n recordFailure (recordSuccess st).

(** A limiter with one stale timestamp: a request was admitted at time 0
    and released. *)
Definition staleState : State :=
  run (constructor noArg) [Admit 0; Release true].

(** A limiter that has seen an IP block: one request per minute, ten
    seconds of base delay. *)
Definition blockedState : State :=
  adaptiveLimit (mkConditions false true None) (constructor noArg).

(** A limiter configured with a base delay above the default maximum. *)
Definition slowState : State :=
  constructor (mkConfigArg (Some 20000) None None None None).

(** The counter is between 0 and the concurrency ceiling. *)
Definition inBounds (st : State) : Prop :=
  (0 <= activeRequests st <= Z.max 0 (concurrentRequests (config st)))%Z.

End RateLimiter.

(** ** JavaScript strings and the regular expressions the validator uses *)

Module JsString.

Local Open Scope N_scope.

Definition code (c : ascii) : N := N_of_ascii c.

(** White space and line terminators of the language, among the code units
    below 256: TAB, LF, VT, FF, CR, SP and NBSP.  Both [trim] and the class
    [\s] use this set. *)
Definition isWhiteSpace (c : ascii) : bool :=
  let n := code c in
  (n =? 9) || (n =? 10) || (n =? 11) || (n =? 12) || (n =? 13) || (n =? 32) || (n =? 160).

(** The class [\w]: [A-Za-z0-9_]. *)
Definition isWordChar (c : ascii) : bool :=
  let n := code c in
  ((65 <=? n) && (n <=? 90)) || ((97 <=? n) && (n <=? 122)) ||
  ((48 <=? n) && (n <=? 57)) || (n =? 95).

(** Canonicalisation under the [i] flag: a lower-case ASCII letter becomes
    its upper-case form; no code unit from 128 on is mapped into ASCII. *)
Definition canonicalize (c : ascii) : ascii :=
  let n := code c in
  if (97 <=? n) && (n <=? 122) then ascii_of_N (n - 32) else c.

Fixpoint trimStartList (s : list ascii) : list ascii :=
  match s with
  | c :: s' => if isWhiteSpace c then trimStartList s' else s
  | [] => []
  end.

Definition trimList (s : list ascii) : list ascii :=
  rev (trimStartList (rev (trimStartList s))).

(** [s.trim()] *)
Definition trim (s : string) : string :=
  string_of_list_ascii (trimList (list_ascii_of_string s)).

(** [s.replace(/[...]/g, '')] for a character class given as a predicate. *)
Definition removeChars (p : ascii -> bool) (s : string) : string :=
  string_of_list_ascii (filter (fun c => negb (p c)) (list_ascii_of_string s)).

(** [s.substring(0, n)] *)
Definition prefix (n : nat) (s : string) : string :=
  string_of_list_ascii (firstn n (list_ascii_of_string s)).

Definition isEmpty (s : string) : bool :=
  match s with EmptyString => true | String _ _ => false end.

(** Decimal text of an integer, as a template literal prints it. *)
Definition showZ (z : Z) : string := NilZero.string_of_int (Z.to_int z).

End JsString.

Module Regex.
Import JsString.

(** The constructs that occur in the validator's patterns. *)
Inductive regex :=
| Eps
| Sym (p : ascii -> bool)
| Cat (r1 r2 : regex)
| Star (r : regex)
| NotAhead (r : regex)
| WordBoundary.

(** A position in the subject: the code unit before it, and what follows. *)
Definition cursor : Type := option ascii * list ascii.

Definition isWordAt (c : option ascii) : bool :=
  match c with Some a => isWordChar a | None => false end.

(** Backtracking matcher in continuation-passing style, with the priorities
    of the language: a greedy star first tries one more iteration and only
    then the continuation, and an iteration that consumes nothing is
    rejected.  The star's loop is bounded by the length of what is left,
    which an iteration strictly shortens. *)
Fixpoint matchAt (r : regex) (prev : option ascii) (s : list ascii)
    (k : option ascii -> list ascii -> option cursor) {struct r} : option cursor :=
  match r with
  | Eps => k prev s
  | Sym p =>
      match s with
      | c :: s' => if p c then k (Some c) s' else None
      | [] => None
      end
  | Cat r1 r2 => matchAt r1 prev s (fun prev' s' => matchAt r2 prev' s' k)
  | Star r1 =>
      (fix loop (n : nat) (prev0 : option ascii) (s0 : list ascii) {struct n}
         : option cursor :=
         match n with
         | O => k prev0 s0
         | S n' =>
             match matchAt r1 prev0 s0
                     (fun prev' s' =>
                        if (List.length s' <? List.length s0)%nat
                        then loop n' prev' s' else None) with
             | Some c => Some c
             | None => k prev0 s0
             end
         end) (List.length s) prev s
  | NotAhead r1 =>
      match matchAt r1 prev s (fun prev' s' => Some (prev', s')) with
      | Some _ => None
      | None => k prev s
      end
  | WordBoundary =>
      if xorb (isWordAt prev) (isWordAt (hd_error s)) then k prev s else None
  end.

(** One attempt at a position: where the match ends, if there is one. *)
Definition exec (r : regex) (prev : option ascii) (s : list ascii) : option cursor :=
  matchAt r prev s (fun prev' s' => Some (prev', s')).

(** [subject.replace(r, '')] for a pattern with the [g] flag: matches are
    looked for from left to right, each one is dropped, and the search
    resumes where it ended; at a position without a (non-empty) match the
    code unit is kept. *)
Fixpoint removeFrom (fuel : nat) (r : regex) (prev : option ascii) (s : list ascii)
    : list ascii :=
  match fuel with
  | O => s
  | S fuel' =>
      let keep :=
        match s with
        | [] => []
        | c :: s' => c :: removeFrom fuel' r (Some c) s'
        end in
      match exec r prev s with
      | Some (prev', s') =>
          if (List.length s' <? List.length s)%nat
          then removeFrom fuel' r prev' s' else keep
      | None => keep
      end
  end.

Definition removeAll (r : regex) (s : string) : string :=
  let l := list_ascii_of_string s in
  string_of_list_ascii (removeFrom (S (List.length l)) r None l).

(** A literal under the [i] flag. *)
Definition symCI (c : ascii) : regex :=
  Sym (fun x => Ascii.eqb (canonicalize x) (canonicalize c)).

Fixpoint literalCI (s : string) : regex :=
  match s with
  | EmptyString => Eps
  | String c s' => Cat (symCI c) (literalCI s')
  end.

Definition isChar (c : ascii) : ascii -> bool := fun x => Ascii.eqb x c.
Definition notChar (c : ascii) : ascii -> bool := fun x => negb (Ascii.eqb x c).

End Regex.

(** ** The car record *)

Module Car.

(** A property of an object: missing, [null], or holding a value. *)
Inductive field (A : Type) : Type :=
| Missing
| Null
| Val (a : A).
Arguments Missing {A}.
Arguments Null {A}.
Arguments Val {A} a.

Record Price := mkPrice {
  starting_msrp : field Z;
  max_price : field Z;
  is_estimated : field bool;
  price_range : field string
}.

Record Performance := mkPerformance {
  horsepower : field Z;
  torque : field Z;
  acceleration_0_60 : field Z;
  engine : field string
}.

Record Specifications := mkSpecifications {
  transmission : field string;
  drivetrain : field string;
  fuel_type : field string
}.

Record Dimensions := mkDimensions {
  dim_length : field Z;
  dim_width : field Z;
  dim_height : field Z;
  wheelbase : field Z
}.

Record FuelEconomy := mkFuelEconomy {
  city : field Z;
  highway : field Z;
  combined : field Z
}.

(** The record of the data model, with the two further properties the
    scraper handles ([vehicle_type], [safety_ratings]).  Numbers are
    integers; [safety_ratings], whose keys the code never names, is an
    object from keys (none of them an array index) to numbers. *)
Record CarData := mkCarData {
  vehicle_type : field string;
  manufacturer : field string;
  model : field string;
  year : field Z;
  price : field Price;
  performance : field Performance;
  features : field (list string);
  specifications : field Specifications;
  dimensions : field Dimensions;
  fuel_economy : field FuelEconomy;
  safety_ratings : field (list (string * Z));
  value_score : field Z;
  data_quality : field Z;
  scraped_at : field string
}.

Definition mapField {A B} (f : A -> B) (x : field A) : field B :=
  match x with
  | Missing => Missing
  | Null => Null
  | Val a => Val (f a)
  end.

(** Truthiness of a property, by the type of what it holds. *)
Definition truthyString (x : field string) : bool :=
  match x with Val s => negb (JsString.isEmpty s) | _ => false end.

Definition truthyNumber (x : field Z) : bool :=
  match x with Val z => negb (z =? 0)%Z | _ => false end.

Definition truthyObject {A} (x : field A) : bool :=
  match x with Val _ => true | _ => false end.

(** Is the key there ([null] counts)? *)
Definition hasKey {A} (x : field A) : nat :=
  match x with Missing => 0 | _ => 1 end.

(** [x?.k]: the property of a nested object that may itself be missing. *)
Definition optChain {A B} (x : field A) (k : A -> field B) : field B :=
  match x with Val a => k a | _ => Missing end.

Definition emptyCar : CarData :=
  mkCarData Missing Missing Missing Missing Missing Missing Missing
            Missing Missing Missing Missing Missing Missing Missing.

Definition field_eq_dec {A} (dec : forall x y : A, {x = y} + {x <> y})
  : forall x y : field A, {x = y} + {x <> y}.
Proof. decide equality. Defined.

Definition Price_eq_dec : forall x y : Price, {x = y} + {x <> y}.
Proof.
  decide equality; apply field_eq_dec;
    first [apply Z.eq_dec | apply string_dec | apply bool_dec].
Defined.

Definition Performance_eq_dec : forall x y : Performance, {x = y} + {x <> y}.
Proof.
  decide equality; apply field_eq_dec; first [apply Z.eq_dec | apply string_dec].
Defined.

Definition Specifications_eq_dec : forall x y : Specifications, {x = y} + {x <> y}.
Proof. decide equality; apply field_eq_dec; apply string_dec. Defined.

Definition Dimensions_eq_dec : forall x y : Dimensions, {x = y} + {x <> y}.
Proof. decide equality; apply field_eq_dec; apply Z.eq_dec. Defined.

Definition FuelEconomy_eq_dec : forall x y : FuelEconomy, {x = y} + {x <> y}.
Proof. decide equality; apply field_eq_dec; apply Z.eq_dec. Defined.

Definition rating_eq_dec : forall x y : string * Z, {x = y} + {x <> y}.
Proof. decide equality; [apply Z.eq_dec | apply string_dec]. Defined.

(** Equality of content, which is what comparing [JSON.stringify] texts
    decides on records of this shape. *)
Definition CarData_eq_dec : forall x y : CarData, {x = y} + {x <> y}.
Proof.
  decide equality; apply field_eq_dec;
    first [ apply Z.eq_dec | apply string_dec
          | apply Price_eq_dec | apply Performance_eq_dec
          | apply Specifications_eq_dec | apply Dimensions_eq_dec
          | apply FuelEconomy_eq_dec
          | apply list_eq_dec; first [apply string_dec | apply rating_eq_dec] ].
Defined.

End Car.

(** ** security/validator *)

Module DataValidator.
Import Car JsString Regex.

Local Open Scope string_scope.
Local Open Scope Z_scope.

Record ValidationResult := mkResult {
  valid : bool;
  errors : list string;
  warnings : list string;
  data : CarData;
  score : Z
}.

(** The class of [sanitizeString]: the two angle brackets, the double quote
    and the apostrophe. *)
Definition isMarkupChar (c : ascii) : bool :=
  let n := code c in
  (n =? 60)%N || (n =? 62)%N || (n =? 34)%N || (n =? 39)%N.

(** [sanitizeString] on a string: trim, drop the four characters, keep the
    first 200 code units. *)
Definition sanitizeString (input : string) : string :=
  prefix 200 (removeChars isMarkupChar (trim input)).

(** The first pattern, with flags [g] and [i]: the literal [<script], a word
    boundary, a greedy run of characters other than [<], then greedily any
    number of groups made of one [<] that does not start [</script>] and a
    run of characters other than [<], then the literal [</script>]. *)
Definition scriptPattern : regex :=
  Cat (literalCI "<script")
   (Cat WordBoundary
    (Cat (Star (Sym (notChar "<")))
     (Cat (Star (Cat (NotAhead (literalCI "</script>"))
                 (Cat (Sym (isChar "<")) (Star (Sym (notChar "<"))))))
          (literalCI "</script>")))).

(** The third pattern, with flags [g] and [i]: the literal [on], one or
    more word characters, any white space, and an equals sign. *)
Definition handlerPattern : regex :=
  Cat (literalCI "on")
   (Cat (Sym isWordChar)
    (Cat (Star (Sym isWordChar))
     (Cat (Star (Sym isWhiteSpace)) (Sym (isChar "="))))).

Definition maliciousPatterns : list regex :=
  [ scriptPattern;
    literalCI "javascript:";
    handlerPattern;
    literalCI "data:";
    literalCI "vbscript:" ].

(** [cleanData] on a string: the patterns are removed one after the other. *)
Definition cleanString (s : string) : string :=
  fold_left (fun cleaned pattern => removeAll pattern cleaned) maliciousPatterns s.

Definition cleanPrice (p : Price) : Price :=
  mkPrice (starting_msrp p) (max_price p) (is_estimated p)
          (mapField cleanString (price_range p)).

Definition cleanPerformance (p : Performance) : Performance :=
  mkPerformance (horsepower p) (torque p) (acceleration_0_60 p)
                (mapField cleanString (engine p)).

Definition cleanSpecifications (s : Specifications) : Specifications :=
  mkSpecifications (mapField cleanString (transmission s))
                   (mapField cleanString (drivetrain s))
                   (mapField cleanString (fuel_type s)).

(** [removeMaliciousContent]: a copy of the record in which every string
    value, at any depth, has been cleaned; numbers, booleans, [null] and the
    keys are as they were. *)
Definition removeMaliciousContent (d : CarData) : CarData :=
  {| vehicle_type := mapField cleanString (vehicle_type d);
     manufacturer := mapField cleanString (manufacturer d);
     model := mapField cleanString (model d);
     year := year d;
     price := mapField cleanPrice (price d);
     performance := mapField cleanPerformance (performance d);
     features := mapField (map cleanString) (features d);
     specifications := mapField cleanSpecifications (specifications d);
     dimensions := dimensions d;
     fuel_economy := fuel_economy d;
     safety_ratings := safety_ratings d;
     value_score := value_score d;
     data_quality := data_quality d;
     scraped_at := mapField cleanString (scraped_at d) |}.

(** [Object.keys(o).length] for the three nested objects the score looks
    into. *)
Definition keysPrice (p : Price) : nat :=
  hasKey (starting_msrp p) + hasKey (max_price p) + hasKey (is_estimated p)
  + hasKey (price_range p).

Definition keysPerformance (p : Performance) : nat :=
  hasKey (horsepower p) + hasKey (torque p) + hasKey (acceleration_0_60 p)
  + hasKey (engine p).

Definition keysSpecifications (s : Specifications) : nat :=
  hasKey (transmission s) + hasKey (drivetrain s) + hasKey (fuel_type s).

Definition nonEmptyObject {A} (keys : A -> nat) (x : field A) : bool :=
  match x with Val a => (0 <? keys a)%nat | _ => false end.

Definition weight (b : bool) (w : Z) : Z := if b then w else 0.

(** [calculateValidationScore]: the weights are added in the order of the
    table ([manufacturer], [model], [year], [price], [performance],
    [specifications], [features], [dimensions]) and the sum is capped. *)
Definition calculateValidationScore (d : CarData) : Z :=
  Z.min 100
    (0 + weight (truthyString (manufacturer d)) 15
       + weight (truthyString (model d)) 15
       + weight (truthyNumber (year d)) 10
       + weight (nonEmptyObject keysPrice (price d)) 20
       + weight (nonEmptyObject keysPerformance (performance d)) 15
       + weight (nonEmptyObject keysSpecifications (specifications d)) 10
       + weight (truthyObject (features d)) 10
       + weight (truthyObject (dimensions d)) 5).

(** [!s || s.trim() === ''] *)
Definition blank (x : field string) : bool :=
  match x with
  | Val s => isEmpty s || isEmpty (trim s)
  | _ => true
  end.

Definition outside (lo hi : Z) (z : Z) : bool := (z <? lo) || (hi <? z).

(** The four pushes onto [errors], in program order. *)
Definition computeErrors (currentYear : Z) (d : CarData) : list string :=
  (if blank (manufacturer d) then ["Manufacturer is required"] else [])
  ++ (if blank (model d) then ["Model is required"] else [])
  ++ (match year d with
      | Val y =>
          if negb (y =? 0) && outside 1990 (currentYear + 2) y
          then ["Year must be between 1990 and " ++ showZ (currentYear + 2)]
          else []
      | _ => []
      end)
  ++ (match optChain (price d) starting_msrp with
      | Val p =>
          if negb (p =? 0) && outside 0 1000000 p
          then ["Price must be between 0 and 1,000,000"]
          else []
      | _ => []
      end).

(** The four pushes onto [warnings], in program order. *)
Definition computeWarnings (d : CarData) : list string :=
  (if truthyNumber (year d) then [] else ["Year is missing"])
  ++ (if truthyNumber (optChain (price d) starting_msrp) then []
      else ["Price is missing or estimated"])
  ++ (match optChain (performance d) horsepower with
      | Val hp =>
          if negb (hp =? 0) && outside 0 2000 hp
          then ["Horsepower value seems unrealistic"] else []
      | _ => []
      end)
  ++ (match optChain (fuel_economy d) combined with
      | Val mpg =>
          if negb (mpg =? 0) && outside 0 100 mpg
          then ["Fuel economy value seems unrealistic"] else []
      | _ => []
      end).

Definition sanitizeField (x : field string) : field string :=
  if truthyString x then mapField sanitizeString x else x.

(** The argument after the two in-place assignments
    [carData.manufacturer = ...] and [carData.model = ...]. *)
Definition sanitizeInPlace (d : CarData) : CarData :=
  {| vehicle_type := vehicle_type d;
     manufacturer := sanitizeField (manufacturer d);
     model := sanitizeField (model d);
     year := year d;
     price := price d;
     performance := performance d;
     features := features d;
     specifications := specifications d;
     dimensions := dimensions d;
     fuel_economy := fuel_economy d;
     safety_ratings := safety_ratings d;
     value_score := value_score d;
     data_quality := data_quality d;
     scraped_at := scraped_at d |}.

(** What [validateCarData] computes when the cache has no entry. *)
Definition computeResult (currentYear : Z) (carData : CarData) : ValidationResult :=
  let errs := computeErrors currentYear carData in
  let sanitizedData := removeMaliciousContent (sanitizeInPlace carData) in
  {| valid := match errs with [] => true | _ => false end;
     errors := errs;
     warnings := computeWarnings carData;
     data := sanitizedData;
     score := calculateValidationScore sanitizedData |}.

(** The validation cache, keyed by the content of the record as it was
    passed in ([JSON.stringify] before the in-place assignments).  The text
    that is the key in the code also depends on the order of the keys, which
    a record here does not have: the same content written in another order
    is answered from the cache here and validated afresh there.  What is
    proved under [cacheSound] holds on a hit and on a miss alike. *)
Definition Cache : Type := list (CarData * ValidationResult).

Fixpoint cacheGet (key : CarData) (cache : Cache) : option ValidationResult :=
  match cache with
  | [] => None
  | (k, r) :: rest => if CarData_eq_dec key k then Some r else cacheGet key rest
  end.

(** [validateCarData(carData)] at a moment of year [currentYear]: the
    result, the argument as the call leaves it, and the cache afterwards. *)
Definition validateCarData (currentYear : Z) (cache : Cache) (carData : CarData)
    : ValidationResult * CarData * Cache :=
  match cacheGet carData cache with
  | Some cached => (cached, carData, cache)
  | None =>
      let result := computeResult currentYear carData in
      (result, sanitizeInPlace carData, (carData, result) :: cache)
  end.

Definition resultOf (r : ValidationResult * CarData * Cache) : ValidationResult :=
  fst (fst r).

(** Two results agree on what a caller can observe besides the sanitized
    copy. *)
Definition sameVerdict (r r' : ValidationResult) : Prop :=
  valid r = valid r' /\ errors r = errors r' /\
  warnings r = warnings r' /\ score r = score r'.

Definition setNames (d : CarData) (manu mo : field string) : CarData :=
  {| vehicle_type := vehicle_type d;
     manufacturer := manu;
     model := mo;
     year := year d;
     price := price d;
     performance := performance d;
     features := features d;
     specifications := specifications d;
     dimensions := dimensions d;
     fuel_economy := fuel_economy d;
     safety_ratings := safety_ratings d;
     value_score := value_score d;
     data_quality := data_quality d;
     scraped_at := scraped_at d |}.

(** The record [d] after [n] (resp. [m]) further in-place sanitizations of
    its manufacturer (resp. model). *)
Definition resanitize (n m : nat) (d : CarData) : CarData :=
  setNames d (Nat.iter n sanitizeField (manufacturer d))
             (Nat.iter m sanitizeField (model d)).

(** What the code maintains about its cache during a run in the year
    [currentYear]: an entry was computed from the content it is filed under.
    Its [data] object is shared with the callers that received it, and
    validating that object again assigns to its manufacturer and model in
    place; so the stored [data] is the computed one up to repeated
    [sanitizeString] on these two properties. *)
Definition cacheSound (currentYear : Z) (cache : Cache) : Prop :=
  forall key cached,
    cacheGet key cache = Some cached ->
    sameVerdict cached (computeResult currentYear key) /\
    exists n m, data cached = resanitize n m (data (computeResult currentYear key)).

(** The name a validation hands back: sanitized in place when it is truthy,
    then cleaned of the malicious patterns. *)
Definition sanitizedName (x : field string) : field string :=
  mapField cleanString (sanitizeField x).

(** A name that passes the required-field check as it is given and fails it
    once sanitized. *)
Definition blanked (x : field string) : bool :=
  negb (blank x) && blank (sanitizedName x).

(** A name that counts for the score once sanitized and no longer does when
    sanitized again. *)
Definition emptied (x : field string) : bool :=
  truthyString (sanitizedName x)
  && negb (truthyString (sanitizedName (sanitizedName x))).

(** Validating a record and then the sanitized copy that came back, on one
    validator. *)
Definition validateTwice (currentYear : Z) (cache : Cache) (carData : CarData)
    : ValidationResult * ValidationResult :=
  let '(v, _, cache1) := validateCarData currentYear cache carData in
  let '(v2, _, _) := validateCarData currentYear cache1 (data v) in
  (v, v2).

(** Records used in the examples. *)
Definition toyota : CarData :=
  {| vehicle_type := Missing;
     manufacturer := Val "Toyota";
     model := Val "Camry";
     year := Val 2024;
     price := Val (mkPrice (Val 28000) Missing Missing Missing);
     performance := Missing;
     features := Missing;
     specifications := Missing;
     dimensions := Missing;
     fuel_economy := Missing;
     safety_ratings := Missing;
     value_score := Missing;
     data_quality := Missing;
     scraped_at := Missing |}.

Definition setPerformance (d : CarData) (p : field Performance) : CarData :=
  {| vehicle_type := vehicle_type d;
     manufacturer := manufacturer d;
     model := model d;
     year := year d;
     price := price d;
     performance := p;
     features := features d;
     specifications := specifications d;
     dimensions := dimensions d;
     fuel_economy := fuel_economy d;
     safety_ratings := safety_ratings d;
     value_score := value_score d;
     data_quality := data_quality d;
     scraped_at := scraped_at d |}.

Definition setFuelEconomy (d : CarData) (f : field FuelEconomy) : CarData :=
  {| vehicle_type := vehicle_type d;
     manufacturer := manufacturer d;
     model := model d;
     year := year d;
     price := price d;
     performance := performance d;
     features := features d;
     specifications := specifications d;
     dimensions := dimensions d;
     fuel_economy := f;
     safety_ratings := safety_ratings d;
     value_score := value_score d;
     data_quality := data_quality d;
     scraped_at := scraped_at d |}.

(** The Toyota record with an engine of 5000 horsepower. *)
Definition toyota5000 : CarData :=
  setPerformance toyota (Val (mkPerformance (Val 5000) Missing Missing Missing)).

(** A record whose manufacturer is nothing but a removed pattern. *)
Definition dataUriCar : CarData :=
  setNames toyota (Val "data:") (Val "Camry").

(** A record whose manufacturer is a blank between two apostrophes, and one
    whose manufacturer has blanks around it. *)
Definition quotedBlankCar : CarData :=
  setNames toyota (Val "' '") (Val "Camry").

Definition paddedCar : CarData :=
  setNames toyota (Val " Toyota ") (Val "Camry").

(** A record of the year 1899. *)
Definition car1899 : CarData :=
  {| vehicle_type := Missing;
     manufacturer := Val "Ford";
     model := Val "Model T";
     year := Val 1899;
     price := Missing;
     performance := Missing;
     features := Missing;
     specifications := Missing;
     dimensions := Missing;
     fuel_economy := Missing;
     safety_ratings := Missing;
     value_score := Missing;
     data_quality := Missing;
     scraped_at := Missing |}.

(** The numeric properties the range checks read. *)
Definition numbers (d : CarData) : field Z * field Z * field Z * field Z :=
  (year d,
   optChain (price d) starting_msrp,
   optChain (performance d) horsepower,
   optChain (fuel_economy d) combined).

(** What the score reads of a record. *)
Definition shape (d : CarData) : list bool :=
  [ truthyString (manufacturer d);
    truthyString (model d);
    truthyNumber (year d);
    nonEmptyObject keysPrice (price d);
    nonEmptyObject keysPerformance (performance d);
    nonEmptyObject keysSpecifications (specifications d);
    truthyObject (features d);
    truthyObject (dimensions d) ].

End DataValidator.


(** ** security/monitor *)

Module SecurityMonitor.

Local Open Scope string_scope.
Local Open Scope Z_scope.

(** A value stored under a key of an event's details. *)
Inductive detail :=
| DNum (z : Z)
| DStr (s : string).

Definition Details : Type := list (string * detail).

Record Event := mkEvent {
  id : string;
  type : string;
  timestamp : Z;
  sessionId : option string;
  details : Details;
  severity : option Z
}.

Record Thresholds := mkThresholds {
  maxRequestsPerMinute : Z;
  maxConsecutiveFailures : Z;
  maxSecurityIncidents : Z
}.

(** The monitor, with the number of wall-clock readings and of random
    draws made so far. *)
Record State := mkState {
  auditLog : list Event;
  securityIncidents : list Event;
  session : option string;
  startTime : Z;
  requestCount : Z;
  blockedCount : Z;
  retryCount : Z;
  thresholds : Thresholds;
  clockReads : nat;
  randomDraws : nat
}.

(** The result of a call that may run out of call stack: [depth] bounds the
    nesting of calls, and [StackExhausted] carries the state reached when
    the bound was hit. *)
Inductive outcome (A : Type) : Type :=
| Returned (a : A) (st : State)
| StackExhausted (st : State).
Arguments Returned {A} a st.
Arguments StackExhausted {A} st.

Definition stateOf {A} (o : outcome A) : State :=
  match o with
  | Returned _ st => st
  | StackExhausted st => st
  end.

Definition hasReturned {A} (o : outcome A) : bool :=
  match o with
  | Returned _ _ => true
  | StackExhausted _ => false
  end.

(** Names that every object inherits: looking one of them up in the
    severity table finds a function or an object, not a number. *)
Definition inheritedNames : list string :=
  [ "constructor"; "hasOwnProperty"; "isPrototypeOf"; "propertyIsEnumerable";
    "toLocaleString"; "toString"; "valueOf"; "__proto__";
    "__defineGetter__"; "__defineSetter__"; "__lookupGetter__"; "__lookupSetter__" ].

(** [severityMap[eventType] || 2]; [None] is a value that is not a number. *)
Definition getEventSeverity (eventType : string) : option Z :=
  if String.eqb eventType "session_created" then Some 1
  else if String.eqb eventType "request_made" then Some 1
  else if String.eqb eventType "retry_attempt" then Some 2
  else if String.eqb eventType "request_blocked" then Some 3
  else if String.eqb eventType "captcha_detected" then Some 3
  else if String.eqb eventType "ip_blocked" then Some 4
  else if String.eqb eventType "rate_limit_exceeded" then Some 3
  else if String.eqb eventType "security_violation" then Some 5
  else if existsb (String.eqb eventType) inheritedNames then None
  else Some 2.

(** [event.severity >= 3] *)
Definition isIncident (s : option Z) : bool :=
  match s with
  | Some n => 3 <=? n
  | None => false
  end.

Definition truthyDetail (d : detail) : bool :=
  match d with
  | DNum z => negb (z =? 0)
  | DStr s => negb (JsString.isEmpty s)
  end.

Definition sensitiveKey (k : string) : bool :=
  String.eqb k "password" || String.eqb k "apiKey" || String.eqb k "token".

Definition initialThresholds : Thresholds := mkThresholds 30 5 10.

(** [event.type === 'request_made' && timestamp > oneMinuteAgo] *)
Definition recentRequest (oneMinuteAgo : Z) (event : Event) : bool :=
  String.eqb (type event) "request_made" && (oneMinuteAgo <? timestamp event).

Definition pushEvent (event : Event) (st : State) : State :=
  {| auditLog := auditLog st ++ [event];
     securityIncidents :=
       if isIncident (severity event) then securityIncidents st ++ [event]
       else securityIncidents st;
     session := session st;
     startTime := startTime st;
     requestCount := requestCount st;
     blockedCount := blockedCount st;
     retryCount := retryCount st;
     thresholds := thresholds st;
     clockReads := clockReads st;
     randomDraws := randomDraws st |}.

Definition tick (st : State) : State :=
  {| auditLog := auditLog st;
     securityIncidents := securityIncidents st;
     session := session st;
     startTime := startTime st;
     requestCount := requestCount st;
     blockedCount := blockedCount st;
     retryCount := retryCount st;
     thresholds := thresholds st;
     clockReads := S (clockReads st);
     randomDraws := randomDraws st |}.

Definition draw (st : State) : State :=
  {| auditLog := auditLog st;
     securityIncidents := securityIncidents st;
     session := session st;
     startTime := startTime st;
     requestCount := requestCount st;
     blockedCount := blockedCount st;
     retryCount := retryCount st;
     thresholds := thresholds st;
     clockReads := clockReads st;
     randomDraws := S (randomDraws st) |}.

Definition countRequest (st : State) : State :=
  {| auditLog := auditLog st;
     securityIncidents := securityIncidents st;
     session := session st;
     startTime := startTime st;
     requestCount := requestCount st + 1;
     blockedCount := blockedCount st;
     retryCount := retryCount st;
     thresholds := thresholds st;
     clockReads := clockReads st;
     randomDraws := randomDraws st |}.

Section Monitor.

(** The environment: the [k]-th reading of the wall clock in milliseconds,
    the [k]-th text drawn from [crypto.randomBytes], and the reduction of a
    URL to scheme, host and path done through the [URL] class. *)
Variable clock : nat -> Z.
Variable randomHex : nat -> string.
Variable sanitizeUrl : detail -> string.

Definition constructor : State :=
  {| auditLog := [];
     securityIncidents := [];
     session := None;
     startTime := clock 0;
     requestCount := 0;
     blockedCount := 0;
     retryCount := 0;
     thresholds := initialThresholds;
     clockReads := 1;
     randomDraws := 0 |}.

(** [sanitizeDetails]: a copy without the three sensitive keys, whose [url],
    when truthy, is reduced. *)
Definition sanitizeDetails (d : Details) : Details :=
  map (fun kv =>
         if String.eqb (fst kv) "url" && truthyDetail (snd kv)
         then (fst kv, DStr (sanitizeUrl (snd kv)))
         else kv)
      (filter (fun kv => negb (sensitiveKey (fst kv))) d).

Definition newEvent (eventType : string) (d : Details) (st : State) : Event :=
  {| id := randomHex (randomDraws st);
     type := eventType;
     timestamp := clock (clockReads st);
     sessionId := session st;
     details := sanitizeDetails d;
     severity := getEventSeverity eventType |}.

(** The caller's result once the callee is back; a callee that ran out of
    stack takes the caller with it. *)
Definition returning {A B} (b : B) (o : outcome A) : outcome B :=
  match o with
  | Returned _ st => Returned b st
  | StackExhausted st => StackExhausted st
  end.

(** [logEvent] and [checkThresholds] call each other; [depth] is the call
    depth still available. *)
Fixpoint logEvent (depth : nat) (eventType : string) (d : Details) (st : State)
    {struct depth} : outcome string :=
  match depth with
  | O => StackExhausted st
  | S depth' =>
      let event := newEvent eventType d st in
      returning (id event) (checkThresholds depth' (pushEvent event (tick (draw st))))
  end
with checkThresholds (depth : nat) (st : State) {struct depth} : outcome unit :=
  match depth with
  | O => StackExhausted st
  | S depth' =>
      let oneMinuteAgo := clock (clockReads st) - 60000 in
      let st0 := tick st in
      let recentRequests := filter (recentRequest oneMinuteAgo) (auditLog st0) in
      match
        (if maxRequestsPerMinute (thresholds st0) <? Z.of_nat (List.length recentRequests)
         then
           returning tt
             (logEvent depth' "rate_limit_exceeded"
                [("current", DNum (Z.of_nat (List.length recentRequests)));
                 ("limit", DNum (maxRequestsPerMinute (thresholds st0)))] st0)
         else Returned tt st0)
      with
      | StackExhausted st1 => StackExhausted st1
      | Returned _ st1 =>
          if maxSecurityIncidents (thresholds st1)
               <? Z.of_nat (List.length (securityIncidents st1))
          then
            returning tt
              (logEvent depth' "security_threshold_exceeded"
                 [("incidents", DNum (Z.of_nat (List.length (securityIncidents st1))));
                  ("limit", DNum (maxSecurityIncidents (thresholds st1)))] st1)
          else Returned tt st1
      end
  end.

(** [trackRequest(url, method)] *)
Definition trackRequest (depth : nat) (url : detail) (method : string) (st : State)
    : outcome string :=
  let st1 := countRequest st in
  let requestId := randomHex (randomDraws st1) in
  let request :=
    [("id", DStr requestId);
     ("url", DStr (sanitizeUrl url));
     ("method", DStr method);
     ("timestamp", DNum (clock (clockReads st1)))] in
  returning requestId (logEvent depth "request_made" request (tick (draw st1))).

(** [n] calls of [logEvent('request_made')] in a row, each with [depth]
    levels of call stack: the state reached, and whether all calls
    returned. *)
Fixpoint logRequests (depth n : nat) (st : State) : bool * State :=
  match n with
  | O => (true, st)
  | S n' =>
      match logEvent depth "request_made" [] st with
      | Returned _ st' => logRequests depth n' st'
      | StackExhausted st' => (false, st')
      end
  end.

(** The log holds so many recent requests that one more exceeds the
    ceiling, whenever the clock is read. *)
Definition atCeiling (st : State) : Prop :=
  forall k,
    maxRequestsPerMinute (thresholds st)
    <= Z.of_nat (List.length (filter (recentRequest (clock k - 60000)) (auditLog st))).

(** The recent requests exceed the ceiling, whenever the clock is read. *)
Definition overCeiling (st : State) : Prop :=
  forall k,
    maxRequestsPerMinute (thresholds st)
    < Z.of_nat (List.length (filter (recentRequest (clock k - 60000)) (auditLog st))).

(** Every reading of the clock is less than a minute after any other. *)
Definition withinOneMinute : Prop :=
  forall i j, clock j - 60000 < clock i.

Definition countType (t : string) (log : list Event) : nat :=
  List.length (filter (fun e => String.eqb (type e) t) log).

End Monitor.

(** A clock that stands still, a constant random text and a URL reduction
    that keeps no text: the environment of the worked example. *)
Definition frozenClock : nat -> Z := fun _ => 1000.
Definition fixedHex : nat -> string := fun _ => "00".
Definition anyUrl : detail -> string := fun _ => "invalid_url".

(** The monitor after 30 requests logged at the same instant. *)
Definition after30 : State :=
  snd (logRequests frozenClock fixedHex anyUrl 4 30 (constructor frozenClock)).

End SecurityMonitor.

(** ** routes: merging what the sources found *)

Module Routes.
Import Car.

Local Open Scope string_scope.

(** One property of [{...target, ...source}]: the source's when the source
    has the key, the target's otherwise. *)
Definition spread {A} (target source : field A) : field A :=
  match source with
  | Missing => target
  | _ => source
  end.

Definition spreadPrice (t s : Price) : Price :=
  mkPrice (spread (starting_msrp t) (starting_msrp s))
          (spread (max_price t) (max_price s))
          (spread (is_estimated t) (is_estimated s))
          (spread (price_range t) (price_range s)).

Definition spreadPerformance (t s : Performance) : Performance :=
  mkPerformance (spread (horsepower t) (horsepower s))
                (spread (torque t) (torque s))
                (spread (acceleration_0_60 t) (acceleration_0_60 s))
                (spread (engine t) (engine s)).

Definition spreadSpecifications (t s : Specifications) : Specifications :=
  mkSpecifications (spread (transmission t) (transmission s))
                   (spread (drivetrain t) (drivetrain s))
                   (spread (fuel_type t) (fuel_type s)).

Definition spreadDimensions (t s : Dimensions) : Dimensions :=
  mkDimensions (spread (dim_length t) (dim_length s))
               (spread (dim_width t) (dim_width s))
               (spread (dim_height t) (dim_height s))
               (spread (wheelbase t) (wheelbase s)).

Definition spreadFuelEconomy (t s : FuelEconomy) : FuelEconomy :=
  mkFuelEconomy (spread (city t) (city s))
                (spread (highway t) (highway s))
                (spread (combined t) (combined s)).

(** Writing one key of an object given by its entries: in place when the
    key is there, at the end otherwise. *)
Fixpoint setKey (k : string) (v : Z) (o : list (string * Z)) : list (string * Z) :=
  match o with
  | [] => [(k, v)]
  | (k', v') :: rest =>
      if String.eqb k k' then (k, v) :: rest else (k', v') :: setKey k v rest
  end.

Definition spreadEntries (t s : list (string * Z)) : list (string * Z) :=
  fold_left (fun acc kv => setKey (fst kv) (snd kv) acc) s t.

(** [if (source.f) target.f = { ...target.f, ...source.f }]: nothing happens
    unless the source holds an object; spreading a missing or [null] target
    contributes no key. *)
Definition mergeObject {A} (spreadA : A -> A -> A) (target source : field A) : field A :=
  match source with
  | Val s =>
      match target with
      | Val t => Val (spreadA t s)
      | _ => Val s
      end
  | _ => target
  end.

(** [[...new Set(l)]]: the elements of [l] without repetition, each at the
    place of its first occurrence. *)
Fixpoint uniqueFrom (seen : list string) (l : list string) : list string :=
  match l with
  | [] => []
  | x :: rest =>
      if existsb (String.eqb x) seen then uniqueFrom seen rest
      else x :: uniqueFrom (x :: seen) rest
  end.

Definition setToArray (l : list string) : list string := uniqueFrom [] l.

(** What a call of [mergeCarData] leaves: the target after the merge, or
    the target as it stood when spreading a [features] that is not an array
    threw a [TypeError]. *)
Inductive merged :=
| Merged (target : CarData)
| TypeError (target : CarData).

Definition targetOf (m : merged) : CarData :=
  match m with
  | Merged t => t
  | TypeError t => t
  end.

Definition withObjects (target : CarData)
    (p : field Price) (q : field Performance) : CarData :=
  {| vehicle_type := vehicle_type target;
     manufacturer := manufacturer target;
     model := model target;
     year := year target;
     price := p;
     performance := q;
     features := features target;
     specifications := specifications target;
     dimensions := dimensions target;
     fuel_economy := fuel_economy target;
     safety_ratings := safety_ratings target;
     value_score := value_score target;
     data_quality := data_quality target;
     scraped_at := scraped_at target |}.

(** [mergeCarData(target, source)]: price and performance first, then the
    features, then specifications, dimensions, fuel economy and safety
    ratings. *)
Definition mergeCarData (target source : CarData) : merged :=
  let t1 :=
    withObjects target
      (mergeObject spreadPrice (price target) (price source))
      (mergeObject spreadPerformance (performance target) (performance source)) in
  let rest (fs : field (list string)) : CarData :=
    {| vehicle_type := vehicle_type t1;
       manufacturer := manufacturer t1;
       model := model t1;
       year := year t1;
       price := price t1;
       performance := performance t1;
       features := fs;
       specifications :=
         mergeObject spreadSpecifications (specifications t1) (specifications source);
       dimensions := mergeObject spreadDimensions (dimensions t1) (dimensions source);
       fuel_economy :=
         mergeObject spreadFuelEconomy (fuel_economy t1) (fuel_economy source);
       safety_ratings :=
         mergeObject spreadEntries (safety_ratings t1) (safety_ratings source);
       value_score := value_score t1;
       data_quality := data_quality t1;
       scraped_at := scraped_at t1 |} in
  match features source with
  | Val sf =>
      match features t1 with
      | Val tf => Merged (rest (Val (setToArray (tf ++ sf)%list)))
      | _ => TypeError t1
      end
  | _ => Merged (rest (features t1))
  end.

(** The record [scrapeCarDetails] starts from. *)
Definition initialCarData (manufacturer model : string) (year : Z) (now : string)
    : CarData :=
  {| vehicle_type := Val "Sedan";
     manufacturer := Val manufacturer;
     model := Val model;
     year := Val year;
     price := Val (mkPrice Missing Missing Missing Missing);
     performance := Val (mkPerformance Missing Missing Missing Missing);
     features := Val [];
     specifications := Val (mkSpecifications Missing Missing Missing);
     dimensions := Val (mkDimensions Missing Missing Missing Missing);
     fuel_economy := Val (mkFuelEconomy Missing Missing Missing);
     safety_ratings := Missing;
     value_score := Missing;
     data_quality := Missing;
     scraped_at := Val now |}.

(** A fragment that holds nothing but a list of features. *)
Definition featuresOnly (l : list string) : CarData :=
  {| vehicle_type := Missing;
     manufacturer := Missing;
     model := Missing;
     year := Missing;
     price := Missing;
     performance := Missing;
     features := Val l;
     specifications := Missing;
     dimensions := Missing;
     fuel_economy := Missing;
     safety_ratings := Missing;
     value_score := Missing;
     data_quality := Missing;
     scraped_at := Missing |}.

(** Merging a list of fragments in order, as the loop over the sources
    does; a throw ends it. *)
Fixpoint mergeAll (target : CarData) (sources : list CarData) : merged :=
  match sources with
  | [] => Merged target
  | s :: rest =>
      match mergeCarData target s with
      | Merged t => mergeAll t rest
      | TypeError t => TypeError t
      end
  end.

End Routes.

(** ** main: the loop over the manufacturers *)

Module Main.
Import JsString.

Local Open Scope string_scope.
Local Open Scope Z_scope.

Definition twoDigits (n : Z) : string :=
  if n <? 10 then "0" ++ showZ n else showZ n.

(** [x.toFixed(2)] for a double [x] from 0 to below 10^21, given by its
    exact value: the nearest multiple of 1/100, the larger one on a tie,
    printed with two decimals. *)
Definition toFixed2 (x : Q) : string :=
  let n := Qfloor (x * 100 + (1 # 2))%Q in
  showZ (n / 100) ++ "." ++ twoDigits (n mod 100).

Section Orchestrator.

(** The records as the loop sees them, and everything outside the loop's
    own variables that its collaborators read and change: the monitor, the
    limiter, the validator with its cache, the network, the clock. *)
Variable Car : Type.
Variable World : Type.

(** A call on a collaborator returns a value or throws. *)
Inductive completion (A : Type) : Type :=
| Normal (a : A) (w : World)
| Throw (w : World).
Arguments Normal {A} a w.
Arguments Throw {A} w.

Variable scrapeManufacturer : string -> option Z -> World -> completion (list Car).
Variable applySecurityTransformations : Car -> World -> completion Car.
Variable validateCarData : Car -> World -> completion bool.
Variable setProgress : string -> Z -> nat -> World -> completion unit.
Variable logManufacturerError : string -> World -> completion unit.
Variable delay : World -> World.
Variable withCompetitors : list Car -> Car -> Car.

(** Double arithmetic, as far as the success rate needs it: the double that
    [a / b] evaluates to on two whole numbers, and the double that [x * 100]
    evaluates to, each given by its exact value. *)
Variable divide : Z -> Z -> Q.
Variable times100 : Q -> Q.

Record Input := mkInput {
  maxResults : option Z;
  includeCompetitors : bool
}.

Record Loop := mkLoop {
  allCars : list Car;
  processedCount : Z;
  world : World
}.

Definition setWorld (st : Loop) (w : World) : Loop :=
  {| allCars := allCars st; processedCount := processedCount st; world := w |}.

(** [manufacturerCars.map(car => applySecurityTransformations(car, ...))] *)
Fixpoint mapCars (cars : list Car) (w : World) : completion (list Car) :=
  match cars with
  | [] => Normal [] w
  | car :: rest =>
      match applySecurityTransformations car w with
      | Throw w1 => Throw w1
      | Normal car' w1 =>
          match mapCars rest w1 with
          | Throw w2 => Throw w2
          | Normal rest' w2 => Normal (car' :: rest') w2
          end
      end
  end.

(** [secureCars.filter(car => dataValidator.validateCarData(car).valid)] *)
Fixpoint filterCars (cars : list Car) (w : World) : completion (list Car) :=
  match cars with
  | [] => Normal [] w
  | car :: rest =>
      match validateCarData car w with
      | Throw w1 => Throw w1
      | Normal ok w1 =>
          match filterCars rest w1 with
          | Throw w2 => Throw w2
          | Normal rest' w2 => Normal (if ok then car :: rest' else rest') w2
          end
      end
  end.

(** [Math.ceil(input.maxResults / manufacturers.length)]; [None] is NaN. *)
Definition maxPerManufacturer (input : Input) (count : nat) : option Z :=
  match maxResults input with
  | Some m => Some (- ((- m) / Z.of_nat count))
  | None => None
  end.

(** The body of the [try]: the loop variables it leaves, and whether it
    left by a throw. *)
Definition tryBody (input : Input) (count : nat) (manufacturer : string) (st : Loop)
    : Loop * bool :=
  match scrapeManufacturer manufacturer (maxPerManufacturer input count) (world st) with
  | Throw w => (setWorld st w, true)
  | Normal manufacturerCars w1 =>
      match mapCars manufacturerCars w1 with
      | Throw w => (setWorld st w, true)
      | Normal secureCars w2 =>
          match filterCars secureCars w2 with
          | Throw w => (setWorld st w, true)
          | Normal validCars w3 =>
              let st1 :=
                {| allCars := allCars st ++ validCars;
                   processedCount := processedCount st + Z.of_nat (List.length validCars);
                   world := w3 |} in
              match setProgress manufacturer (processedCount st1)
                      (List.length (allCars st1)) w3 with
              | Normal _ w4 => (setWorld st1 w4, false)
              | Throw w4 => (setWorld st1 w4, true)
              end
          end
      end
  end.

(** [processedCount >= input.maxResults] *)
Definition limitReached (input : Input) (st : Loop) : bool :=
  match maxResults input with
  | Some m => m <=? processedCount st
  | None => false
  end.

(** How the loop ends: by running to its end or to the [break], or by a
    throw from the [catch] block, which ends [main]. *)
Inductive ending :=
| Completed (st : Loop)
| Failed (st : Loop).

Definition loopOf (e : ending) : Loop :=
  match e with
  | Completed st => st
  | Failed st => st
  end.

Fixpoint processManufacturers (input : Input) (count : nat)
    (manufacturers : list string) (st : Loop) : ending :=
  match manufacturers with
  | [] => Completed st
  | manufacturer :: rest =>
      if limitReached input st then Completed st
      else
        let (st1, threw) := tryBody input count manufacturer st in
        if threw then
          match logManufacturerError manufacturer (world st1) with
          | Normal _ w => processManufacturers input count rest (setWorld st1 (delay w))
          | Throw w => Failed (setWorld st1 w)
          end
        else processManufacturers input count rest (setWorld st1 (delay (world st1)))
  end.

(** [const successRate = processedCount > 0
      ? (allCars.length / processedCount * 100).toFixed(2) : 0]
    as the template literal of the metadata prints it. *)
Definition successRate (st : Loop) : string :=
  if 0 <? processedCount st
  then toFixed2 (times100 (divide (Z.of_nat (List.length (allCars st)))
                                  (processedCount st)))
  else "0".

(** [metadata.success_rate] *)
Definition success_rate (st : Loop) : string := successRate st ++ "%".

(** The loop's two variables agree. *)
Definition counted (st : Loop) : Prop :=
  Z.of_nat (List.length (allCars st)) = processedCount st.

(** [addCompetitorAnalysis]: every car gets its competitors. *)
Definition addCompetitorAnalysis (cars : list Car) : list Car :=
  map (withCompetitors cars) cars.

(** [main] from the loop to the metadata: the [success_rate] reported, when
    the loop did not end [main] by a throw. *)
Definition main (input : Input) (manufacturers : list string) (w : World)
    : ending * option string :=
  match processManufacturers input (List.length manufacturers) manufacturers
          {| allCars := []; processedCount := 0; world := w |} with
  | Completed st =>
      let st' :=
        if includeCompetitors input && (1 <? Z.of_nat (List.length (allCars st)))
        then {| allCars := addCompetitorAnalysis (allCars st);
                processedCount := processedCount st;
                world := world st |}
        else st in
      (Completed st', Some (success_rate st'))
  | Failed st => (Failed st, None)
  end.

End Orchestrator.

Arguments Normal {World A} a w.
Arguments Throw {World A} w.
Arguments mkLoop {Car World} allCars processedCount world.
Arguments allCars {Car World} l.
Arguments processedCount {Car World} l.
Arguments world {Car World} l.
Arguments setWorld {Car World} st w.
Arguments Completed {Car World} st.
Arguments Failed {Car World} st.
Arguments loopOf {Car World} e.
Arguments mapCars {Car World} applySecurityTransformations cars w.
Arguments filterCars {Car World} validateCarData cars w.
Arguments tryBody {Car World} scrapeManufacturer applySecurityTransformations
  validateCarData setProgress input count manufacturer st.
Arguments limitReached {Car World} input st.
Arguments processManufacturers {Car World} scrapeManufacturer
  applySecurityTransformations validateCarData setProgress logManufacturerError
  delay input count manufacturers st.
Arguments counted {Car World} st.
Arguments successRate {Car World} divide times100 st.
Arguments success_rate {Car World} divide times100 st.
Arguments addCompetitorAnalysis {Car} withCompetitors cars.
Arguments main {Car World} scrapeManufacturer applySecurityTransformations
  validateCarData setProgress logManufacturerError delay withCompetitors
  divide times100 input manufacturers w.

(** Arithmetic without rounding, which agrees with the doubles wherever the
    exact result is a double. *)
Definition exactDivide (a b : Z) : Q := (inject_Z a / inject_Z b)%Q.
Definition exactTimes100 (x : Q) : Q := (x * 100)%Q.

(** A run in a world without state: every manufacturer has the models 1, 2
    and 3, the transformations leave a car as it is, and the validator
    accepts the even ones. *)
Definition threeModels (manufacturer : string) (limit : option Z) (w : unit)
    : completion unit (list Z) := Normal [1; 2; 3] w.
Definition untouched (car : Z) (w : unit) : completion unit Z := Normal car w.
Definition acceptEven (car : Z) (w : unit) : completion unit bool :=
  Normal (Z.even car) w.
Definition progressSaved (manufacturer : string) (processed : Z) (total : nat)
    (w : unit) : completion unit unit := Normal tt w.
Definition errorLogged (manufacturer : string) (w : unit) : completion unit unit :=
  Normal tt w.
Definition tenResults : Input := {| maxResults := Some 10; includeCompetitors := false |}.

End Main.

(** ** security/rate-limiter: the remaining operations *)

Module RateLimiterOps.
Import RateLimiter.

Local Open Scope Q_scope.

(** [customDelay || this.calculateDelay()]: a missing or zero custom delay
    falls back on the computed one, whose call steps the multiplier. *)
Definition chosenDelay (customDelay : option Q) (st : State) : Q * State :=
  match customDelay with
  | Some c => if Qeq_bool c 0 then calculateDelay st else (c, st)
  | None => calculateDelay st
  end.

(** [delay(customDelay)] up to the sleep: the time slept and the state left;
    [random] is what [Math.random()] returned. *)
Definition delay (customDelay : option Q) (random : Q) (st : State) : Q * State :=
  let (d, st') := chosenDelay customDelay st in
  (Qmax 500 (d + random * jitter (config st) * 2 - jitter (config st)), st').

Record Stats := mkStats {
  active_requests : Z;
  recent_requests : nat;
  consecutive_failures : nat;
  backoff_multiplier : Q;
  current_delay : Q
}.

(** [getStats()]: the properties of the literal are evaluated in order, so
    the multiplier is read before [calculateDelay] steps it. *)
Definition getStats (now : Z) (st : State) : Stats * State :=
  let recentRequests := filter (recent now) (requestTimestamps st) in
  ({| active_requests := activeRequests st;
      recent_requests := List.length recentRequests;
      consecutive_failures := consecutiveFailures st;
      backoff_multiplier := backoffMultiplier st;
      current_delay := fst (calculateDelay st) |},
   snd (calculateDelay st)).

(** Every call a client can make. *)
Inductive op :=
| OCall (c : call)
| OGatedAdmit (now : Z)
| OCalculateDelay
| ODelay (customDelay : option Q) (random : Q)
| OGetStats (now : Z)
| OReset
| OAdaptiveLimit (conditions : Conditions).

Definition apply (st : State) (o : op) : State :=
  match o with
  | OCall c => step st c
  | OGatedAdmit now => gatedAdmit now st
  | OCalculateDelay => snd (calculateDelay st)
  | ODelay customDelay random => snd (delay customDelay random st)
  | OGetStats now => snd (getStats now st)
  | OReset => reset st
  | OAdaptiveLimit conditions => adaptiveLimit conditions st
  end.

Definition applyAll (st : State) (ops : list op) : State :=
  fold_left apply ops st.

Definition multiplierInRange (st : State) : Prop :=
  1 <= backoffMultiplier st /\ backoffMultiplier st <= 10.

End RateLimiterOps.

(** ** security/validator: the run configuration, and plain strings *)

Module ValidatorOps.
Import Car JsString Regex DataValidator.

Local Open Scope string_scope.
Local Open Scope Z_scope.

(** The run configuration as [validateInput] reads it; its numbers are
    whole. *)
Record RunInput := mkRunInput {
  vehicleType : field string;
  maxResults : field Z;
  country : field string;
  securityLevel : field string;
  rateLimitDelay : field Z
}.

Record InputResult := mkInputResult {
  inputValid : bool;
  inputErrors : list string
}.

Definition vehicleTypes : list string :=
  ["Sedan"; "SUV"; "Hatchback"; "Coupe"; "Sports car"; "Crossover"; "All"].

Definition validCountries : list string :=
  ["US"; "UK"; "CA"; "AU"; "DE"; "JP"; "IN"; "FR"; "IT"; "ES"].

Definition validSecurityLevels : list string :=
  ["minimal"; "standard"; "strict"; "stealth"].

(** [list.includes(s)] *)
Definition includes (l : list string) (s : string) : bool :=
  existsb (String.eqb s) l.

Section ParseInt.

(** The first digit of the text of a whole number of 10^21 or more: from
    there on [String] writes a number in exponent notation ([1e+21],
    [2.5e+30]), with one digit from 1 to 9 before the point. *)
Variable leadingDigit : Z -> Z.

(** [parseInt(x)] of a whole number: the number itself as long as its text
    is a plain run of digits, which it is below 10^21 in size; beyond that
    [parseInt] reads the text up to the point or the [e], which leaves the
    first digit with the sign. *)
Definition parseInt (n : Z) : Z :=
  if Z.abs n <? 10 ^ 21 then n else Z.sgn n * leadingDigit (Z.abs n).

(** [if (x !== undefined) { n = parseInt(x); if (isNaN(n) || n < lo || n > hi) ... }]:
    [null] parses to NaN. *)
Definition numberError (x : field Z) (lo hi : Z) (message : string) : list string :=
  match x with
  | Missing => []
  | Null => [message]
  | Val n => if outside lo hi (parseInt n) then [message] else []
  end.

(** [if (x && !allowed.includes(x)) ...] *)
Definition enumError (x : field string) (allowed : list string) (message : string)
    : list string :=
  match x with
  | Val s => if negb (isEmpty s) && negb (includes allowed s) then [message] else []
  | _ => []
  end.

Definition validateInput (input : RunInput) : InputResult :=
  let errs :=
   ((match vehicleType input with
     | Val s =>
         if isEmpty s then ["vehicleType is required"]
         else if includes vehicleTypes s then [] else ["Invalid vehicleType"]
     | _ => ["vehicleType is required"]
     end)
    ++ numberError (maxResults input) 1 1000 "maxResults must be between 1 and 1000"
    ++ enumError (country input) validCountries "Invalid country code"
    ++ enumError (securityLevel input) validSecurityLevels "Invalid securityLevel"
    ++ numberError (rateLimitDelay input) 500 10000
         "rateLimitDelay must be between 500 and 10000")%list in
  {| inputValid := match errs with [] => true | _ => false end;
     inputErrors := errs |}.

End ParseInt.

(** A run for sedans with a limit of 10^21 results. *)
Definition hugeRun : RunInput :=
  {| vehicleType := Val "Sedan";
     maxResults := Val (10 ^ 21);
     country := Missing;
     securityLevel := Missing;
     rateLimitDelay := Missing |}.

(** [l'] is what is left of [l] after some code units. *)
Definition suffixOf (l' l : list ascii) : Prop :=
  exists consumed, l = (consumed ++ l')%list.

(** A code unit that every match of the pattern consumes. *)
Fixpoint requires (ch : ascii) (r : regex) : Prop :=
  match r with
  | Sym p => forall x, p x = true -> x = ch
  | Cat r1 r2 => requires ch r1 \/ requires ch r2
  | _ => False
  end.

Section StarLoop.

(** The loop of the star on its own: [m] matches one iteration, [k] is what
    follows the star. *)
Variable m : option ascii -> list ascii ->
             (option ascii -> list ascii -> option cursor) -> option cursor.
Variable k : option ascii -> list ascii -> option cursor.

Fixpoint starLoop (n : nat) (prev0 : option ascii) (s0 : list ascii) {struct n}
    : option cursor :=
  match n with
  | O => k prev0 s0
  | S n' =>
      match m prev0 s0
              (fun prev' s' =>
                 if (List.length s' <? List.length s0)%nat
                 then starLoop n' prev' s' else None) with
      | Some c => Some c
      | None => k prev0 s0
      end
  end.

End StarLoop.

(** The code units no pattern of [removeMaliciousContent] can match
    without. *)
Definition triggerChar (c : ascii) : bool :=
  let n := code c in
  ((n =? 60) || (n =? 58) || (n =? 61))%N.

Definition chars (s : string) : list ascii := list_ascii_of_string s.

(** A string free of the code units the patterns need. *)
Definition untriggered (s : string) : bool :=
  forallb (fun c => negb (triggerChar c)) (chars s).

(** A name the validator has nothing to do on: no white space around it, no
    markup character, no trigger of a pattern, at most 200 code units. *)
Definition plainName (s : string) : bool :=
  String.eqb (trim s) s
  && forallb (fun c => negb (isMarkupChar c)) (chars s)
  && untriggered s
  && (String.length s <=? 200)%nat.

(** The year check and the price check of [validateCarData] pass. *)
Definition yearAccepted (currentYear : Z) (d : CarData) : bool :=
  match year d with
  | Val y => (y =? 0) || negb (outside 1990 (currentYear + 2) y)
  | _ => true
  end.

Definition priceAccepted (d : CarData) : bool :=
  match optChain (price d) starting_msrp with
  | Val p => (p =? 0) || negb (outside 0 1000000 p)
  | _ => true
  end.

End ValidatorOps.

(** ** security/monitor: the tracking wrappers and the reports *)

Module MonitorOps.
Import JsString SecurityMonitor.

Local Open Scope string_scope.
Local Open Scope Z_scope.

Definition incidentEvent (e : Event) : bool := isIncident (severity e).

(** [st'] is [st] with more events logged: the log and the incident list
    have grown at their ends, by the same incidents, and nothing else that
    a report reads has changed. *)
Definition extends (st st' : State) : Prop :=
  exists new,
    auditLog st' = (auditLog st ++ new)%list /\
    securityIncidents st' = (securityIncidents st ++ filter incidentEvent new)%list /\
    thresholds st' = thresholds st /\
    requestCount st' = requestCount st /\
    blockedCount st' = blockedCount st /\
    retryCount st' = retryCount st /\
    session st' = session st /\
    startTime st' = startTime st.

(** As [extends], but for the log, the incidents and the ceilings only. *)
Definition grows (st st' : State) : Prop :=
  exists new,
    auditLog st' = (auditLog st ++ new)%list /\
    securityIncidents st' = (securityIncidents st ++ filter incidentEvent new)%list /\
    thresholds st' = thresholds st.

(** More incidents are on record than the ceiling allows. *)
Definition overIncidents (st : State) : Prop :=
  maxSecurityIncidents (thresholds st) < Z.of_nat (List.length (securityIncidents st)).

Definition countBlocked (st : State) : State :=
  {| auditLog := auditLog st;
     securityIncidents := securityIncidents st;
     session := session st;
     startTime := startTime st;
     requestCount := requestCount st;
     blockedCount := blockedCount st + 1;
     retryCount := retryCount st;
     thresholds := thresholds st;
     clockReads := clockReads st;
     randomDraws := randomDraws st |}.

Definition countRetry (st : State) : State :=
  {| auditLog := auditLog st;
     securityIncidents := securityIncidents st;
     session := session st;
     startTime := startTime st;
     requestCount := requestCount st;
     blockedCount := blockedCount st;
     retryCount := retryCount st + 1;
     thresholds := thresholds st;
     clockReads := clockReads st;
     randomDraws := randomDraws st |}.

Definition setSession (st : State) (s : string) : State :=
  {| auditLog := auditLog st;
     securityIncidents := securityIncidents st;
     session := Some s;
     startTime := startTime st;
     requestCount := requestCount st;
     blockedCount := blockedCount st;
     retryCount := retryCount st;
     thresholds := thresholds st;
     clockReads := clockReads st;
     randomDraws := randomDraws st |}.

(** [array.slice(-n)] *)
Definition lastN {A} (n : nat) (l : list A) : list A :=
  skipn (List.length l - n) l.

(** [arr.indexOf(x)]; [None] is -1. *)
Fixpoint indexOf (x : string) (arr : list string) : option nat :=
  match arr with
  | [] => None
  | y :: rest =>
      if String.eqb y x then Some O
      else match indexOf x rest with
           | Some i => Some (S i)
           | None => None
           end
  end.

(** [arr.indexOf(type) !== index] *)
Definition notFirstAt (arr : list string) (t : string) (index : nat) : bool :=
  match indexOf t arr with
  | Some i => negb (i =? index)%nat
  | None => true
  end.

(** [arr.filter((x, index) => f(x, index))], from position [index] on. *)
Fixpoint filterFrom (f : string -> nat -> bool) (index : nat) (l : list string)
    : list string :=
  match l with
  | [] => []
  | x :: rest =>
      if f x index then x :: filterFrom f (S index) rest
      else filterFrom f (S index) rest
  end.

Definition checkSuspiciousPatterns (st : State) : bool :=
  let patterns := map type (securityIncidents st) in
  let suspicious := filterFrom (notFirstAt patterns) 0 patterns in
  (0 <? List.length suspicious)%nat.

Section Monitor.

Variable clock : nat -> Z.
Variable randomHex : nat -> string.
Variable sanitizeUrl : detail -> string.

(** [trackBlockedRequest(url, reason)] *)
Definition trackBlockedRequest (depth : nat) (url reason : detail) (st : State)
    : outcome string :=
  logEvent clock randomHex sanitizeUrl depth "request_blocked"
    [("url", DStr (sanitizeUrl url)); ("reason", reason)] (countBlocked st).

(** [trackRetry(url, attempt)] *)
Definition trackRetry (depth : nat) (url attempt : detail) (st : State)
    : outcome string :=
  logEvent clock randomHex sanitizeUrl depth "retry_attempt"
    [("url", DStr (sanitizeUrl url)); ("attempt", attempt)] (countRetry st).

(** [setSessionId(sessionId)] *)
Definition setSessionId (depth : nat) (sessionId : string) (st : State)
    : outcome string :=
  logEvent clock randomHex sanitizeUrl depth "session_created"
    [("sessionId", DStr sessionId)] (setSession st sessionId).

(** The calls other modules make on the monitor. *)
Inductive mcall :=
| MLogEvent (eventType : string) (d : Details)
| MTrackRequest (url : detail) (method : string)
| MTrackBlockedRequest (url reason : detail)
| MTrackRetry (url attempt : detail)
| MSetSessionId (sessionId : string).

Definition call (depth : nat) (c : mcall) (st : State) : outcome string :=
  match c with
  | MLogEvent eventType d => logEvent clock randomHex sanitizeUrl depth eventType d st
  | MTrackRequest url method =>
      trackRequest clock randomHex sanitizeUrl depth url method st
  | MTrackBlockedRequest url reason => trackBlockedRequest depth url reason st
  | MTrackRetry url attempt => trackRetry depth url attempt st
  | MSetSessionId sessionId => setSessionId depth sessionId st
  end.

(** A sequence of calls, each with [depth] levels of call stack; a call
    that runs out of stack leaves the state it had reached. *)
Definition calls (depth : nat) (cs : list mcall) (st : State) : State :=
  fold_left (fun s c => stateOf (call depth c s)) cs st.

Record AuditTrail := mkAuditTrail {
  trail_session_id : option string;
  trail_start_time : Z;
  trail_end_time : Z;
  total_events : nat;
  events : list Event;
  incidents : list Event
}.

(** [getAuditTrail()] *)
Definition getAuditTrail (st : State) : AuditTrail * State :=
  ({| trail_session_id := session st;
      trail_start_time := startTime st;
      trail_end_time := clock (clockReads st);
      total_events := List.length (auditLog st);
      events := lastN 100 (auditLog st);
      incidents := securityIncidents st |},
   tick st).

Record AuditSummary := mkAuditSummary {
  summary_session_id : option string;
  elapsed : Z;
  total_requests : Z;
  blocked_requests : Z;
  retry_count : Z;
  security_incidents : nat;
  success_rate : Q
}.

(** [getAuditSummary()]; the processing time is kept as the milliseconds
    elapsed and the success rate as the exact percentage, both as they are
    before being printed with two decimals. *)
Definition getAuditSummary (st : State) : AuditSummary * State :=
  ({| summary_session_id := session st;
      elapsed := clock (clockReads st) - startTime st;
      total_requests := requestCount st;
      blocked_requests := blockedCount st;
      retry_count := retryCount st;
      security_incidents := List.length (securityIncidents st);
      success_rate :=
        if 0 <? requestCount st
        then (inject_Z (requestCount st - blockedCount st)
              / inject_Z (requestCount st) * 100)%Q
        else 0%Q |},
   tick st).

End Monitor.

(** Eleven blocked requests reported to a new monitor on a clock that
    stands still, each call with six levels of call stack. *)
Definition after11Blocked : State :=
  calls frozenClock fixedHex anyUrl 6
    (repeat (MTrackBlockedRequest (DStr "https://example.com/a") (DStr "captcha")) 11)
    (constructor frozenClock).

Definition isMTrackRequest (c : mcall) : bool :=
  match c with MTrackRequest _ _ => true | _ => false end.

Definition isMTrackBlockedRequest (c : mcall) : bool :=
  match c with MTrackBlockedRequest _ _ => true | _ => false end.

Definition isMTrackRetry (c : mcall) : bool :=
  match c with MTrackRetry _ _ => true | _ => false end.

End MonitorOps.

(** ** utils: completeness, estimates and the value score *)

Module Utils.
Import Car.

Local Open Scope string_scope.
Local Open Scope Z_scope.

(** [exists && value !== null && value !== undefined] at the end of a path:
    the key is there and holds a value. *)
Definition present {A} (x : field A) : bool :=
  match x with Val _ => true | _ => false end.

(** The five required paths, in the order of the source.  The last one,
    [specifications.engine], names a key that the specifications of the
    record do not have: the scraper files the engine under [performance]. *)
Definition requiredFields (carData : CarData) : list bool :=
  [ present (manufacturer carData);
    present (model carData);
    present (optChain (price carData) starting_msrp);
    present (optChain (performance carData) horsepower);
    present (optChain (specifications carData) (fun _ => @Missing string)) ].

(** [calculateCompleteness(carData)] *)
Definition calculateCompleteness (carData : CarData) : Z :=
  Z.min 100
    (fold_left (fun score found => if (found : bool) then score + 20 else score)
               (requiredFields carData) 0).

Definition priceRanges : list (string * Z) :=
  [ ("Toyota", 28000); ("Honda", 29000); ("BMW", 55000);
    ("Mercedes-Benz", 60000); ("Audi", 52000); ("Tesla", 55000);
    ("Ford", 32000); ("Chevrolet", 30000); ("Hyundai", 27000);
    ("Kia", 28000); ("Nissan", 29000); ("Volkswagen", 31000);
    ("Mazda", 29000); ("Subaru", 30000); ("Lexus", 45000);
    ("Acura", 38000); ("Infiniti", 42000); ("Genesis", 48000);
    ("Volvo", 47000); ("Porsche", 75000); ("Jaguar", 55000);
    ("Land Rover", 65000) ].

Fixpoint ownProperty (k : string) (o : list (string * Z)) : option Z :=
  match o with
  | [] => None
  | (k', v) :: rest => if String.eqb k k' then Some v else ownProperty k rest
  end.

(** [priceRanges[manufacturer] || 35000]; the model is not read.  [None] is
    a value that is not a number: a name that every object inherits finds a
    function or an object, which is truthy. *)
Definition estimatePrice (manufacturer model : string) : option Z :=
  match ownProperty manufacturer priceRanges with
  | Some p => if p =? 0 then Some 35000 else Some p
  | None =>
      if existsb (String.eqb manufacturer) SecurityMonitor.inheritedNames then None
      else Some 35000
  end.

(** [calculateValueScore(carData)] *)
Definition calculateValueScore (carData : CarData) : Z :=
  let score := 50 in
  let score :=
    match optChain (price carData) starting_msrp with
    | Val msrp =>
        if msrp =? 0 then score
        else if msrp <? 25000 then score + 20
        else if msrp <? 35000 then score + 10
        else if 60000 <? msrp then score - 10
        else score
    | _ => score
    end in
  let score :=
    match optChain (performance carData) horsepower with
    | Val hp =>
        if hp =? 0 then score
        else if 300 <? hp then score + 15
        else if 200 <? hp then score + 10
        else score
    | _ => score
    end in
  let score :=
    match features carData with
    | Val l =>
        if 0 <? Z.of_nat (List.length l)
        then score + Z.min (Z.of_nat (List.length l)) 10
        else score
    | _ => score
    end in
  let score :=
    match optChain (fuel_economy carData) combined with
    | Val mpg =>
        if mpg =? 0 then score
        else if 35 <? mpg then score + 15
        else if 25 <? mpg then score + 5
        else score
    | _ => score
    end in
  Z.min (Z.max score 0) 100.

(** A car with a low price, a strong engine, ten features and a low
    consumption; and one with nothing but a high price. *)
Definition bestValue : CarData :=
  {| vehicle_type := Missing; manufacturer := Missing; model := Missing;
     year := Missing;
     price := Val (mkPrice (Val 20000) Missing Missing Missing);
     performance := Val (mkPerformance (Val 301) Missing Missing Missing);
     features := Val (repeat "sunroof" 10);
     specifications := Missing; dimensions := Missing;
     fuel_economy := Val (mkFuelEconomy Missing Missing (Val 36));
     safety_ratings := Missing; value_score := Missing;
     data_quality := Missing; scraped_at := Missing |}.

Definition worstValue : CarData :=
  {| vehicle_type := Missing; manufacturer := Missing; model := Missing;
     year := Missing;
     price := Val (mkPrice (Val 60001) Missing Missing Missing);
     performance := Missing; features := Missing;
     specifications := Missing; dimensions := Missing;
     fuel_economy := Missing;
     safety_ratings := Missing; value_score := Missing;
     data_quality := Missing; scraped_at := Missing |}.

End Utils.

(** ** routes and main: the competitor analysis *)

Module Competitors.
Import Car JsString.

Local Open Scope string_scope.
Local Open Scope Z_scope.

(** [x || 0] on a number that may be missing. *)
Definition orZero (x : field Z) : Z :=
  match x with Val z => z | _ => 0 end.

(** [car.price?.starting_msrp || 0] *)
Definition priceOf (car : CarData) : Z :=
  orZero (optChain (price car) starting_msrp).

Record Groups := mkGroups {
  budget : list CarData;
  midrange : list CarData;
  premium : list CarData;
  luxury : list CarData
}.

(** One turn of the loop of [groupCarsByPrice]. *)
Definition pushCar (groups : Groups) (car : CarData) : Groups :=
  let price := priceOf car in
  if price <? 30000 then
    mkGroups (budget groups ++ [car]) (midrange groups) (premium groups) (luxury groups)
  else if price <? 50000 then
    mkGroups (budget groups) (midrange groups ++ [car]) (premium groups) (luxury groups)
  else if price <? 80000 then
    mkGroups (budget groups) (midrange groups) (premium groups ++ [car]) (luxury groups)
  else
    mkGroups (budget groups) (midrange groups) (premium groups) (luxury groups ++ [car]).

(** [groupCarsByPrice(cars)] *)
Definition groupCarsByPrice (cars : list CarData) : Groups :=
  fold_left pushCar cars (mkGroups [] [] [] []).

(** [a !== b] on two names that may be missing or [null]. *)
Definition strictlyDiffers (a b : field string) : bool :=
  if field_eq_dec string_dec a b then false else true.

(** [x?.length || 0] *)
Definition lengthOrZero (x : field (list string)) : Z :=
  match x with Val l => Z.of_nat (List.length l) | _ => 0 end.

(** [getAdvantages(competitor, car)] *)
Definition getAdvantages (competitor car : CarData) : list string :=
  let advantages := [] in
  let advantages :=
    if orZero (optChain (performance car) horsepower)
         <? orZero (optChain (performance competitor) horsepower)
    then (advantages ++ ["More horsepower"])%list else advantages in
  let advantages :=
    if lengthOrZero (features car) <? lengthOrZero (features competitor)
    then (advantages ++ ["More features"])%list else advantages in
  let advantages :=
    if orZero (optChain (fuel_economy car) combined)
         <? orZero (optChain (fuel_economy competitor) combined)
    then (advantages ++ ["Better fuel economy"])%list else advantages in
  advantages.

Record Competitor := mkCompetitor {
  competitor_manufacturer : field string;
  competitor_model : field string;
  price_difference : string;
  key_advantages : list string
}.

(** The test of the filter in [getCompetitorAnalysis]. *)
Definition rival (car : CarData) (carPrice : Z) (c : CarData) : bool :=
  strictlyDiffers (manufacturer c) (manufacturer car)
  && (Z.abs (priceOf c - carPrice) <? 15000).

(** The entry [getCompetitorAnalysis] makes of a competitor; the difference
    of two whole prices printed with no decimals is its decimal text. *)
Definition entry (car : CarData) (carPrice : Z) (competitor : CarData) : Competitor :=
  {| competitor_manufacturer := manufacturer competitor;
     competitor_model := model competitor;
     price_difference := showZ (priceOf competitor - carPrice);
     key_advantages := getAdvantages competitor car |}.

(** [getCompetitorAnalysis(car, priceGroups)] *)
Definition getCompetitorAnalysis (car : CarData) (priceGroups : Groups)
    : list Competitor :=
  let carPrice := priceOf car in
  let competitorsGroup :=
    if carPrice <? 30000 then budget priceGroups
    else if carPrice <? 50000 then midrange priceGroups
    else if carPrice <? 80000 then premium priceGroups
    else luxury priceGroups in
  map (entry car carPrice) (firstn 3 (filter (rival car carPrice) competitorsGroup)).

(** [addCompetitorAnalysis(cars)]: each car with the list written to its
    [competitors].  The groups hold the cars themselves, so a car met in a
    group may already carry its list; the analysis does not read it. *)
Definition addCompetitorAnalysis (cars : list CarData) : list (CarData * list Competitor) :=
  let priceGroups := groupCarsByPrice cars in
  map (fun car => (car, getCompetitorAnalysis car priceGroups)) cars.

(** The price band of the two if-chains, for stating results. *)
Definition sameBand (p q : Z) : Prop :=
  (p < 30000 /\ q < 30000) \/
  (30000 <= p < 50000 /\ 30000 <= q < 50000) \/
  (50000 <= p < 80000 /\ 50000 <= q < 80000) \/
  (80000 <= p /\ 80000 <= q).

(** A record that holds a maker, a model and a price only. *)
Definition priced (manu mo : string) (msrp : Z) : CarData :=
  {| vehicle_type := Missing; manufacturer := Val manu; model := Val mo;
     year := Missing;
     price := Val (mkPrice (Val msrp) Missing Missing Missing);
     performance := Missing; features := Missing;
     specifications := Missing; dimensions := Missing;
     fuel_economy := Missing;
     safety_ratings := Missing; value_score := Missing;
     data_quality := Missing; scraped_at := Missing |}.

End Competitors.

(** ** main: the metadata of a run *)

Module Metadata.
Import Car JsString SecurityMonitor MonitorOps Competitors.

Local Open Scope string_scope.
Local Open Scope Z_scope.

(** [blocked / total * 100 > bound].  The quotient is exact here; the
    floating-point one of the source decides the same way as long as the
    counts stay below 2^50. *)
Definition blockRateOver (bound : Z) (audit : AuditSummary) : bool :=
  negb (Qle_bool
          (inject_Z (blocked_requests audit) / inject_Z (total_requests audit) * 100)%Q
          (inject_Z bound)).

(** [calculateSecurityScore(audit)]; the score is a whole number, which
    [Math.round] leaves as it is. *)
Definition calculateSecurityScore (audit : AuditSummary) : Z :=
  let score := 100 in
  let score := score - Z.of_nat (security_incidents audit) * 5 in
  let score :=
    if 0 <? total_requests audit then
      let score := if blockRateOver 10 audit then score - 10 else score in
      let score := if blockRateOver 30 audit then score - 20 else score in
      score
    else score in
  Z.max 0 score.

(** A number, or one of the two infinities that [Math.min] and [Math.max]
    give on no argument. *)
Inductive number :=
| NegInfinity
| Finite (z : Z)
| Infinity.

Definition minNumber (a b : number) : number :=
  match a, b with
  | NegInfinity, _ | _, NegInfinity => NegInfinity
  | Infinity, x | x, Infinity => x
  | Finite x, Finite y => Finite (Z.min x y)
  end.

Definition maxNumber (a b : number) : number :=
  match a, b with
  | Infinity, _ | _, Infinity => Infinity
  | NegInfinity, x | x, NegInfinity => x
  | Finite x, Finite y => Finite (Z.max x y)
  end.

(** [Math.min(...l)] and [Math.max(...l)] *)
Definition mathMin (l : list number) : number := fold_left minNumber l Infinity.
Definition mathMax (l : list number) : number := fold_left maxNumber l NegInfinity.

Definition leNumber (a b : number) : Prop :=
  match a, b with
  | NegInfinity, _ => True
  | _, Infinity => True
  | Finite x, Finite y => x <= y
  | _, _ => False
  end.

(** [x || Infinity] on a number that may be missing. *)
Definition orInfinity (x : field Z) : number :=
  match x with
  | Val z => if z =? 0 then Infinity else Finite z
  | _ => Infinity
  end.

(** [getMinPrice(cars)] *)
Definition getMinPrice (cars : list CarData) : number :=
  let prices := map (fun car => orInfinity (optChain (price car) starting_msrp)) cars in
  match mathMin prices with
  | Infinity => Finite 0
  | m => m
  end.

(** [getMaxPrice(cars)] *)
Definition getMaxPrice (cars : list CarData) : number :=
  let prices := map (fun car => Finite (priceOf car)) cars in
  mathMax prices.

(** [Math.round(sum / count)] of whole numbers: the nearest whole number,
    the larger one on a tie.  The quotient is exact here; the floating-point
    one of the source rounds to the same number as long as the sum stays
    below 2^52. *)
Definition roundedMean (sum count : Z) : Z := (2 * sum + count) / (2 * count).

(** [l.reduce((a, b) => a + b)] on a list that is not empty. *)
Definition reduceSum (l : list Z) : Z :=
  match l with
  | [] => 0
  | x :: rest => fold_left Z.add rest x
  end.

Definition average (l : list Z) : Z :=
  if (0 <? List.length l)%nat then roundedMean (reduceSum l) (Z.of_nat (List.length l))
  else 0.

Record Distribution := mkDistribution {
  excellent : nat;
  good : nat;
  fair : nat;
  poor : nat
}.

Record PriceStatistics := mkPriceStatistics {
  price_average : Z;
  price_min : number;
  price_max : number;
  price_count : nat
}.

Record SecurityAudit := mkSecurityAudit {
  audit_score : Z;
  audit_incidents : nat;
  audit_requests : Z;
  audit_blocked : Z
}.

Record MetadataRecord := mkMetadata {
  total_records : nat;
  processing_time : string;
  metadata_success_rate : string;
  security_audit : SecurityAudit;
  average_score : Z;
  distribution : Distribution;
  price_statistics : PriceStatistics;
  metadata_timestamp : Z;
  version : string
}.

Section Generate.

Variable clock : nat -> Z.

(** [generateMetadata(cars, processingTime, successRate, securityMonitor)] *)
Definition generateMetadata (cars : list CarData) (processingTime successRate : string)
    (st : State) : MetadataRecord * State :=
  let (audit, st1) := getAuditSummary clock st in
  let qualityScores := map (fun car => orZero (data_quality car)) cars in
  let avgQuality := average qualityScores in
  let prices := filter (fun p => 0 <? p) (map priceOf cars) in
  let avgPrice := average prices in
  ({| total_records := List.length cars;
      processing_time := processingTime ++ "s";
      metadata_success_rate := successRate ++ "%";
      security_audit :=
        {| audit_score := calculateSecurityScore audit;
           audit_incidents := security_incidents audit;
           audit_requests := total_requests audit;
           audit_blocked := blocked_requests audit |};
      average_score := avgQuality;
      distribution :=
        {| excellent := List.length (filter (fun s => 90 <=? s) qualityScores);
           good := List.length (filter (fun s => (70 <=? s) && (s <? 90)) qualityScores);
           fair := List.length (filter (fun s => (50 <=? s) && (s <? 70)) qualityScores);
           poor := List.length (filter (fun s => s <? 50) qualityScores) |};
      price_statistics :=
        {| price_average := avgPrice;
           price_min := mathMin (map Finite prices);
           price_max := mathMax (map Finite prices);
           price_count := List.length prices |};
      metadata_timestamp := clock (clockReads st1);
      version := "4.0.0" |},
   tick st1).

End Generate.

(** [transformed.data_quality = calculateCompleteness(transformed)], the
    last step of [applySecurityTransformations]. *)
Definition rated (d : CarData) : CarData :=
  {| vehicle_type := vehicle_type d;
     manufacturer := manufacturer d;
     model := model d;
     year := year d;
     price := price d;
     performance := performance d;
     features := features d;
     specifications := specifications d;
     dimensions := dimensions d;
     fuel_economy := fuel_economy d;
     safety_ratings := safety_ratings d;
     value_score := value_score d;
     data_quality := Val (Utils.calculateCompleteness d);
     scraped_at := scraped_at d |}.

End Metadata.

(** ** routes: what the merges of a scrape add up to *)

Module RoutesOps.
Import Car Routes.

(** The features a source contributes: its array when it has one. *)
Definition featuresOf (source : CarData) : list string :=
  match features source with
  | Val l => l
  | _ => []
  end.

End RoutesOps.

(* ===================================================================== *)
(** * Part II: properties                                                 *)
(* ===================================================================== *)

Module RateLimiterProps.
Import RateLimiter.
Local Open Scope Q_scope.

(** *** Helpers on rational min and max *)

Lemma Qmin_cases (x y : Q) :
  (x <= y /\ Qmin x y == x) \/ (y <= x /\ Qmin x y == y).
Proof.
  destruct (Q.min_spec x y) as [[H E] | [H E]]; [left | right]; split; auto.
  apply Qlt_le_weak; exact H.
Qed.

Lemma Qmax_cases (x y : Q) :
  (y <= x /\ Qmax x y == x) \/ (x <= y /\ Qmax x y == y).
Proof.
  destruct (Q.max_spec x y) as [[H E] | [H E]]; [right | left]; split; auto.
  apply Qlt_le_weak; exact H.
Qed.

Ltac qminmax :=
  repeat match goal with
  | |- context [Qmin ?a ?b] =>
      let H := fresh "Hle" in let E := fresh "Heq" in
      destruct (Qmin_cases a b) as [[H E] | [H E]]; rewrite E in *
  | |- context [Qmax ?a ?b] =>
      let H := fresh "Hle" in let E := fresh "Heq" in
      destruct (Qmax_cases a b) as [[H E] | [H E]]; rewrite E in *
  end.

Lemma length_ge_false (n : nat) (q : Q) :
  length_ge n q = false <-> inject_Z (Z.of_nat n) < q.
Proof.
  unfold length_ge. split; intro H.
  - apply Qnot_le_lt. intro Hle. apply Qle_bool_iff in Hle. congruence.
  - destruct (Qle_bool q (inject_Z (Z.of_nat n))) eqn:E; [| reflexivity].
    apply Qle_bool_iff in E. exfalso. apply (Qlt_not_le _ _ H). exact E.
Qed.

Lemma filter_idem {A} (f : A -> bool) (l : list A) :
  filter f (filter f l) = filter f l.
Proof.
  induction l as [| a l IH]; simpl; [reflexivity |].
  destruct (f a) eqn:E; simpl; rewrite ?E, IH; reflexivity.
Qed.

Lemma filter_all {A} (f : A -> bool) (l : list A) :
  (forall a, In a l -> f a = true) -> filter f l = l.
Proof.
  induction l as [| a l IH]; simpl; intros H; [reflexivity |].
  rewrite (H a (or_introl eq_refl)). f_equal. apply IH. intros; apply H; auto.
Qed.

Lemma set_requestTimestamps_same st : set_requestTimestamps st (requestTimestamps st) = st.
Proof. destruct st; reflexivity. Qed.

(** *** canMakeRequest *)

(** The state a call leaves: untouched when the concurrency check fails,
    pruned otherwise. *)
Lemma canMakeRequest_state now st :
  snd (canMakeRequest now st) =
  if (concurrentRequests (config st) <=? activeRequests st)%Z then st
  else set_requestTimestamps st (filter (recent now) (requestTimestamps st)).
Proof.
  unfold canMakeRequest.
  destruct (concurrentRequests (config st) <=? activeRequests st)%Z; [reflexivity |].
  destruct (length_ge _ _); reflexivity.
Qed.

Lemma canMakeRequest_fields now st :
  config (snd (canMakeRequest now st)) = config st /\
  activeRequests (snd (canMakeRequest now st)) = activeRequests st.
Proof.
  rewrite canMakeRequest_state.
  destruct (concurrentRequests (config st) <=? activeRequests st)%Z; split; reflexivity.
Qed.

Lemma canMakeRequest_true now st :
  fst (canMakeRequest now st) = true ->
  (activeRequests st < concurrentRequests (config st))%Z.
Proof.
  unfold canMakeRequest.
  destruct (concurrentRequests (config st) <=? activeRequests st)%Z eqn:Hc;
    [discriminate |].
  intros _. apply Z.leb_gt in Hc. exact Hc.
Qed.

(** C5 (as amended). The answer of [canMakeRequest] is true exactly when the
    active-request count is strictly below the concurrency ceiling and the
    number of timestamps in the trailing 60 seconds is strictly below the
    requests-per-minute ceiling.  The call is not free of effects: it leaves
    the configuration and the counters alone, but once the concurrency check
    has passed it replaces [requestTimestamps] by its entries of the last 60
    seconds.  The entries inside the window are never touched, and a state
    without stale entries is returned unchanged. *)
Theorem canMakeRequest_spec (now : Z) (st : State) :
  (fst (canMakeRequest now st) = true <->
     (activeRequests st < concurrentRequests (config st))%Z /\
     inject_Z (Z.of_nat (List.length (filter (recent now) (requestTimestamps st))))
       < requestsPerMinute (config st)) /\
  config (snd (canMakeRequest now st)) = config st /\
  activeRequests (snd (canMakeRequest now st)) = activeRequests st /\
  consecutiveFailures (snd (canMakeRequest now st)) = consecutiveFailures st /\
  backoffMultiplier (snd (canMakeRequest now st)) = backoffMultiplier st /\
  requestTimestamps (snd (canMakeRequest now st)) =
    (if (concurrentRequests (config st) <=? activeRequests st)%Z
     then requestTimestamps st
     else filter (recent now) (requestTimestamps st)) /\
  filter (recent now) (requestTimestamps (snd (canMakeRequest now st))) =
    filter (recent now) (requestTimestamps st) /\
  ((forall t, In t (requestTimestamps st) -> recent now t = true) ->
   snd (canMakeRequest now st) = st).
Proof.
  unfold canMakeRequest.
  destruct (concurrentRequests (config st) <=? activeRequests st)%Z eqn:Hc; simpl.
  - apply Z.leb_le in Hc.
    repeat split; try reflexivity; try discriminate.
    intros [H _]. lia.
  - apply Z.leb_gt in Hc.
    destruct (length_ge _ _) eqn:Hl; simpl.
    + repeat split; try reflexivity; try discriminate.
      * intros [_ H]. apply length_ge_false in H. congruence.
      * apply filter_idem.
      * intros Hall. rewrite (filter_all _ _ Hall). apply set_requestTimestamps_same.
    + apply length_ge_false in Hl.
      repeat split; try reflexivity; auto.
      * apply filter_idem.
      * intros Hall. rewrite (filter_all _ _ Hall). apply set_requestTimestamps_same.
Qed.

(** Witness of [canMakeRequest_spec]: a limiter whose only timestamp is
    fresh is handed back as it was. *)
Lemma canMakeRequest_spec_witness :
  snd (canMakeRequest 1000 (addRequestTimestamp 500 (constructor noArg)))
  = addRequestTimestamp 500 (constructor noArg).
Proof.
  apply (canMakeRequest_spec 1000 (addRequestTimestamp 500 (constructor noArg))).
  simpl. intros t [<- | []]. reflexivity.
Defined.

(** C5 (counterexample). [canMakeRequest] answers true on [staleState] and
    drops the stale timestamp: the state after the call differs from the
    state before. *)
Lemma canMakeRequest_prunes :
  fst (canMakeRequest 100000 staleState) = true /\
  requestTimestamps staleState = [0%Z] /\
  requestTimestamps (snd (canMakeRequest 100000 staleState)) = [] /\
  snd (canMakeRequest 100000 staleState) <> staleState.
Proof.
  repeat split; try reflexivity.
  intro H. apply (f_equal requestTimestamps) in H. discriminate H.
Qed.

(** *** adaptiveLimit *)

(** C4 (counterexample). On [blockedState] a captcha signal raises
    [requestsPerMinute] from 1 to 5, and a low success rate lowers
    [baseDelay] from 10000 to 5000: the adaptation is not a ratchet. *)
Lemma adaptiveLimit_not_ratchet :
  requestsPerMinute (config blockedState) == 1 /\
  baseDelay (config blockedState) == 10000 /\
  requestsPerMinute (config (adaptiveLimit (mkConditions true false None) blockedState)) == 5 /\
  baseDelay (config (adaptiveLimit (mkConditions false false (Some (1 # 5))) blockedState)) == 5000 /\
  ~ (forall conditions st,
       requestsPerMinute (config (adaptiveLimit conditions st))
         <= requestsPerMinute (config st) /\
       baseDelay (config st) <= baseDelay (config (adaptiveLimit conditions st))).
Proof.
  repeat split; try (vm_compute; reflexivity).
  intro H.
  destruct (H (mkConditions true false None) blockedState) as [Hr _].
  vm_compute in Hr. apply Hr. reflexivity.
Qed.

Lemma onCaptcha_ratchet c :
  0 <= baseDelay c -> baseDelay c <= 10000 -> 5 <= requestsPerMinute c ->
  requestsPerMinute (onCaptcha c) <= requestsPerMinute c /\
  5 <= requestsPerMinute (onCaptcha c) /\
  baseDelay c <= baseDelay (onCaptcha c) /\
  baseDelay (onCaptcha c) <= 10000.
Proof.
  intros H0 H1 H2. unfold onCaptcha; simpl.
  unfold Qdiv. change (/ 2) with (1 # 2).
  qminmax; repeat split; lra.
Qed.

Lemma onIpBlocked_ratchet c :
  baseDelay c <= 10000 -> 1 <= requestsPerMinute c ->
  requestsPerMinute (onIpBlocked c) <= requestsPerMinute c /\
  baseDelay c <= baseDelay (onIpBlocked c) /\
  baseDelay (onIpBlocked c) <= 10000.
Proof. intros H1 H2. unfold onIpBlocked; simpl. repeat split; lra. Qed.

Lemma onLowSuccess_ratchet c b :
  0 <= b -> b <= 5000 -> b <= baseDelay c ->
  requestsPerMinute (onLowSuccess c) = requestsPerMinute c /\
  b <= baseDelay (onLowSuccess c).
Proof.
  intros H0 H1 H2. unfold onLowSuccess; simpl. split; [reflexivity |].
  qminmax; lra.
Qed.

(** C4 (as amended). Started from a configuration inside the caps the code
    hard-wires (base delay between 0 and 5000, at least 5 requests per
    minute), [adaptiveLimit] is a ratchet for every combination of signals:
    [requestsPerMinute] does not grow and [baseDelay] does not shrink. *)
Theorem adaptiveLimit_ratchet_within_caps (conditions : Conditions) (st : State) :
  0 <= baseDelay (config st) ->
  baseDelay (config st) <= 5000 ->
  5 <= requestsPerMinute (config st) ->
  requestsPerMinute (config (adaptiveLimit conditions st))
    <= requestsPerMinute (config st) /\
  baseDelay (config st) <= baseDelay (config (adaptiveLimit conditions st)).
Proof.
  intros H0 H1 H2. unfold adaptiveLimit. simpl.
  set (c0 := config st) in *.
  assert (Hc1 : requestsPerMinute (if captchaDetected conditions then onCaptcha c0 else c0)
                  <= requestsPerMinute c0 /\
                1 <= requestsPerMinute (if captchaDetected conditions then onCaptcha c0 else c0) /\
                baseDelay c0 <= baseDelay (if captchaDetected conditions then onCaptcha c0 else c0) /\
                baseDelay (if captchaDetected conditions then onCaptcha c0 else c0) <= 10000).
  { destruct (captchaDetected conditions).
    - assert (H3 : baseDelay c0 <= 10000) by lra.
      destruct (onCaptcha_ratchet c0 H0 H3 H2) as (A & B & C & D).
      repeat split; lra.
    - repeat split; lra. }
  set (c1 := if captchaDetected conditions then onCaptcha c0 else c0) in *.
  destruct Hc1 as (A1 & B1 & C1 & D1).
  assert (Hc2 : requestsPerMinute (if ipBlocked conditions then onIpBlocked c1 else c1)
                  <= requestsPerMinute c0 /\
                baseDelay c0 <= baseDelay (if ipBlocked conditions then onIpBlocked c1 else c1)).
  { destruct (ipBlocked conditions).
    - destruct (onIpBlocked_ratchet c1 D1 B1) as (A & B & C). split; lra.
    - split; lra. }
  set (c2 := if ipBlocked conditions then onIpBlocked c1 else c1) in *.
  destruct Hc2 as (A2 & B2).
  destruct (lowSuccess (successRate conditions)).
  - destruct (onLowSuccess_ratchet c2 _ H0 H1 B2) as (A & B). rewrite A. split; lra.
  - split; lra.
Qed.

(** Witness of [adaptiveLimit_ratchet_within_caps]: the default
    configuration under all three signals at once. *)
Lemma adaptiveLimit_ratchet_within_caps_witness :
  requestsPerMinute
    (config (adaptiveLimit (mkConditions true true (Some (1 # 5))) (constructor noArg)))
    <= requestsPerMinute (config (constructor noArg)) /\
  baseDelay (config (constructor noArg))
    <= baseDelay
         (config (adaptiveLimit (mkConditions true true (Some (1 # 5))) (constructor noArg))).
Proof.
  apply (adaptiveLimit_ratchet_within_caps
           (mkConditions true true (Some (1 # 5))) (constructor noArg));
    unfold Qle; simpl; lia.
Defined.

(** *** calculateDelay *)

(** C7 (counterexample). With no failure recorded, [calculateDelay] on
    [slowState] returns the maximum delay 10000, not the base delay 20000. *)
Lemma calculateDelay_not_base :
  consecutiveFailures slowState = 0%nat /\
  baseDelay (config slowState) == 20000 /\
  fst (calculateDelay slowState) == 10000 /\
  ~ fst (calculateDelay slowState) == baseDelay (config slowState).
Proof.
  repeat split; try (vm_compute; reflexivity).
  vm_compute. discriminate.
Qed.

Lemma backoffFactor_pos n : 0 < backoffFactor n.
Proof.
  unfold backoffFactor. change 0 with (inject_Z 0). rewrite <- Zlt_Qlt.
  apply Z.pow_pos_nonneg; lia.
Qed.

Lemma backoffFactor_ge1 n : 1 <= backoffFactor n.
Proof.
  unfold backoffFactor. change 1 with (inject_Z 1). rewrite <- Zle_Qle.
  assert (0 < 2 ^ Z.of_nat (Nat.min n 5))%Z by (apply Z.pow_pos_nonneg; lia). lia.
Qed.

Lemma backoffFactor_mono n m : (n <= m)%nat -> backoffFactor n <= backoffFactor m.
Proof.
  intro H. unfold backoffFactor. rewrite <- Zle_Qle.
  apply Z.pow_le_mono_r; lia.
Qed.

Lemma afterFailures_config n st : config (afterFailures n st) = config st.
Proof.
  unfold afterFailures. induction n as [| n IH]; simpl; [reflexivity | exact IH].
Qed.

Lemma afterFailures_count n st : consecutiveFailures (afterFailures n st) = n.
Proof.
  unfold afterFailures. induction n as [| n IH]; simpl; [reflexivity |].
  f_equal. exact IH.
Qed.

(** The delay as one formula: the factor is 1 without failures. *)
Lemma calculateDelay_closed st :
  fst (calculateDelay st) ==
  Qmin (baseDelay (config st) *
        (if (0 <? consecutiveFailures st)%nat
         then backoffFactor (consecutiveFailures st) else 1))
       (maxDelay (config st)).
Proof.
  unfold calculateDelay.
  destruct (0 <? consecutiveFailures st)%nat; simpl; [reflexivity |].
  rewrite Qmult_1_r. reflexivity.
Qed.

Lemma Qmin_mono_l a b c : a <= b -> Qmin a c <= Qmin b c.
Proof. intro H. apply Q.min_le_compat_r. exact H. Qed.

(** C7 (as amended). [calculateDelay] returns min(baseDelay, maxDelay) when
    there is no consecutive failure, which is the base delay whenever the
    base delay does not exceed the maximum, and
    min(baseDelay * 2^min(failures, 5), maxDelay) otherwise.  The result
    never exceeds the maximum delay and, for a non-negative base delay, does
    not decrease as the number of consecutive failures grows. *)
Theorem calculateDelay_spec (st : State) :
  (consecutiveFailures st = 0%nat ->
     fst (calculateDelay st) == Qmin (baseDelay (config st)) (maxDelay (config st))) /\
  (consecutiveFailures st = 0%nat -> baseDelay (config st) <= maxDelay (config st) ->
     fst (calculateDelay st) == baseDelay (config st)) /\
  ((0 < consecutiveFailures st)%nat ->
     fst (calculateDelay st) ==
     Qmin (baseDelay (config st) *
           inject_Z (2 ^ Z.of_nat (Nat.min (consecutiveFailures st) 5)))
          (maxDelay (config st))) /\
  fst (calculateDelay st) <= maxDelay (config st) /\
  (0 <= baseDelay (config st) ->
   forall n m : nat, (n <= m)%nat ->
     fst (calculateDelay (afterFailures n st))
       <= fst (calculateDelay (afterFailures m st))).
Proof.
  repeat split.
  - intro H0. unfold calculateDelay. rewrite H0. reflexivity.
  - intros H0 Hle. unfold calculateDelay. rewrite H0. simpl.
    apply Q.min_l. exact Hle.
  - intro Hpos. unfold calculateDelay.
    apply Nat.ltb_lt in Hpos. rewrite Hpos. reflexivity.
  - rewrite calculateDelay_closed. apply Q.le_min_r.
  - intros Hb n m Hnm.
    rewrite !calculateDelay_closed, !afterFailures_config, !afterFailures_count.
    apply Qmin_mono_l.
    rewrite (Qmult_comm (baseDelay (config st)) (if (0 <? n)%nat then _ else _)).
    rewrite (Qmult_comm (baseDelay (config st)) (if (0 <? m)%nat then _ else _)).
    apply Qmult_le_compat_r; [| exact Hb].
    destruct n as [| n]; destruct m as [| m]; simpl (0 <? _)%nat; cbv iota.
    + apply Qle_refl.
    + apply backoffFactor_ge1.
    + lia.
    + apply backoffFactor_mono. exact Hnm.
Qed.

(** Witness of [calculateDelay_spec]: one failure against three on the
    default configuration. *)
Lemma calculateDelay_spec_witness :
  fst (calculateDelay (afterFailures 1 (constructor noArg)))
    <= fst (calculateDelay (afterFailures 3 (constructor noArg))).
Proof.
  apply (calculateDelay_spec (constructor noArg)).
  - unfold Qle; simpl; lia.
  - lia.
Defined.

(** *** activeRequests *)

Lemma step_nonneg st c : (0 <= activeRequests st)%Z -> (0 <= activeRequests (step st c))%Z.
Proof.
  intro H. destruct c as [now | now | success]; simpl.
  - destruct (canMakeRequest_fields now st) as (_ & E). rewrite E. exact H.
  - lia.
  - unfold release. destruct success; simpl; lia.
Qed.

Lemma run_nonneg calls : forall st,
  (0 <= activeRequests st)%Z -> (0 <= activeRequests (run st calls))%Z.
Proof.
  unfold run. induction calls as [| c calls IH]; simpl; intros st H; [exact H |].
  apply IH. apply step_nonneg. exact H.
Qed.

Lemma gatedAdmit_config now st : config (gatedAdmit now st) = config st.
Proof.
  unfold gatedAdmit.
  destruct (canMakeRequest_fields now st) as (E & _).
  destruct (canMakeRequest now st) as [ok st']; simpl in *.
  destruct ok; simpl; exact E.
Qed.

Lemma gatedAdmit_active now st :
  activeRequests (gatedAdmit now st) =
  if fst (canMakeRequest now st) then (activeRequests st + 1)%Z else activeRequests st.
Proof.
  unfold gatedAdmit.
  destruct (canMakeRequest_fields now st) as (_ & E).
  destruct (canMakeRequest now st) as [ok st']; simpl in *.
  destruct ok; simpl; rewrite E; reflexivity.
Qed.

Lemma gatedStep_inBounds st c : inBounds st -> inBounds (gatedStep st c).
Proof.
  unfold inBounds. intro H. destruct c as [now | now | success]; simpl.
  - destruct (canMakeRequest_fields now st) as (Ec & Ea). rewrite Ec, Ea. exact H.
  - rewrite gatedAdmit_config, gatedAdmit_active.
    destruct (fst (canMakeRequest now st)) eqn:E; [| exact H].
    apply canMakeRequest_true in E. lia.
  - unfold release. destruct success; simpl; lia.
Qed.

Lemma gatedRun_inBounds calls : forall st, inBounds st -> inBounds (gatedRun st calls).
Proof.
  unfold gatedRun. induction calls as [| c calls IH]; simpl; intros st H; [exact H |].
  apply IH. apply gatedStep_inBounds. exact H.
Qed.

Lemma gatedRun_config calls : forall st, config (gatedRun st calls) = config st.
Proof.
  unfold gatedRun. induction calls as [| x calls IH]; simpl; intros st; [reflexivity |].
  rewrite IH. destruct x as [now | now | success]; simpl.
  - apply (canMakeRequest_fields now st).
  - apply gatedAdmit_config.
  - unfold release. destruct success; reflexivity.
Qed.

(** C8. Whatever sequence of [canMakeRequest], [addRequestTimestamp] and
    release calls is made on a new limiter, [activeRequests] is never
    negative.  Whenever [canMakeRequest] answers true, [activeRequests] is
    strictly below the concurrency ceiling, so the admission that follows
    leaves it at or below the ceiling; and along any sequence in which
    admissions are gated by [canMakeRequest] the counter stays between 0 and
    the ceiling. *)
Theorem activeRequests_bounds (c : ConfigArg) (calls : list call) :
  (0 <= activeRequests (run (constructor c) calls))%Z /\
  (forall now st, fst (canMakeRequest now st) = true ->
     (activeRequests st < concurrentRequests (config st))%Z /\
     (activeRequests (addRequestTimestamp now (snd (canMakeRequest now st)))
        <= concurrentRequests (config st))%Z) /\
  (0 <= activeRequests (gatedRun (constructor c) calls)
     <= Z.max 0 (concurrentRequests (config (constructor c))))%Z.
Proof.
  split; [| split].
  - apply run_nonneg. simpl. lia.
  - intros now st H. pose proof (canMakeRequest_true now st H) as Hlt.
    split; [exact Hlt |].
    destruct (canMakeRequest_fields now st) as (_ & E).
    simpl. rewrite E. lia.
  - pose proof (gatedRun_inBounds calls (constructor c)) as H.
    unfold inBounds in H. rewrite gatedRun_config in H.
    apply H. simpl. lia.
Qed.

(** Witness of [activeRequests_bounds]: a new limiter admits a request, and
    the admission leaves the counter at or below the ceiling. *)
Lemma activeRequests_bounds_witness :
  (activeRequests (constructor noArg)
     < concurrentRequests (config (constructor noArg)))%Z /\
  (activeRequests (addRequestTimestamp 0 (snd (canMakeRequest 0 (constructor noArg))))
     <= concurrentRequests (config (constructor noArg)))%Z.
Proof.
  apply (proj1 (proj2 (activeRequests_bounds noArg [])) 0%Z (constructor noArg)).
  reflexivity.
Defined.

End RateLimiterProps.

Module DataValidatorProps.
Import Car JsString Regex DataValidator.
Local Open Scope string_scope.
Local Open Scope Z_scope.

(** *** The string operations on examples *)

Example cleanString_script :
  cleanString "<script>alert(1)</script>hello" = "hello".
Proof. reflexivity. Qed.

Example cleanString_nested_tags :
  cleanString "<SCRIPT src=x>a<b>c</b></script >x</ScRiPt>hello<script>"
  = "hello<script>".
Proof. reflexivity. Qed.

Example cleanString_word_boundary :
  cleanString "<scripts>alert(1)</script>" = "<scripts>alert(1)</script>".
Proof. reflexivity. Qed.

Example cleanString_uris_and_handlers :
  cleanString "a javascript:alert onclick  = foo data:x vbscript:y Toyota"
  = "a alert  foo x y Toyota".
Proof. reflexivity. Qed.

Example cleanString_handler_needs_name : cleanString "on=  one=" = "on=  ".
Proof. reflexivity. Qed.

(** One pass does not reach a fixed point. *)
Example cleanString_once : cleanString "jajavascript:vascript:" = "javascript:".
Proof. reflexivity. Qed.

Example sanitizeString_example : sanitizeString "  <b>'Toyota'  " = "bToyota".
Proof. reflexivity. Qed.

Example showZ_example : showZ 2026 = "2026".
Proof. reflexivity. Qed.

(** *** The cache *)

Lemma sameVerdict_refl r : sameVerdict r r.
Proof. unfold sameVerdict. auto. Qed.

Lemma resanitize_0 d : resanitize 0 0 d = d.
Proof. destruct d; reflexivity. Qed.

Lemma cacheSound_nil currentYear : cacheSound currentYear [].
Proof. intros key cached H. discriminate H. Qed.

(** With a sound cache, a call answers with the verdict computed from the
    content of its argument. *)
Lemma validateCarData_verdict currentYear cache carData :
  cacheSound currentYear cache ->
  sameVerdict (resultOf (validateCarData currentYear cache carData))
              (computeResult currentYear carData) /\
  exists n m,
    data (resultOf (validateCarData currentYear cache carData)) =
    resanitize n m (data (computeResult currentYear carData)).
Proof.
  intro Hs. unfold validateCarData, resultOf.
  destruct (cacheGet carData cache) as [cached |] eqn:E; simpl.
  - apply Hs. exact E.
  - split; [apply sameVerdict_refl |]. exists 0%nat, 0%nat.
    symmetry. apply resanitize_0.
Qed.

(** Soundness of the cache is kept by a call. *)
Lemma validateCarData_sound currentYear cache carData :
  cacheSound currentYear cache ->
  cacheSound currentYear (snd (validateCarData currentYear cache carData)).
Proof.
  intro Hs. unfold validateCarData.
  destruct (cacheGet carData cache) as [cached |] eqn:E; simpl; [exact Hs |].
  intros key r. simpl.
  destruct (CarData_eq_dec key carData) as [-> | Hne].
  - intro H. injection H as <-. split; [apply sameVerdict_refl |].
    exists 0%nat, 0%nat. symmetry. apply resanitize_0.
  - apply Hs.
Qed.

(** *** The Toyota record *)

Lemma toyota_errors currentYear :
  2022 <= currentYear -> computeErrors currentYear toyota = [].
Proof.
  intro H. unfold computeErrors.
  change (blank (manufacturer toyota)) with false.
  change (blank (model toyota)) with false.
  change (year toyota) with (@Val Z 2024).
  change (optChain (price toyota) starting_msrp) with (@Val Z 28000).
  assert (E : outside 1990 (currentYear + 2) 2024 = false).
  { unfold outside. apply orb_false_iff. split; [reflexivity | apply Z.ltb_ge; lia]. }
  cbv beta iota. rewrite E. reflexivity.
Qed.

Lemma toyota_score currentYear : score (computeResult currentYear toyota) = 60.
Proof. reflexivity. Qed.

(** C2 (counterexample). On a new validator the Toyota record is valid and
    scores 60, the sum of the four weights, which is below 65. *)
Lemma toyota_score_below_65 :
  valid (resultOf (validateCarData 2024 [] toyota)) = true /\
  score (resultOf (validateCarData 2024 [] toyota)) = 60 /\
  ~ (65 <= score (resultOf (validateCarData 2024 [] toyota))).
Proof.
  repeat split. vm_compute. intro H. apply H. reflexivity.
Qed.

(** C2 (as amended). In 2022 or any later year,
    [{manufacturer: Toyota, model: Camry, year: 2024, price: {starting_msrp: 28000}}]
    is valid, without errors or warnings, and its score is exactly 60: the
    sum of the weights of manufacturer (15), model (15), year (10) and
    price (20). *)
Theorem toyota_valid_score_60 (currentYear : Z) (cache : Cache) :
  2022 <= currentYear ->
  cacheSound currentYear cache ->
  valid (resultOf (validateCarData currentYear cache toyota)) = true /\
  errors (resultOf (validateCarData currentYear cache toyota)) = [] /\
  warnings (resultOf (validateCarData currentYear cache toyota)) = [] /\
  score (resultOf (validateCarData currentYear cache toyota)) = 15 + 15 + 10 + 20.
Proof.
  intros Hy Hs.
  destruct (validateCarData_verdict currentYear cache toyota Hs) as [(Hv & He & Hw & Hsc) _].
  rewrite Hv, He, Hw, Hsc.
  unfold computeResult; simpl valid; simpl errors.
  rewrite (toyota_errors currentYear Hy). repeat split.
Qed.

(** Witness of [toyota_valid_score_60]: the year 2024 and a new validator. *)
Lemma toyota_valid_score_60_witness :
  valid (resultOf (validateCarData 2024 [] toyota)) = true /\
  errors (resultOf (validateCarData 2024 [] toyota)) = [] /\
  warnings (resultOf (validateCarData 2024 [] toyota)) = [] /\
  score (resultOf (validateCarData 2024 [] toyota)) = 15 + 15 + 10 + 20.
Proof.
  apply (toyota_valid_score_60 2024 []); [lia | apply cacheSound_nil].
Defined.

(** *** Range checks *)

(** The errors do not look at [performance] or [fuel_economy]. *)
Lemma computeErrors_ignores currentYear d perf fe :
  computeErrors currentYear (setFuelEconomy (setPerformance d perf) fe) =
  computeErrors currentYear d.
Proof. reflexivity. Qed.

(** C3 (counterexample). The Toyota record with 5000 horsepower is valid:
    the out-of-range horsepower is reported as a warning and [errors] stays
    empty. *)
Lemma horsepower_5000_is_no_error :
  optChain (performance toyota5000) horsepower = Val 5000 /\
  valid (resultOf (validateCarData 2024 [] toyota5000)) = true /\
  errors (resultOf (validateCarData 2024 [] toyota5000)) = [] /\
  warnings (resultOf (validateCarData 2024 [] toyota5000)) =
    ["Horsepower value seems unrealistic"].
Proof. repeat split. Qed.

(** C3 (as amended). For every record: a non-zero year outside
    1990..currentYear+2 and a starting MSRP outside 0..1,000,000 each put
    their message in [errors], which makes the record invalid; a horsepower
    outside 0..2000 and a combined fuel economy outside 0..100 put their
    message in [warnings] only: the errors are those of the same record
    without [performance] and [fuel_economy]. *)
Theorem range_checks (currentYear : Z) (cache : Cache) (r : CarData) :
  cacheSound currentYear cache ->
  (forall y, year r = Val y -> y <> 0 -> y < 1990 \/ currentYear + 2 < y ->
     In ("Year must be between 1990 and " ++ showZ (currentYear + 2))
        (errors (resultOf (validateCarData currentYear cache r))) /\
     valid (resultOf (validateCarData currentYear cache r)) = false) /\
  (forall p, optChain (price r) starting_msrp = Val p -> p < 0 \/ 1000000 < p ->
     In "Price must be between 0 and 1,000,000"
        (errors (resultOf (validateCarData currentYear cache r))) /\
     valid (resultOf (validateCarData currentYear cache r)) = false) /\
  (forall hp, optChain (performance r) horsepower = Val hp -> hp < 0 \/ 2000 < hp ->
     In "Horsepower value seems unrealistic"
        (warnings (resultOf (validateCarData currentYear cache r)))) /\
  (forall mpg, optChain (fuel_economy r) combined = Val mpg -> mpg < 0 \/ 100 < mpg ->
     In "Fuel economy value seems unrealistic"
        (warnings (resultOf (validateCarData currentYear cache r)))) /\
  errors (resultOf (validateCarData currentYear cache r)) =
    computeErrors currentYear (setFuelEconomy (setPerformance r Missing) Missing).
Proof.
  intro Hs.
  destruct (validateCarData_verdict currentYear cache r Hs) as [(Hv & He & Hw & _) _].
  simpl in He, Hw.
  assert (Hbad : forall x, In x (computeErrors currentYear r) ->
            valid (resultOf (validateCarData currentYear cache r)) = false).
  { intros x Hin. rewrite Hv. simpl.
    destruct (computeErrors currentYear r); [destruct Hin | reflexivity]. }
  assert (Hout : forall lo hi z, z < lo \/ hi < z -> outside lo hi z = true).
  { intros lo hi z [H | H]; unfold outside; apply orb_true_iff;
      [left | right]; apply Z.ltb_lt; exact H. }
  assert (Hyear : forall y, year r = Val y -> y <> 0 ->
            y < 1990 \/ currentYear + 2 < y ->
            In ("Year must be between 1990 and " ++ showZ (currentYear + 2))
               (computeErrors currentYear r)).
  { intros y Hy Hnz Hr. unfold computeErrors. rewrite Hy.
    apply Z.eqb_neq in Hnz. rewrite Hnz, (Hout _ _ _ Hr). cbn [negb andb].
    apply in_or_app; right. apply in_or_app; right.
    apply in_or_app; left. left. reflexivity. }
  assert (Hprice : forall p, optChain (price r) starting_msrp = Val p ->
            p < 0 \/ 1000000 < p ->
            In "Price must be between 0 and 1,000,000" (computeErrors currentYear r)).
  { intros p Hp Hr. unfold computeErrors. rewrite Hp.
    assert (Hnz : p <> 0) by lia.
    apply Z.eqb_neq in Hnz. rewrite Hnz, (Hout _ _ _ Hr). cbn [negb andb].
    apply in_or_app; right. apply in_or_app; right.
    apply in_or_app; right. left. reflexivity. }
  split; [| split; [| split; [| split]]].
  - intros y Hy Hnz Hr. split.
    + rewrite He. apply (Hyear y Hy Hnz Hr).
    + apply (Hbad _ (Hyear y Hy Hnz Hr)).
  - intros p Hp Hr. split.
    + rewrite He. apply (Hprice p Hp Hr).
    + apply (Hbad _ (Hprice p Hp Hr)).
  - intros hp Hp Hr. rewrite Hw. unfold computeWarnings. rewrite Hp.
    assert (Hnz : hp <> 0) by lia.
    apply Z.eqb_neq in Hnz. rewrite Hnz, (Hout _ _ _ Hr). cbn [negb andb].
    apply in_or_app; right. apply in_or_app; right.
    apply in_or_app; left. left. reflexivity.
  - intros mpg Hp Hr. rewrite Hw. unfold computeWarnings. rewrite Hp.
    assert (Hnz : mpg <> 0) by lia.
    apply Z.eqb_neq in Hnz. rewrite Hnz, (Hout _ _ _ Hr). cbn [negb andb].
    apply in_or_app; right. apply in_or_app; right.
    apply in_or_app; right. left. reflexivity.
  - rewrite He. symmetry. apply computeErrors_ignores.
Qed.

(** Witness of [range_checks]: a record of the year 1899, validated in
    2024 on a new validator. *)
Lemma range_checks_witness :
  In ("Year must be between 1990 and " ++ showZ (2024 + 2))
     (errors (resultOf (validateCarData 2024 [] car1899))) /\
  valid (resultOf (validateCarData 2024 [] car1899)) = false.
Proof.
  apply (proj1 (range_checks 2024 [] car1899 (cacheSound_nil 2024)) 1899);
    [reflexivity | lia | lia].
Defined.

(** *** Validating the sanitized copy again *)

Lemma numbers_removeMaliciousContent d : numbers (removeMaliciousContent d) = numbers d.
Proof.
  unfold numbers, removeMaliciousContent; simpl.
  destruct (price d), (performance d); reflexivity.
Qed.

Lemma numbers_computed currentYear n m d :
  numbers (resanitize n m (data (computeResult currentYear d))) = numbers d.
Proof.
  unfold computeResult; simpl data.
  change (numbers (resanitize n m (removeMaliciousContent (sanitizeInPlace d))))
    with (numbers (removeMaliciousContent (sanitizeInPlace d))).
  rewrite numbers_removeMaliciousContent. reflexivity.
Qed.

Lemma computeWarnings_numbers d d' :
  numbers d = numbers d' -> computeWarnings d = computeWarnings d'.
Proof.
  unfold numbers. intro H. injection H as Hy Hp Hh Hc.
  unfold computeWarnings. rewrite Hy, Hp, Hh, Hc. reflexivity.
Qed.

Lemma hasKey_mapField {A B} (f : A -> B) (x : field A) : hasKey (mapField f x) = hasKey x.
Proof. destruct x; reflexivity. Qed.

Lemma truthyObject_mapField {A B} (f : A -> B) (x : field A) :
  truthyObject (mapField f x) = truthyObject x.
Proof. destruct x; reflexivity. Qed.

Lemma keysPrice_clean p : keysPrice (cleanPrice p) = keysPrice p.
Proof. unfold keysPrice; simpl. rewrite hasKey_mapField. reflexivity. Qed.

Lemma keysPerformance_clean p : keysPerformance (cleanPerformance p) = keysPerformance p.
Proof. unfold keysPerformance; simpl. rewrite hasKey_mapField. reflexivity. Qed.

Lemma keysSpecifications_clean s : keysSpecifications (cleanSpecifications s) = keysSpecifications s.
Proof. unfold keysSpecifications; simpl. rewrite !hasKey_mapField. reflexivity. Qed.

(** Sanitizing and cleaning a record changes, of what the score reads, only
    the truthiness of the two names. *)
Lemma shape_sanitized d :
  shape (removeMaliciousContent (sanitizeInPlace d)) =
  truthyString (mapField cleanString (sanitizeField (manufacturer d)))
  :: truthyString (mapField cleanString (sanitizeField (model d)))
  :: skipn 2 (shape d).
Proof.
  unfold shape; simpl.
  rewrite !truthyObject_mapField.
  destruct (price d) as [| | p], (performance d) as [| | q],
           (specifications d) as [| | s]; simpl;
    rewrite ?keysPrice_clean, ?keysPerformance_clean, ?keysSpecifications_clean;
    reflexivity.
Qed.

Lemma validateTwice_eq currentYear cache r :
  validateTwice currentYear cache r =
  (resultOf (validateCarData currentYear cache r),
   resultOf (validateCarData currentYear
               (snd (validateCarData currentYear cache r))
               (data (resultOf (validateCarData currentYear cache r))))).
Proof.
  unfold validateTwice, resultOf.
  destruct (validateCarData currentYear cache r) as [[v r'] cache1]; simpl.
  destruct (validateCarData currentYear cache1 (data v)) as [[v2 r2] cache2].
  reflexivity.
Qed.

End DataValidatorProps.

Module SecurityMonitorProps.
Import SecurityMonitor.
Local Open Scope string_scope.
Local Open Scope Z_scope.

Section Monitor.

Variable clock : nat -> Z.
Variable randomHex : nat -> string.
Variable sanitizeUrl : detail -> string.

Lemma logEvent_S depth eventType d st :
  logEvent clock randomHex sanitizeUrl (S depth) eventType d st =
  returning (id (newEvent clock randomHex sanitizeUrl eventType d st))
    (checkThresholds clock randomHex sanitizeUrl depth
       (pushEvent (newEvent clock randomHex sanitizeUrl eventType d st) (tick (draw st)))).
Proof. reflexivity. Qed.

Lemma checkThresholds_S depth st :
  checkThresholds clock randomHex sanitizeUrl (S depth) st =
  let oneMinuteAgo := clock (clockReads st) - 60000 in
  let st0 := tick st in
  let recentRequests := filter (recentRequest oneMinuteAgo) (auditLog st0) in
  match
    (if maxRequestsPerMinute (thresholds st0) <? Z.of_nat (List.length recentRequests)
     then
       returning tt
         (logEvent clock randomHex sanitizeUrl depth "rate_limit_exceeded"
            [("current", DNum (Z.of_nat (List.length recentRequests)));
             ("limit", DNum (maxRequestsPerMinute (thresholds st0)))] st0)
     else Returned tt st0)
  with
  | StackExhausted st1 => StackExhausted st1
  | Returned _ st1 =>
      if maxSecurityIncidents (thresholds st1)
           <? Z.of_nat (List.length (securityIncidents st1))
      then
        returning tt
          (logEvent clock randomHex sanitizeUrl depth "security_threshold_exceeded"
             [("incidents", DNum (Z.of_nat (List.length (securityIncidents st1))));
              ("limit", DNum (maxSecurityIncidents (thresholds st1)))] st1)
      else Returned tt st1
  end.
Proof. reflexivity. Qed.

Lemma checkThresholds_over depth st :
  (maxRequestsPerMinute (thresholds st)
   <? Z.of_nat (List.length
                  (filter (recentRequest (clock (clockReads st) - 60000)) (auditLog st))))
  = true ->
  hasReturned (logEvent clock randomHex sanitizeUrl depth "rate_limit_exceeded"
     [("current",
       DNum (Z.of_nat (List.length
                         (filter (recentRequest (clock (clockReads st) - 60000))
                                 (auditLog st)))));
      ("limit", DNum (maxRequestsPerMinute (thresholds st)))] (tick st)) = false ->
  checkThresholds clock randomHex sanitizeUrl (S depth) st =
  StackExhausted
    (stateOf (logEvent clock randomHex sanitizeUrl depth "rate_limit_exceeded"
       [("current",
         DNum (Z.of_nat (List.length
                           (filter (recentRequest (clock (clockReads st) - 60000))
                                   (auditLog st)))));
        ("limit", DNum (maxRequestsPerMinute (thresholds st)))] (tick st))).
Proof.
  intros Hover Hr. rewrite checkThresholds_S. cbv zeta.
  change (auditLog (tick st)) with (auditLog st).
  change (thresholds (tick st)) with (thresholds st).
  rewrite Hover.
  destruct (logEvent clock randomHex sanitizeUrl depth "rate_limit_exceeded" _ (tick st))
    as [u st2 | st2]; [discriminate Hr | reflexivity].
Qed.

Lemma returning_stateOf {A B} (b : B) (o : outcome A) :
  stateOf (returning b o) = stateOf o /\ hasReturned (returning b o) = hasReturned o.
Proof. destruct o; split; reflexivity. Qed.

Lemma filter_app_length {A} (f : A -> bool) (l : list A) (x : A) :
  (List.length (filter f l) <= List.length (filter f (l ++ [x])))%nat.
Proof.
  rewrite filter_app, length_app. lia.
Qed.

Lemma overCeiling_push event st :
  overCeiling clock st -> overCeiling clock (pushEvent event (tick (draw st))).
Proof.
  intros H k. specialize (H k). simpl.
  pose proof (filter_app_length (recentRequest (clock k - 60000)) (auditLog st) event).
  lia.
Qed.

Lemma overCeiling_tick st : overCeiling clock st -> overCeiling clock (tick st).
Proof. intros H k. exact (H k). Qed.

(** One more request inside the minute takes a log at the ceiling over it. *)
Lemma atCeiling_push st d :
  withinOneMinute clock -> atCeiling clock st ->
  overCeiling clock
    (pushEvent (newEvent clock randomHex sanitizeUrl "request_made" d st) (tick (draw st))).
Proof.
  intros Hw H k. specialize (H k). simpl.
  rewrite filter_app, length_app. simpl.
  unfold recentRequest at 2. simpl.
  assert (E : (clock k - 60000 <? clock (clockReads st)) = true)
    by (apply Z.ltb_lt; apply Hw).
  rewrite E. simpl. lia.
Qed.

Lemma countType_push t event st :
  countType t (auditLog (pushEvent event (tick (draw st)))) =
  (countType t (auditLog st) + (if String.eqb (type event) t then 1 else 0))%nat.
Proof.
  unfold countType. simpl. rewrite filter_app, length_app. simpl.
  destruct (String.eqb (type event) t); reflexivity.
Qed.

(** While the recent requests exceed the ceiling, neither function returns,
    whatever call depth is granted; each level of [logEvent] has appended
    one event by the time the depth is used up. *)
Lemma overCeiling_exhausts (depth : nat) :
  (forall eventType d st,
     overCeiling clock st ->
     hasReturned (logEvent clock randomHex sanitizeUrl depth eventType d st) = false /\
     List.length
       (auditLog (stateOf (logEvent clock randomHex sanitizeUrl depth eventType d st)))
       = (List.length (auditLog st) + Nat.div2 (S depth))%nat /\
     countType "rate_limit_exceeded"
       (auditLog (stateOf (logEvent clock randomHex sanitizeUrl depth eventType d st)))
       = (countType "rate_limit_exceeded" (auditLog st)
          + match depth with
            | O => 0
            | S depth' =>
                (if String.eqb eventType "rate_limit_exceeded" then 1 else 0)
                + Nat.div2 depth'
            end)%nat) /\
  (forall st,
     overCeiling clock st ->
     hasReturned (checkThresholds clock randomHex sanitizeUrl depth st) = false /\
     List.length (auditLog (stateOf (checkThresholds clock randomHex sanitizeUrl depth st)))
       = (List.length (auditLog st) + Nat.div2 depth)%nat /\
     countType "rate_limit_exceeded"
       (auditLog (stateOf (checkThresholds clock randomHex sanitizeUrl depth st)))
       = (countType "rate_limit_exceeded" (auditLog st) + Nat.div2 depth)%nat).
Proof.
  induction depth as [| depth [IHlog IHcheck]].
  - split; intros; simpl; repeat split; lia.
  - split.
    + intros eventType d st H.
      rewrite logEvent_S.
      set (event := newEvent clock randomHex sanitizeUrl eventType d st).
      destruct (IHcheck (pushEvent event (tick (draw st))) (overCeiling_push event st H))
        as (Hr & Hl & Hc).
      destruct (returning_stateOf (id event)
                  (checkThresholds clock randomHex sanitizeUrl depth
                     (pushEvent event (tick (draw st))))) as [Es Eh].
      rewrite Es, Eh, Hl, Hc, countType_push.
      change (auditLog (pushEvent event (tick (draw st)))) with (auditLog st ++ [event])%list.
      rewrite length_app. change (type event) with eventType.
      cbn [List.length Nat.div2].
      destruct (String.eqb eventType "rate_limit_exceeded");
        repeat split; try exact Hr; lia.
    + intros st H.
      pose proof (H (clockReads st)) as Hover. apply Z.ltb_lt in Hover.
      match type of Hover with
      | (_ <? Z.of_nat (List.length ?l)) = true =>
          destruct (IHlog "rate_limit_exceeded"
                      [("current", DNum (Z.of_nat (List.length l)));
                       ("limit", DNum (maxRequestsPerMinute (thresholds st)))]
                      (tick st) (overCeiling_tick st H)) as (Hr & Hl & Hc)
      end.
      rewrite (checkThresholds_over depth st Hover Hr).
      cbn [stateOf hasReturned]. rewrite Hl, Hc.
      change (auditLog (tick st)) with (auditLog st).
      rewrite String.eqb_refl.
      destruct depth; cbn [Nat.div2]; repeat split; try exact Hr; lia.
Qed.

End Monitor.

(** C1 (the code at the failing input). Let the log hold at least as many
    recent [request_made] events as the ceiling allows, on a clock that stays
    within one minute.  Then the next [logEvent('request_made')] does not
    return, however much call depth it is given: its threshold check logs
    [rate_limit_exceeded], whose own threshold check finds the same count and
    logs again.  By the time a depth of [S depth] is used up the log has
    grown by the request and by one [rate_limit_exceeded] event for every
    second level of depth. *)
Theorem logEvent_over_ceiling_never_returns
    (clock : nat -> Z) (randomHex : nat -> string) (sanitizeUrl : detail -> string)
    (depth : nat) (d : Details) (st : State) :
  withinOneMinute clock ->
  atCeiling clock st ->
  hasReturned (logEvent clock randomHex sanitizeUrl (S depth) "request_made" d st) = false /\
  List.length
    (auditLog (stateOf (logEvent clock randomHex sanitizeUrl (S depth) "request_made" d st)))
    = (List.length (auditLog st) + 1 + Nat.div2 depth)%nat /\
  countType "rate_limit_exceeded"
    (auditLog (stateOf (logEvent clock randomHex sanitizeUrl (S depth) "request_made" d st)))
    = (countType "rate_limit_exceeded" (auditLog st) + Nat.div2 depth)%nat.
Proof.
  intros Hw Hc.
  rewrite logEvent_S.
  set (event := newEvent clock randomHex sanitizeUrl "request_made" d st).
  pose proof (atCeiling_push clock randomHex sanitizeUrl st d Hw Hc) as Hover.
  fold event in Hover.
  destruct (proj2 (overCeiling_exhausts clock randomHex sanitizeUrl depth) _ Hover)
    as (Hr & Hl & Hn).
  destruct (returning_stateOf (id event)
              (checkThresholds clock randomHex sanitizeUrl depth
                 (pushEvent event (tick (draw st))))) as [Es Eh].
  rewrite Es, Eh, Hl, Hn, countType_push.
  change (auditLog (pushEvent event (tick (draw st)))) with (auditLog st ++ [event])%list.
  rewrite length_app. change (type event) with "request_made".
  change (String.eqb "request_made" "rate_limit_exceeded") with false.
  cbn [List.length]. repeat split; try exact Hr; lia.
Qed.

(** Witness of [logEvent_over_ceiling_never_returns]: 30 requests logged at
    one instant all return and leave 30 events; the 31st call, given a call
    depth of 1001, does not return and leaves 531 events, 500 of them
    [rate_limit_exceeded]. *)
Lemma logEvent_over_ceiling_never_returns_witness :
  fst (logRequests frozenClock fixedHex anyUrl 4 30 (constructor frozenClock)) = true /\
  List.length (auditLog after30) = 30%nat /\
  hasReturned (logEvent frozenClock fixedHex anyUrl 1001 "request_made" [] after30) = false /\
  List.length
    (auditLog (stateOf (logEvent frozenClock fixedHex anyUrl 1001 "request_made" [] after30)))
    = (List.length (auditLog after30) + 1 + Nat.div2 1000)%nat /\
  countType "rate_limit_exceeded"
    (auditLog (stateOf (logEvent frozenClock fixedHex anyUrl 1001 "request_made" [] after30)))
    = (countType "rate_limit_exceeded" (auditLog after30) + Nat.div2 1000)%nat.
Proof.
  split; [vm_compute; reflexivity |].
  split; [vm_compute; reflexivity |].
  apply (logEvent_over_ceiling_never_returns frozenClock fixedHex anyUrl 1000 [] after30).
  - intros i j. unfold frozenClock. lia.
  - intro k. unfold frozenClock. vm_compute. discriminate.
Defined.

End SecurityMonitorProps.

Module RoutesProps.
Import Car Routes.
Local Open Scope string_scope.

Lemma seen_In x l : existsb (String.eqb x) l = true <-> In x l.
Proof.
  rewrite existsb_exists. split.
  - intros (y & Hy & E). apply String.eqb_eq in E. subst. exact Hy.
  - intro H. exists x. split; [exact H | apply String.eqb_refl].
Qed.

Lemma uniqueFrom_In seen l x :
  In x (uniqueFrom seen l) <-> In x l /\ ~ In x seen.
Proof.
  revert seen. induction l as [| y l IH]; intro seen; simpl.
  - tauto.
  - destruct (existsb (String.eqb y) seen) eqn:E.
    + apply seen_In in E. rewrite IH. split.
      * intros [H1 H2]. auto.
      * intros [[-> | H1] H2]; [contradiction | auto].
    + assert (Hy : ~ In y seen) by (intro H; apply seen_In in H; congruence).
      simpl. rewrite IH. simpl. split.
      * intros [-> | [H1 H2]]; [auto |]. split; [auto |]. intro H; apply H2; auto.
      * intros [[-> | H1] H2]; [auto |].
        destruct (string_dec y x) as [-> | Hne]; [auto |].
        right. split; [exact H1 |]. intros [H | H]; [congruence | contradiction].
Qed.

Lemma uniqueFrom_NoDup seen l : NoDup (uniqueFrom seen l).
Proof.
  revert seen. induction l as [| y l IH]; intro seen; simpl.
  - constructor.
  - destruct (existsb (String.eqb y) seen); [apply IH |].
    constructor; [| apply IH].
    rewrite uniqueFrom_In. simpl. tauto.
Qed.

Lemma uniqueFrom_snoc seen l x :
  uniqueFrom seen (l ++ [x]) =
  (uniqueFrom seen l ++ (if existsb (String.eqb x) (l ++ seen) then [] else [x]))%list.
Proof.
  revert seen. induction l as [| y l IH]; intro seen; simpl.
  - destruct (existsb (String.eqb x) seen); reflexivity.
  - destruct (existsb (String.eqb y) seen) eqn:E.
    + rewrite IH. f_equal.
      destruct (String.eqb x y) eqn:Exy; [| reflexivity].
      apply String.eqb_eq in Exy. subst y. simpl.
      assert (H : existsb (String.eqb x) (l ++ seen) = true).
      { apply seen_In. apply in_or_app. right. apply seen_In. exact E. }
      rewrite H. reflexivity.
    + simpl. rewrite IH. f_equal. f_equal.
      assert (H : existsb (String.eqb x) (l ++ y :: seen) =
                  (String.eqb x y || existsb (String.eqb x) (l ++ seen))%bool).
      { rewrite !existsb_app. simpl.
        destruct (existsb (String.eqb x) l), (String.eqb x y); reflexivity. }
      rewrite H. reflexivity.
Qed.

(** C9. [mergeCarData] replaces the target's features by the union of the
    target's and the source's, without duplicates and in the order of first
    appearance: the result has no repetition, holds exactly the elements of
    both lists, and grows at its end by each element that was not seen
    before.  Merging the fragment with features [a] and then the fragment
    with features [b, a] into the record a scrape starts from yields the
    features [a, b]. *)
Theorem mergeCarData_features_union :
  (forall manufacturer model year now,
     features (targetOf (mergeAll (initialCarData manufacturer model year now)
                           [featuresOnly ["a"]; featuresOnly ["b"; "a"]]))
     = Val ["a"; "b"]) /\
  (forall target source tf sf,
     features target = Val tf -> features source = Val sf ->
     exists t, mergeCarData target source = Merged t /\
               features t = Val (setToArray (tf ++ sf)%list)) /\
  (forall l, NoDup (setToArray l)) /\
  (forall l x, In x (setToArray l) <-> In x l) /\
  (forall l x, setToArray (l ++ [x]) =
               (setToArray l ++ (if existsb (String.eqb x) l then [] else [x]))%list).
Proof.
  split; [| split; [| split; [| split]]].
  - reflexivity.
  - intros target source tf sf Ht Hs. unfold mergeCarData. simpl.
    rewrite Hs, Ht. eexists. split; reflexivity.
  - intro l. apply uniqueFrom_NoDup.
  - intros l x. unfold setToArray. rewrite uniqueFrom_In. simpl. tauto.
  - intros l x. unfold setToArray. rewrite uniqueFrom_snoc, app_nil_r. reflexivity.
Qed.

(** Witness of [mergeCarData_features_union]: the two fragments of the
    example, merged one into the other. *)
Lemma mergeCarData_features_union_witness :
  exists t, mergeCarData (featuresOnly ["a"]) (featuresOnly ["b"; "a"]) = Merged t /\
            features t = Val (setToArray (["a"] ++ ["b"; "a"])%list).
Proof.
  apply (proj1 (proj2 mergeCarData_features_union)
           (featuresOnly ["a"]) (featuresOnly ["b"; "a"]) ["a"] ["b"; "a"]);
    reflexivity.
Defined.

End RoutesProps.

Module MainProps.
Import JsString Main.
Local Open Scope string_scope.
Local Open Scope Z_scope.

Lemma toFixed2_100 (x : Q) : (x == 100)%Q -> toFixed2 x = "100.00".
Proof.
  intro E. unfold toFixed2.
  assert (E' : (x * 100 + (1 # 2) == 20001 # 2)%Q) by (rewrite E; reflexivity).
  rewrite (Qfloor_comp _ _ E'). reflexivity.
Qed.

Lemma exactDivide_same (n : Z) : 0 < n -> (exactDivide n n == 1)%Q.
Proof.
  intro Hn. unfold exactDivide.
  assert (Hnz : ~ (inject_Z n == 0)%Q).
  { unfold inject_Z, Qeq. simpl. lia. }
  field. exact Hnz.
Qed.

Lemma exactTimes100_one (x : Q) : (x == 1)%Q -> (exactTimes100 x == 100)%Q.
Proof. intro E. unfold exactTimes100. rewrite E. reflexivity. Qed.

Section Orchestrator.

Variable Car : Type.
Variable World : Type.
Variable scrapeManufacturer : string -> option Z -> World -> completion World (list Car).
Variable applySecurityTransformations : Car -> World -> completion World Car.
Variable validateCarData : Car -> World -> completion World bool.
Variable setProgress : string -> Z -> nat -> World -> completion World unit.
Variable logManufacturerError : string -> World -> completion World unit.
Variable delay : World -> World.
Variable withCompetitors : list Car -> Car -> Car.
Variable divide : Z -> Z -> Q.
Variable times100 : Q -> Q.

Hypothesis divide_same : forall n, 0 < n -> (divide n n == 1)%Q.
Hypothesis times100_one : forall x, (x == 1)%Q -> (times100 x == 100)%Q.

(** One pass through the [try] block: when the scrape, the transformations
    and the validations all return, the cars that the filter kept are
    appended to [allCars] and their number is added to [processedCount];
    when one of them throws, both are left as they were. *)
Lemma tryBody_pass input count manufacturer st :
  match scrapeManufacturer manufacturer (maxPerManufacturer input count) (world st) with
  | Normal manufacturerCars w1 =>
      match mapCars applySecurityTransformations manufacturerCars w1 with
      | Normal secureCars w2 =>
          match filterCars validateCarData secureCars w2 with
          | Normal validCars w3 =>
              allCars (fst (tryBody scrapeManufacturer applySecurityTransformations
                              validateCarData setProgress input count manufacturer st))
                = (allCars st ++ validCars)%list /\
              processedCount
                (fst (tryBody scrapeManufacturer applySecurityTransformations
                        validateCarData setProgress input count manufacturer st))
                = processedCount st + Z.of_nat (List.length validCars)
          | Throw _ =>
              allCars (fst (tryBody scrapeManufacturer applySecurityTransformations
                              validateCarData setProgress input count manufacturer st))
                = allCars st /\
              processedCount
                (fst (tryBody scrapeManufacturer applySecurityTransformations
                        validateCarData setProgress input count manufacturer st))
                = processedCount st
          end
      | Throw _ =>
          allCars (fst (tryBody scrapeManufacturer applySecurityTransformations
                          validateCarData setProgress input count manufacturer st))
            = allCars st /\
          processedCount
            (fst (tryBody scrapeManufacturer applySecurityTransformations
                    validateCarData setProgress input count manufacturer st))
            = processedCount st
      end
  | Throw _ =>
      allCars (fst (tryBody scrapeManufacturer applySecurityTransformations
                      validateCarData setProgress input count manufacturer st))
        = allCars st /\
      processedCount
        (fst (tryBody scrapeManufacturer applySecurityTransformations
                validateCarData setProgress input count manufacturer st))
        = processedCount st
  end.
Proof.
  unfold tryBody.
  destruct (scrapeManufacturer manufacturer _ (world st)) as [cars w1 | w1];
    [| split; reflexivity].
  destruct (mapCars applySecurityTransformations cars w1) as [secure w2 | w2];
    [| split; reflexivity].
  destruct (filterCars validateCarData secure w2) as [validCars w3 | w3];
    [| split; reflexivity].
  destruct (setProgress manufacturer _ _ w3); split; reflexivity.
Qed.

Lemma tryBody_counted input count manufacturer st :
  counted st ->
  counted (fst (tryBody scrapeManufacturer applySecurityTransformations
                  validateCarData setProgress input count manufacturer st)).
Proof.
  unfold counted. intro H.
  pose proof (tryBody_pass input count manufacturer st) as P.
  destruct (scrapeManufacturer manufacturer _ (world st)) as [cars w1 | w1];
    [| destruct P as [-> ->]; exact H].
  destruct (mapCars applySecurityTransformations cars w1) as [secure w2 | w2];
    [| destruct P as [-> ->]; exact H].
  destruct (filterCars validateCarData secure w2) as [validCars w3 | w3];
    [| destruct P as [-> ->]; exact H].
  destruct P as [-> ->]. rewrite length_app. lia.
Qed.

Lemma processManufacturers_counted input count manufacturers :
  forall st,
    counted st ->
    counted (loopOf (processManufacturers scrapeManufacturer applySecurityTransformations
                       validateCarData setProgress logManufacturerError delay
                       input count manufacturers st)).
Proof.
  induction manufacturers as [| m rest IH]; intros st H; simpl; [exact H |].
  destruct (limitReached input st); [exact H |].
  pose proof (tryBody_counted input count m st H) as H1.
  destruct (tryBody scrapeManufacturer applySecurityTransformations
              validateCarData setProgress input count m st) as [st1 threw].
  simpl in H1. destruct threw.
  - destruct (logManufacturerError m (world st1)) as [u w | w]; simpl.
    + apply IH. exact H1.
    + exact H1.
  - apply IH. exact H1.
Qed.

(** The filter keeps cars of the list only, each of them accepted by the
    validator, and every car the validator accepts in any state. *)
Lemma filterCars_accepted cars : forall w0 validCars w1,
  filterCars validateCarData cars w0 = Normal validCars w1 ->
  (forall car, In car validCars ->
               In car cars /\ exists wa wb, validateCarData car wa = Normal true wb) /\
  (forall car, In car cars ->
               (forall wa, exists wb, validateCarData car wa = Normal true wb) ->
               In car validCars) /\
  (List.length validCars <= List.length cars)%nat.
Proof.
  induction cars as [| c cars IH]; intros w0 validCars w1 H; simpl in H.
  - injection H as <- _.
    split; [intros car [] | split; [intros car [] | simpl; lia]].
  - destruct (validateCarData c w0) as [ok wa | wa] eqn:E; [| discriminate H].
    destruct (filterCars validateCarData cars wa) as [rest' wb | wb] eqn:F;
      [| discriminate H].
    injection H as <- _.
    destruct (IH wa rest' wb F) as (A & B & C).
    split; [| split].
    + intros car Hin. destruct ok.
      * destruct Hin as [<- | Hin].
        -- split; [left; reflexivity | exists w0, wa; exact E].
        -- destruct (A car Hin) as [H1 H2]. split; [right; exact H1 | exact H2].
      * destruct (A car Hin) as [H1 H2]. split; [right; exact H1 | exact H2].
    + intros car [<- | Hin] Hall.
      * destruct (Hall w0) as (wb' & E'). rewrite E in E'. injection E' as -> _.
        left. reflexivity.
      * pose proof (B car Hin Hall) as Hr. destruct ok; [right |]; exact Hr.
    + destruct ok; simpl; lia.
Qed.

(** For a validator whose answer on a car does not depend on the state, the
    filter keeps exactly the cars it accepts, in their order. *)
Lemma filterCars_pure (ok : Car -> bool) (touch : Car -> World -> World) :
  (forall car w, validateCarData car w = Normal (ok car) (touch car w)) ->
  forall cars w0, exists w1,
    filterCars validateCarData cars w0 = Normal (filter ok cars) w1.
Proof.
  intros Hv cars. induction cars as [| c cars IH]; intro w0; simpl.
  - exists w0. reflexivity.
  - rewrite Hv. destruct (IH (touch c w0)) as (w1 & ->).
    exists w1. destruct (ok c); reflexivity.
Qed.

Lemma success_rate_counted (st : Loop Car World) :
  counted st ->
  success_rate divide times100 st
  = if (0 <? List.length (allCars st))%nat then "100.00%" else "0%".
Proof.
  unfold counted, success_rate, successRate. intro H. rewrite <- H.
  destruct (allCars st) as [| c l]; [reflexivity |].
  change (0 <? List.length (c :: l))%nat with true.
  assert (Hpos : 0 < Z.of_nat (List.length (c :: l))) by (simpl; lia).
  apply Z.ltb_lt in Hpos as Hb. rewrite Hb.
  rewrite (toFixed2_100 _ (times100_one _ (divide_same _ Hpos))). reflexivity.
Qed.

End Orchestrator.



End MainProps.

Module RateLimiterOpsProps.
Import RateLimiter RateLimiterOps.
Local Open Scope Q_scope.

(** *** The backoff multiplier *)

Lemma calculateDelay_multiplier st :
  multiplierInRange st -> multiplierInRange (snd (calculateDelay st)).
Proof.
  unfold multiplierInRange, calculateDelay. intros [H1 H2].
  destruct (0 <? consecutiveFailures st)%nat; simpl; [| split; assumption].
  destruct (RateLimiterProps.Qmin_cases 10 (backoffMultiplier st * (3 # 2)))
    as [[Hle E] | [Hle E]]; rewrite E; split; lra.
Qed.

Lemma canMakeRequest_multiplier now st :
  backoffMultiplier (snd (canMakeRequest now st)) = backoffMultiplier st.
Proof.
  rewrite RateLimiterProps.canMakeRequest_state.
  destruct (concurrentRequests (config st) <=? activeRequests st)%Z; reflexivity.
Qed.

Lemma apply_multiplier st o : multiplierInRange st -> multiplierInRange (apply st o).
Proof.
  intro H. destruct o as [c | now | | custom random | now | | conditions]; simpl.
  - destruct c as [now | now | success]; simpl.
    + unfold multiplierInRange. rewrite canMakeRequest_multiplier. exact H.
    + exact H.
    + unfold release. destruct success; [| exact H].
      unfold multiplierInRange; simpl; split; lra.
  - unfold gatedAdmit. pose proof (canMakeRequest_multiplier now st) as E.
    destruct (canMakeRequest now st) as [ok st']. simpl in E.
    unfold multiplierInRange. destruct ok; simpl; rewrite E; exact H.
  - apply calculateDelay_multiplier. exact H.
  - unfold delay, chosenDelay.
    destruct custom as [c |].
    + destruct (Qeq_bool c 0).
      * pose proof (calculateDelay_multiplier st H) as H'.
        destruct (calculateDelay st) as [d st']. exact H'.
      * exact H.
    + pose proof (calculateDelay_multiplier st H) as H'.
      destruct (calculateDelay st) as [d st']. exact H'.
  - apply calculateDelay_multiplier. exact H.
  - unfold multiplierInRange; simpl; split; lra.
  - exact H.
Qed.

(** X1. Whatever calls are made on a new limiter, in whatever order, the
    backoff multiplier stays between 1 and 10. *)
Theorem backoffMultiplier_in_range (c : ConfigArg) (ops : list op) :
  1 <= backoffMultiplier (applyAll (constructor c) ops) /\
  backoffMultiplier (applyAll (constructor c) ops) <= 10.
Proof.
  assert (H : forall st, multiplierInRange st -> multiplierInRange (applyAll st ops)).
  { unfold applyAll. induction ops as [| o ops IH]; simpl; intros st Hst; [exact Hst |].
    apply IH. apply apply_multiplier. exact Hst. }
  apply (H (constructor c)). unfold multiplierInRange; simpl; split; lra.
Qed.

(** *** delay *)

(** X2. The time [delay] sleeps is never below 500 ms.  With a non-negative
    jitter and a random draw in [0, 1] it lies between max(500, d - jitter)
    and max(500, d + jitter), where d is the custom delay when one is given
    and is not zero, and the computed delay otherwise. *)
Theorem delay_bounds (customDelay : option Q) (random : Q) (st : State) :
  500 <= fst (delay customDelay random st) /\
  (0 <= jitter (config st) -> 0 <= random -> random <= 1 ->
   Qmax 500 (fst (chosenDelay customDelay st) - jitter (config st))
     <= fst (delay customDelay random st) /\
   fst (delay customDelay random st)
     <= Qmax 500 (fst (chosenDelay customDelay st) + jitter (config st))) /\
  (forall c, customDelay = Some c -> ~ c == 0 -> fst (chosenDelay customDelay st) = c) /\
  (customDelay = None \/ customDelay = Some 0 ->
   fst (chosenDelay customDelay st) = fst (calculateDelay st)).
Proof.
  unfold delay.
  destruct (chosenDelay customDelay st) as [d st'] eqn:E. simpl fst.
  split; [apply Q.le_max_l |].
  split; [| split].
  - intros Hj H0 H1.
    assert (Hlo : d - jitter (config st) <= d + random * jitter (config st) * 2 - jitter (config st)).
    { assert (0 <= random * jitter (config st)) by (apply Qmult_le_0_compat; assumption). lra. }
    assert (Hhi : d + random * jitter (config st) * 2 - jitter (config st) <= d + jitter (config st)).
    { assert (random * jitter (config st) <= 1 * jitter (config st))
        by (apply Qmult_le_compat_r; assumption). lra. }
    split; apply Q.max_le_compat_l; assumption.
  - intros c -> Hc. unfold chosenDelay in E.
    destruct (Qeq_bool c 0) eqn:Ec.
    + apply Qeq_bool_iff in Ec. contradiction.
    + injection E as <- _. reflexivity.
  - intros [-> | ->]; unfold chosenDelay in E; simpl in E; rewrite E; reflexivity.
Qed.

(** Witness of [delay_bounds]: the polling delay of [execute] on the default
    configuration, with the random draw at one half. *)
Lemma delay_bounds_witness :
  Qmax 500 (fst (chosenDelay (Some 100) (constructor noArg))
            - jitter (config (constructor noArg)))
    <= fst (delay (Some 100) (1 # 2) (constructor noArg)) /\
  fst (delay (Some 100) (1 # 2) (constructor noArg))
    <= Qmax 500 (fst (chosenDelay (Some 100) (constructor noArg))
                 + jitter (config (constructor noArg))).
Proof.
  apply (proj1 (proj2 (delay_bounds (Some 100) (1 # 2) (constructor noArg))));
    unfold Qle; simpl; lia.
Defined.

(** *** The sliding window *)

Lemma filter_Forall {A} (f : A -> bool) (l : list A) :
  Forall (fun a => f a = true) (filter f l).
Proof.
  induction l as [| a l IH]; simpl; [constructor |].
  destruct (f a) eqn:E; [constructor; assumption | assumption].
Qed.

(** X3. When [canMakeRequest] has answered true at time [now] and the
    request is admitted at that time, the limiter holds exactly the
    timestamps of the trailing 60 seconds and the new one; their number is
    below the requests-per-minute ceiling plus one. *)
Theorem admission_keeps_window (now : Z) (st : State) :
  fst (canMakeRequest now st) = true ->
  requestTimestamps (gatedAdmit now st)
    = (filter (recent now) (requestTimestamps st) ++ [now])%list /\
  Forall (fun t => recent now t = true) (requestTimestamps (gatedAdmit now st)) /\
  inject_Z (Z.of_nat (List.length (requestTimestamps (gatedAdmit now st))))
    < requestsPerMinute (config st) + 1.
Proof.
  intro H. unfold gatedAdmit.
  pose proof (RateLimiterProps.canMakeRequest_state now st) as Es.
  pose proof (RateLimiterProps.canMakeRequest_true now st H) as Hlt.
  assert (Hc : (concurrentRequests (config st) <=? activeRequests st)%Z = false)
    by (apply Z.leb_gt; exact Hlt).
  rewrite Hc in Es.
  assert (Hl : length_ge (List.length (filter (recent now) (requestTimestamps st)))
                         (requestsPerMinute (config st)) = false).
  { unfold canMakeRequest in H. rewrite Hc in H. simpl in H.
    destruct (length_ge _ _); [discriminate H | reflexivity]. }
  apply RateLimiterProps.length_ge_false in Hl.
  destruct (canMakeRequest now st) as [ok st']. simpl in H, Es. subst ok st'.
  simpl. split; [reflexivity |]. split.
  - apply Forall_app. split; [apply filter_Forall |].
    constructor; [| constructor]. unfold recent. apply Z.ltb_lt. lia.
  - rewrite length_app. simpl.
    rewrite Nat2Z.inj_add, inject_Z_plus. simpl (inject_Z (Z.of_nat 1)).
    change (inject_Z 1) with 1. lra.
Qed.

(** Witness of [admission_keeps_window]: the first admission on a new
    limiter. *)
Lemma admission_keeps_window_witness :
  requestTimestamps (gatedAdmit 1000 (constructor noArg))
    = (filter (recent 1000) (requestTimestamps (constructor noArg)) ++ [1000%Z])%list /\
  Forall (fun t => recent 1000 t = true)
         (requestTimestamps (gatedAdmit 1000 (constructor noArg))) /\
  inject_Z (Z.of_nat (List.length (requestTimestamps (gatedAdmit 1000 (constructor noArg)))))
    < requestsPerMinute (config (constructor noArg)) + 1.
Proof.
  apply (admission_keeps_window 1000 (constructor noArg)). reflexivity.
Defined.

(** *** reset *)

(** X4. [reset] empties the window and sets the three counters back to
    what the constructor gave them (no request in flight, no failure, a
    multiplier of 1) but keeps the configuration, so what [adaptiveLimit]
    changed survives it.  Right after a reset the computed delay is the base
    delay, capped, whatever failures there were before, and computing it
    does not step the multiplier; [canMakeRequest] answers true exactly when
    both ceilings are positive; and a second reset changes nothing. *)
Theorem reset_keeps_config (now : Z) (conditions : Conditions) (st : State) :
  config (reset (adaptiveLimit conditions st)) = config (adaptiveLimit conditions st) /\
  config (reset st) = config st /\
  requestTimestamps (reset st) = [] /\
  activeRequests (reset st) = 0%Z /\
  consecutiveFailures (reset st) = 0%nat /\
  backoffMultiplier (reset st) = 1 /\
  calculateDelay (reset st)
    = (Qmin (baseDelay (config st)) (maxDelay (config st)), reset st) /\
  reset (reset st) = reset st /\
  (fst (canMakeRequest now (reset st)) = true <->
   (0 < concurrentRequests (config st))%Z /\ 0 < requestsPerMinute (config st)) /\
  snd (canMakeRequest now (reset st)) = reset st.
Proof.
  repeat (split; [reflexivity |]).
  unfold canMakeRequest, reset; simpl.
  destruct (concurrentRequests (config st) <=? 0)%Z eqn:Hc; simpl.
  - apply Z.leb_le in Hc. split; [| reflexivity].
    split; [discriminate | intros [H _]; lia].
  - apply Z.leb_gt in Hc.
    destruct (length_ge 0 (requestsPerMinute (config st))) eqn:Hl; simpl.
    + split; [| reflexivity]. split; [discriminate |].
      intros [_ H].
      pose proof (proj2 (RateLimiterProps.length_ge_false 0
                           (requestsPerMinute (config st))) H) as Hl'.
      congruence.
    + split; [| reflexivity].
      apply RateLimiterProps.length_ge_false in Hl. split; [| reflexivity].
      intros _. split; [exact Hc | exact Hl].
Qed.

End RateLimiterOpsProps.

Module ValidatorOpsProps.
Import Car JsString Regex DataValidator ValidatorOps.
Local Open Scope string_scope.
Local Open Scope Z_scope.

(** *** validateInput *)

Lemma app_nil_iff {A} (l l' : list A) : (l ++ l')%list = [] <-> l = [] /\ l' = [].
Proof.
  split; [apply app_eq_nil |]. intros [-> ->]. reflexivity.
Qed.

Lemma includes_In l s : includes l s = true <-> In s l.
Proof. unfold includes. apply RoutesProps.seen_In. Qed.

Lemma isEmpty_true s : isEmpty s = true <-> s = "".
Proof. destruct s; simpl; split; congruence. Qed.

Lemma numberError_nil leadingDigit x lo hi message :
  numberError leadingDigit x lo hi message = [] <->
  x = Missing \/ exists n, x = Val n /\ lo <= parseInt leadingDigit n <= hi.
Proof.
  unfold numberError. destruct x as [| | n].
  - split; auto.
  - split; [discriminate |]. intros [H | (n & H & _)]; discriminate H.
  - destruct (outside lo hi (parseInt leadingDigit n)) eqn:E; unfold outside in E;
      cbv iota.
    + apply orb_true_iff in E. rewrite !Z.ltb_lt in E.
      split; [discriminate |].
      intros [H | (m & H & Hm)]; [discriminate H |]. injection H as <-. lia.
    + apply orb_false_iff in E. rewrite !Z.ltb_ge in E.
      split; [| reflexivity].
      intros _. right. exists n. split; [reflexivity | lia].
Qed.

(** What [parseInt] makes of a whole number, against the two ranges. *)
Lemma parseInt_ranges leadingDigit n :
  (forall m, 1 <= leadingDigit m <= 9) ->
  (1 <= parseInt leadingDigit n <= 1000 <-> 1 <= n <= 1000 \/ 10 ^ 21 <= n) /\
  (500 <= parseInt leadingDigit n <= 10000 <-> 500 <= n <= 10000).
Proof.
  intro Hd. unfold parseInt.
  assert (Hbig : 10000 < 10 ^ 21) by reflexivity.
  destruct (Z.abs n <? 10 ^ 21) eqn:E.
  - apply Z.ltb_lt in E. split; split; lia.
  - apply Z.ltb_ge in E. specialize (Hd (Z.abs n)).
    destruct (Z.sgn_spec n) as [(Hn & ->) | [(Hn & ->) | (Hn & ->)]]; split; split; lia.
Qed.

Lemma enumError_nil x allowed message :
  enumError x allowed message = [] <->
  forall s, x = Val s -> s = "" \/ In s allowed.
Proof.
  unfold enumError. destruct x as [| | s].
  - split; [intros _ s H; discriminate H | auto].
  - split; [intros _ s H; discriminate H | auto].
  - destruct (isEmpty s) eqn:Ee; simpl.
    + apply isEmpty_true in Ee. split; [| auto].
      intros _ s' H. injection H as <-. left. exact Ee.
    + destruct (includes allowed s) eqn:Ei; simpl.
      * apply includes_In in Ei. split; [| auto].
        intros _ s' H. injection H as <-. right. exact Ei.
      * split; [discriminate |]. intro H.
        destruct (H s eq_refl) as [H' | H'].
        -- apply isEmpty_true in H'. congruence.
        -- apply includes_In in H'. congruence.
Qed.

(** X5. [validateInput] accepts a configuration of whole numbers exactly
    when its vehicle type is one of the seven listed, [maxResults] is
    missing, from 1 to 1000, or 10^21 or more, the country and the security
    level are missing, [null], empty or listed, and [rateLimitDelay] is
    missing or from 500 to 10000.  A limit of 10^21 results passes because
    [parseInt] reads the first digit of its text, [1e+21], and nothing else.
    A [null] number is rejected, and acceptance is the same as an empty list
    of errors. *)
Theorem validateInput_accepts (leadingDigit : Z -> Z) (input : RunInput) :
  (forall n, 1 <= leadingDigit n <= 9) ->
  (inputValid (validateInput leadingDigit input) = true <->
   (exists s, vehicleType input = Val s /\ In s vehicleTypes) /\
   (maxResults input = Missing \/
    exists n, maxResults input = Val n /\ (1 <= n <= 1000 \/ 10 ^ 21 <= n)) /\
   (forall s, country input = Val s -> s = "" \/ In s validCountries) /\
   (forall s, securityLevel input = Val s -> s = "" \/ In s validSecurityLevels) /\
   (rateLimitDelay input = Missing \/
    exists n, rateLimitDelay input = Val n /\ 500 <= n <= 10000)) /\
  (inputValid (validateInput leadingDigit input) = true
   <-> inputErrors (validateInput leadingDigit input) = []).
Proof.
  intro Hd.
  assert (Hv : inputValid (validateInput leadingDigit input) = true
               <-> inputErrors (validateInput leadingDigit input) = []).
  { unfold validateInput; simpl.
    destruct (_ ++ _)%list; split; congruence. }
  split; [| exact Hv]. rewrite Hv. unfold validateInput; simpl.
  rewrite !app_nil_iff, !numberError_nil, !enumError_nil.
  assert (Ht : (match vehicleType input with
                | Val s =>
                    if isEmpty s then ["vehicleType is required"]
                    else if includes vehicleTypes s then [] else ["Invalid vehicleType"]
                | _ => ["vehicleType is required"]
                end = [])
               <-> exists s, vehicleType input = Val s /\ In s vehicleTypes).
  { destruct (vehicleType input) as [| | s].
    - split; [discriminate | intros (s & H & _); discriminate H].
    - split; [discriminate | intros (s & H & _); discriminate H].
    - destruct (isEmpty s) eqn:Ee.
      + apply isEmpty_true in Ee. subst s.
        split; [discriminate |]. intros (s & H & Hin). injection H as <-.
        apply includes_In in Hin. discriminate Hin.
      + destruct (includes vehicleTypes s) eqn:Ei.
        * apply includes_In in Ei. split; [| reflexivity].
          intros _. exists s. auto.
        * split; [discriminate |]. intros (s' & H & Hin). injection H as <-.
          apply includes_In in Hin. congruence. }
  rewrite Ht.
  assert (Hmax : (maxResults input = Missing \/
                  exists n, maxResults input = Val n /\
                            1 <= parseInt leadingDigit n <= 1000)
                 <-> (maxResults input = Missing \/
                      exists n, maxResults input = Val n /\
                                (1 <= n <= 1000 \/ 10 ^ 21 <= n))).
  { split; (intros [H | (n & H & Hn)]; [left; exact H | right; exists n; split;
      [exact H | apply (proj1 (parseInt_ranges leadingDigit n Hd)); exact Hn]]). }
  assert (Hrate : (rateLimitDelay input = Missing \/
                   exists n, rateLimitDelay input = Val n /\
                             500 <= parseInt leadingDigit n <= 10000)
                  <-> (rateLimitDelay input = Missing \/
                       exists n, rateLimitDelay input = Val n /\ 500 <= n <= 10000)).
  { split; (intros [H | (n & H & Hn)]; [left; exact H | right; exists n; split;
      [exact H | apply (proj2 (parseInt_ranges leadingDigit n Hd)); exact Hn]]). }
  rewrite Hmax, Hrate. tauto.
Qed.

(** Witness of [validateInput_accepts]: a run with a limit of 10^21 results
    is accepted. *)
Lemma validateInput_accepts_witness :
  inputValid (validateInput (fun _ => 1) hugeRun) = true.
Proof.
  apply (proj1 (validateInput_accepts (fun _ => 1) hugeRun ltac:(intro; lia))).
  split; [exists "Sedan"; split; [reflexivity | left; reflexivity] |].
  split; [right; exists (10 ^ 21); split; [reflexivity | right; lia] |].
  split; [intros s H; discriminate H |].
  split; [intros s H; discriminate H | left; reflexivity].
Defined.

(** *** Strings *)

Lemma length_chars s : List.length (chars s) = String.length s.
Proof. unfold chars. induction s; simpl; congruence. Qed.

Lemma chars_of_list l : chars (string_of_list_ascii l) = l.
Proof. apply list_ascii_of_string_of_list_ascii. Qed.

Lemma of_chars s : string_of_list_ascii (chars s) = s.
Proof. apply string_of_list_ascii_of_string. Qed.

Lemma trimStartList_length l : (List.length (trimStartList l) <= List.length l)%nat.
Proof.
  induction l as [| c l IH]; simpl; [lia |].
  destruct (isWhiteSpace c); simpl; lia.
Qed.

Lemma trimList_length l : (List.length (trimList l) <= List.length l)%nat.
Proof.
  unfold trimList. rewrite length_rev.
  pose proof (trimStartList_length (rev (trimStartList l))) as H.
  rewrite length_rev in H. pose proof (trimStartList_length l). lia.
Qed.

Lemma filter_length_le {A} (f : A -> bool) (l : list A) :
  (List.length (filter f l) <= List.length l)%nat.
Proof.
  induction l as [| a l IH]; simpl; [lia |]. destruct (f a); simpl; lia.
Qed.

Lemma In_firstn {A} (n : nat) (l : list A) (x : A) : In x (firstn n l) -> In x l.
Proof.
  revert l. induction n as [| n IH]; intros l H; simpl in H; [destruct H |].
  destruct l as [| a l]; [destruct H |].
  destruct H as [-> | H]; [left; reflexivity | right; apply IH; exact H].
Qed.

(** X6. Whatever the input, [sanitizeString] returns at most 200 code units,
    never more than it was given, and none of them is an angle bracket, a
    double quote or an apostrophe. *)
Theorem sanitizeString_shape (input : string) :
  (String.length (sanitizeString input) <= 200)%nat /\
  (String.length (sanitizeString input) <= String.length input)%nat /\
  forall c, In c (chars (sanitizeString input)) -> isMarkupChar c = false.
Proof.
  unfold sanitizeString, prefix, removeChars, trim.
  rewrite <- !length_chars. fold (chars input).
  rewrite !chars_of_list.
  set (l := filter (fun c => negb (isMarkupChar c)) (trimList (chars input))).
  split; [| split].
  - rewrite length_firstn. lia.
  - rewrite length_firstn.
    pose proof (filter_length_le (fun c => negb (isMarkupChar c)) (trimList (chars input))).
    pose proof (trimList_length (chars input)). fold l in H. lia.
  - intros c Hc. apply In_firstn in Hc. unfold l in Hc.
    apply filter_In in Hc. destruct Hc as [_ Hc].
    destruct (isMarkupChar c); [discriminate Hc | reflexivity].
Qed.

Lemma removeFrom_length fuel r :
  forall prev l, (List.length (removeFrom fuel r prev l) <= List.length l)%nat.
Proof.
  induction fuel as [| fuel IH]; intros prev l; simpl; [lia |].
  assert (Hkeep : (List.length
                     match l with
                     | [] => []
                     | c :: s' => c :: removeFrom fuel r (Some c) s'
                     end <= List.length l)%nat).
  { destruct l as [| c l']; simpl; [lia |]. specialize (IH (Some c) l'). lia. }
  destruct (exec r prev l) as [[prev' l'] |]; [| exact Hkeep].
  destruct (List.length l' <? List.length l)%nat eqn:E; [| exact Hkeep].
  apply Nat.ltb_lt in E. specialize (IH prev' l'). lia.
Qed.

Lemma removeAll_length r s : (String.length (removeAll r s) <= String.length s)%nat.
Proof.
  unfold removeAll. rewrite <- !length_chars. rewrite chars_of_list.
  apply removeFrom_length.
Qed.

(** X7. Removing the malicious patterns never makes a string longer. *)
Theorem cleanString_never_longer (s : string) :
  (String.length (cleanString s) <= String.length s)%nat.
Proof.
  unfold cleanString.
  assert (H : forall patterns t,
             (String.length (fold_left (fun cleaned pattern => removeAll pattern cleaned)
                                       patterns t) <= String.length t)%nat).
  { induction patterns as [| r patterns IH]; intro t; simpl; [lia |].
    specialize (IH (removeAll r t)). pose proof (removeAll_length r t). lia. }
  apply H.
Qed.

(** *** Strings the patterns cannot match *)

Lemma matchAt_Star r prev l k :
  matchAt (Star r) prev l k = starLoop (matchAt r) k (List.length l) prev l.
Proof. reflexivity. Qed.

Lemma suffixOf_refl l : suffixOf l l.
Proof. exists []. reflexivity. Qed.

Lemma suffixOf_trans l1 l2 l3 : suffixOf l1 l2 -> suffixOf l2 l3 -> suffixOf l1 l3.
Proof.
  intros [a ->] [b ->]. exists (b ++ a)%list. rewrite app_assoc. reflexivity.
Qed.

Lemma suffixOf_In l' l x : suffixOf l' l -> In x l' -> In x l.
Proof. intros [a ->] H. apply in_or_app. right. exact H. Qed.

(** Whatever a pattern matches, what follows it is tried on a suffix of
    the subject. *)
Lemma matchAt_suffix r :
  forall prev l k c,
    matchAt r prev l k = Some c ->
    exists prev' l', suffixOf l' l /\ k prev' l' = Some c.
Proof.
  induction r as [| p | r1 IH1 r2 IH2 | r IH | r IH |]; intros prev l k c H.
  - exists prev, l. split; [apply suffixOf_refl | exact H].
  - simpl in H. destruct l as [| a l]; [discriminate H |].
    destruct (p a); [| discriminate H].
    exists (Some a), l. split; [exists [a]; reflexivity | exact H].
  - simpl in H. apply IH1 in H. destruct H as (p1 & l1 & S1 & H).
    apply IH2 in H. destruct H as (p2 & l2 & S2 & H).
    exists p2, l2. split; [apply (suffixOf_trans _ _ _ S2 S1) | exact H].
  - rewrite matchAt_Star in H.
    remember (List.length l) as n eqn:En. clear En. revert prev l H.
    induction n as [| n IHn]; intros prev l H; simpl in H.
    + exists prev, l. split; [apply suffixOf_refl | exact H].
    + destruct (matchAt r prev l _) as [c0 |] eqn:E.
      * apply IH in E. destruct E as (p1 & l1 & S1 & E).
        destruct (List.length l1 <? List.length l)%nat; [| discriminate E].
        injection H as <-. apply IHn in E. destruct E as (p2 & l2 & S2 & E).
        exists p2, l2. split; [apply (suffixOf_trans _ _ _ S2 S1) | exact E].
      * exists prev, l. split; [apply suffixOf_refl | exact H].
  - simpl in H. destruct (matchAt r prev l _); [discriminate H |].
    exists prev, l. split; [apply suffixOf_refl | exact H].
  - simpl in H. destruct (xorb _ _); [| discriminate H].
    exists prev, l. split; [apply suffixOf_refl | exact H].
Qed.

Lemma requires_In ch r :
  requires ch r ->
  forall prev l k c, matchAt r prev l k = Some c -> In ch l.
Proof.
  induction r as [| p | r1 IH1 r2 IH2 | r IH | r IH |]; simpl; intro Hreq;
    try contradiction; intros prev l k c H.
  - destruct l as [| a l]; [discriminate H |].
    destruct (p a) eqn:E; [| discriminate H].
    left. apply Hreq. exact E.
  - destruct Hreq as [Hreq | Hreq].
    + apply (IH1 Hreq _ _ _ _ H).
    + apply matchAt_suffix in H. destruct H as (p1 & l1 & S1 & H).
      apply (suffixOf_In _ _ _ S1). apply (IH2 Hreq _ _ _ _ H).
Qed.

Lemma trigger_cases c :
  triggerChar c = true -> c = "<"%char \/ c = ":"%char \/ c = "="%char.
Proof.
  destruct c as [[] [] [] [] [] [] [] []]; vm_compute; intro H;
    try discriminate H; auto.
Qed.

Lemma canonicalize_trigger x ch :
  triggerChar ch = true ->
  Ascii.eqb (canonicalize x) (canonicalize ch) = true -> x = ch.
Proof.
  intros Ht H. apply Ascii.eqb_eq in H.
  destruct (trigger_cases ch Ht) as [-> | [-> | ->]];
    destruct x as [[] [] [] [] [] [] [] []]; vm_compute in H;
    try discriminate H; reflexivity.
Qed.

Lemma requires_literal ch lit :
  triggerChar ch = true -> In ch (chars lit) -> requires ch (literalCI lit).
Proof.
  intro Ht. induction lit as [| a lit IH]; simpl; intro Hin; [destruct Hin |].
  destruct Hin as [-> | Hin].
  - left. intros x Hx. apply (canonicalize_trigger x ch Ht Hx).
  - right. apply IH. exact Hin.
Qed.

Lemma exec_untriggered ch r :
  triggerChar ch = true -> requires ch r ->
  forall prev l,
    forallb (fun c => negb (triggerChar c)) l = true -> exec r prev l = None.
Proof.
  intros Ht Hreq prev l Hl. unfold exec.
  destruct (matchAt r prev l _) as [c |] eqn:E; [| reflexivity].
  apply (requires_In ch r Hreq) in E.
  rewrite forallb_forall in Hl. specialize (Hl ch E).
  rewrite Ht in Hl. discriminate Hl.
Qed.

Lemma removeFrom_untriggered ch r :
  triggerChar ch = true -> requires ch r ->
  forall fuel prev l,
    forallb (fun c => negb (triggerChar c)) l = true ->
    removeFrom fuel r prev l = l.
Proof.
  intros Ht Hreq. induction fuel as [| fuel IH]; intros prev l Hl; simpl;
    [reflexivity |].
  rewrite (exec_untriggered ch r Ht Hreq prev l Hl).
  destruct l as [| c l]; [reflexivity |].
  simpl in Hl. apply andb_true_iff in Hl. destruct Hl as [_ Hl].
  f_equal. apply IH. exact Hl.
Qed.

Lemma removeAll_untriggered ch r s :
  triggerChar ch = true -> requires ch r ->
  untriggered s = true -> removeAll r s = s.
Proof.
  intros Ht Hreq Hs. unfold removeAll. fold (chars s).
  rewrite (removeFrom_untriggered ch r Ht Hreq _ _ _ Hs). apply of_chars.
Qed.

Lemma requires_scriptPattern : requires "<"%char scriptPattern.
Proof.
  unfold scriptPattern. simpl. left. left.
  intros x Hx. apply (canonicalize_trigger x "<"%char eq_refl Hx).
Qed.

Lemma requires_handlerPattern : requires "="%char handlerPattern.
Proof.
  unfold handlerPattern. simpl. right. right. right. right.
  intros x Hx. unfold isChar in Hx. apply Ascii.eqb_eq in Hx. exact Hx.
Qed.

Lemma cleanString_untriggered s : untriggered s = true -> cleanString s = s.
Proof.
  intro Hs. unfold cleanString, maliciousPatterns. cbn [fold_left].
  rewrite (removeAll_untriggered "<"%char scriptPattern s eq_refl
             requires_scriptPattern Hs).
  rewrite (removeAll_untriggered ":"%char (literalCI "javascript:") s eq_refl);
    [| apply requires_literal; [reflexivity | simpl; tauto] | exact Hs].
  rewrite (removeAll_untriggered "="%char handlerPattern s eq_refl
             requires_handlerPattern Hs).
  rewrite (removeAll_untriggered ":"%char (literalCI "data:") s eq_refl);
    [| apply requires_literal; [reflexivity | simpl; tauto] | exact Hs].
  rewrite (removeAll_untriggered ":"%char (literalCI "vbscript:") s eq_refl);
    [| apply requires_literal; [reflexivity | simpl; tauto] | exact Hs].
  reflexivity.
Qed.

Lemma sanitizeString_plain s : plainName s = true -> sanitizeString s = s.
Proof.
  unfold plainName. intro H.
  apply andb_true_iff in H. destruct H as [H Hlen].
  apply andb_true_iff in H. destruct H as [H _].
  apply andb_true_iff in H. destruct H as [Htrim Hmark].
  apply String.eqb_eq in Htrim. apply Nat.leb_le in Hlen.
  unfold sanitizeString. rewrite Htrim.
  assert (E : removeChars isMarkupChar s = s).
  { unfold removeChars. fold (chars s).
    rewrite RateLimiterProps.filter_all; [apply of_chars |].
    rewrite forallb_forall in Hmark. exact Hmark. }
  rewrite E. unfold prefix. fold (chars s).
  rewrite firstn_all2; [apply of_chars |]. rewrite length_chars. exact Hlen.
Qed.

(** X8. A string without [<], [:] and [=] comes out of the removal of the
    malicious patterns as it went in.  A name that, besides, has no white
    space around it, no quote or angle bracket and at most 200 code units is
    also left alone by [sanitizeString]: validation returns it unchanged. *)
Theorem plain_strings_untouched (s : string) :
  (untriggered s = true -> cleanString s = s) /\
  (plainName s = true ->
   sanitizeString s = s /\ cleanString s = s /\
   manufacturer (removeMaliciousContent
                   (sanitizeInPlace (setNames emptyCar (Val s) (Val s)))) = Val s).
Proof.
  split; [apply cleanString_untriggered |].
  intro H. pose proof (sanitizeString_plain s H) as Hs.
  assert (Hc : cleanString s = s).
  { apply cleanString_untriggered. unfold plainName in H.
    apply andb_true_iff in H. destruct H as [H _].
    apply andb_true_iff in H. destruct H as [_ H]. exact H. }
  split; [exact Hs |]. split; [exact Hc |].
  simpl. unfold sanitizeField. simpl.
  destruct (negb (isEmpty s)); simpl; rewrite ?Hs, Hc; reflexivity.
Qed.

(** Witness of [plain_strings_untouched]: a manufacturer's name with a
    hyphen. *)
Lemma plain_strings_untouched_witness :
  sanitizeString "Mercedes-Benz" = "Mercedes-Benz" /\
  cleanString "Mercedes-Benz" = "Mercedes-Benz" /\
  manufacturer (removeMaliciousContent
                  (sanitizeInPlace
                     (setNames emptyCar (Val "Mercedes-Benz") (Val "Mercedes-Benz"))))
    = Val "Mercedes-Benz".
Proof.
  apply (proj2 (plain_strings_untouched "Mercedes-Benz")). reflexivity.
Defined.

(** *** Acceptance, the cache and the score *)

Lemma valid_computed currentYear d :
  valid (computeResult currentYear d) =
  negb (blank (manufacturer d)) && negb (blank (model d))
  && yearAccepted currentYear d && priceAccepted d.
Proof.
  unfold computeResult; simpl valid. unfold computeErrors, yearAccepted, priceAccepted.
  destruct (blank (manufacturer d)); [reflexivity |].
  destruct (blank (model d)); [reflexivity |].
  cbn [app negb andb].
  destruct (year d) as [| | y].
  - destruct (optChain (price d) starting_msrp) as [| | p]; try reflexivity.
    destruct (p =? 0); [reflexivity |].
    destruct (outside 0 1000000 p); reflexivity.
  - destruct (optChain (price d) starting_msrp) as [| | p]; try reflexivity.
    destruct (p =? 0); [reflexivity |].
    destruct (outside 0 1000000 p); reflexivity.
  - destruct (y =? 0); cbn [negb andb orb app].
    + destruct (optChain (price d) starting_msrp) as [| | p]; try reflexivity.
      destruct (p =? 0); [reflexivity |].
      destruct (outside 0 1000000 p); reflexivity.
    + destruct (outside 1990 (currentYear + 2) y); [reflexivity |].
      cbn [negb andb orb app].
      destruct (optChain (price d) starting_msrp) as [| | p]; try reflexivity.
      destruct (p =? 0); [reflexivity |].
      destruct (outside 0 1000000 p); reflexivity.
Qed.

(** X9. A record is accepted exactly when its manufacturer and its model
    are not blank, its year is missing, zero or from 1990 to the current
    year plus two, and its starting MSRP is missing, zero or from 0 to
    1,000,000.  Nothing else is looked at: horsepower, fuel economy and the
    sanitized copy play no part. *)
Theorem accepted_iff (currentYear : Z) (cache : Cache) (d : CarData) :
  cacheSound currentYear cache ->
  valid (resultOf (validateCarData currentYear cache d)) =
  negb (blank (manufacturer d)) && negb (blank (model d))
  && yearAccepted currentYear d && priceAccepted d.
Proof.
  intro Hs.
  destruct (DataValidatorProps.validateCarData_verdict currentYear cache d Hs)
    as [(Hv & _) _].
  rewrite Hv. apply valid_computed.
Qed.

(** Witness of [accepted_iff]: the record of 1899 on a new validator. *)
Lemma accepted_iff_witness :
  valid (resultOf (validateCarData 2024 [] car1899)) =
  negb (blank (manufacturer car1899)) && negb (blank (model car1899))
  && yearAccepted 2024 car1899 && priceAccepted car1899.
Proof.
  apply (accepted_iff 2024 [] car1899). apply DataValidatorProps.cacheSound_nil.
Defined.

(** X10. The cache never changes a verdict within a year: on a validator
    whose cached entries were computed in the year [currentYear], validating
    the same content a second time gives the validity, the errors, the
    warnings and the score of the first time, whether the cache answers or
    the checks run again; and they are those a new validator gives. *)
Theorem cache_keeps_verdict (currentYear : Z) (cache : Cache) (d : CarData) :
  cacheSound currentYear cache ->
  sameVerdict
    (resultOf (validateCarData currentYear
                 (snd (validateCarData currentYear cache d)) d))
    (resultOf (validateCarData currentYear cache d)) /\
  sameVerdict (resultOf (validateCarData currentYear cache d))
              (resultOf (validateCarData currentYear [] d)).
Proof.
  intro Hs.
  pose proof (DataValidatorProps.validateCarData_sound currentYear cache d Hs) as Hs1.
  destruct (DataValidatorProps.validateCarData_verdict currentYear cache d Hs)
    as [(A1 & A2 & A3 & A4) _].
  destruct (DataValidatorProps.validateCarData_verdict currentYear _ d Hs1)
    as [(B1 & B2 & B3 & B4) _].
  destruct (DataValidatorProps.validateCarData_verdict currentYear [] d
              (DataValidatorProps.cacheSound_nil currentYear))
    as [(C1 & C2 & C3 & C4) _].
  unfold sameVerdict. repeat split; congruence.
Qed.

(** Witness of [cache_keeps_verdict]: the record of 1899 on a new
    validator. *)
Lemma cache_keeps_verdict_witness :
  sameVerdict
    (resultOf (validateCarData 2024 (snd (validateCarData 2024 [] car1899)) car1899))
    (resultOf (validateCarData 2024 [] car1899)).
Proof.
  apply (proj1 (cache_keeps_verdict 2024 [] car1899
                  (DataValidatorProps.cacheSound_nil 2024))).
Defined.

(** X11. The validation score is a multiple of 5 between 0 and 100; the
    weights add up to 100, so the cap never cuts anything off, and the score
    is 100 exactly when all eight fields count. *)
Theorem score_range (d : CarData) :
  0 <= calculateValidationScore d <= 100 /\
  calculateValidationScore d mod 5 = 0 /\
  (calculateValidationScore d = 100 <->
   shape d = [true; true; true; true; true; true; true; true]) /\
  (0 < calculateValidationScore d <->
   exists b, In b (shape d) /\ b = true).
Proof.
  unfold calculateValidationScore, shape.
  destruct (truthyString (manufacturer d)), (truthyString (model d)),
           (truthyNumber (year d)), (nonEmptyObject keysPrice (price d)),
           (nonEmptyObject keysPerformance (performance d)),
           (nonEmptyObject keysSpecifications (specifications d)),
           (truthyObject (features d)), (truthyObject (dimensions d));
    vm_compute;
    (split; [split; discriminate |]);
    (split; [reflexivity |]);
    (split; [split; intro H; first [reflexivity | discriminate H] |]);
    (split; [intro H; first [discriminate H
                            | exists true; split; [intuition reflexivity | reflexivity]]
            | intros (b & Hb & ->); first [reflexivity | intuition discriminate]]).
Qed.

End ValidatorOpsProps.

Module RevalidationProps.
Import Car JsString Regex DataValidator ValidatorOps.
Import DataValidatorProps ValidatorOpsProps.
Local Open Scope string_scope.
Local Open Scope Z_scope.


(** *** White space at the two ends *)

Lemma trimStartList_suffix l : exists ws, l = (ws ++ trimStartList l)%list.
Proof.
  induction l as [| c l [ws IH]]; [exists []; reflexivity |].
  simpl. destruct (isWhiteSpace c).
  - exists (c :: ws). simpl. rewrite <- IH. reflexivity.
  - exists []. reflexivity.
Qed.

Lemma trimStartList_head l :
  match trimStartList l with
  | c :: _ => isWhiteSpace c = false
  | [] => True
  end.
Proof.
  induction l as [| c l IH]; simpl; [exact I |].
  destruct (isWhiteSpace c) eqn:E; [exact IH | exact E].
Qed.

Lemma trimStartList_fixed l :
  match l with c :: _ => isWhiteSpace c = false | [] => True end ->
  trimStartList l = l.
Proof. destruct l as [| c l]; simpl; [reflexivity |]. intros ->. reflexivity. Qed.

Lemma trimList_idempotent l : trimList (trimList l) = trimList l.
Proof.
  unfold trimList.
  set (a := trimStartList l).
  set (b := trimStartList (rev a)).
  assert (Ha : match a with c :: _ => isWhiteSpace c = false | [] => True end)
    by apply trimStartList_head.
  assert (Hb : match b with c :: _ => isWhiteSpace c = false | [] => True end)
    by apply trimStartList_head.
  destruct (trimStartList_suffix (rev a)) as [ws Hws]. fold b in Hws.
  assert (Hrb : trimStartList (rev b) = rev b).
  { apply trimStartList_fixed.
    assert (E : a = (rev b ++ rev ws)%list).
    { rewrite <- rev_app_distr, <- Hws, rev_involutive. reflexivity. }
    destruct (rev b) as [| c t]; [exact I |].
    rewrite E in Ha. exact Ha. }
  rewrite Hrb, rev_involutive, (trimStartList_fixed b Hb). reflexivity.
Qed.

Lemma trimStartList_In l c : In c (trimStartList l) -> In c l.
Proof.
  destruct (trimStartList_suffix l) as [ws E]. intro H. rewrite E.
  apply in_or_app. right. exact H.
Qed.

Lemma trimList_In l c : In c (trimList l) -> In c l.
Proof.
  unfold trimList. intro H. apply in_rev in H.
  apply trimStartList_In in H. apply in_rev in H.
  apply trimStartList_In in H. exact H.
Qed.

Lemma trim_idempotent s : trim (trim s) = trim s.
Proof.
  unfold trim. rewrite list_ascii_of_string_of_list_ascii, trimList_idempotent.
  reflexivity.
Qed.

(** *** What the two sanitization steps leave *)

Lemma removeFrom_In fuel r c :
  forall prev l, In c (removeFrom fuel r prev l) -> In c l.
Proof.
  induction fuel as [| fuel IH]; intros prev l; simpl; [auto |].
  assert (Hkeep : In c match l with
                       | [] => []
                       | a :: s' => a :: removeFrom fuel r (Some a) s'
                       end -> In c l).
  { destruct l as [| a l']; simpl; [auto |].
    intros [-> | H]; [left; reflexivity | right; apply (IH _ _ H)]. }
  destruct (exec r prev l) as [[prev' l'] |] eqn:E; [| exact Hkeep].
  destruct (List.length l' <? List.length l)%nat; [| exact Hkeep].
  intro H. apply IH in H.
  unfold exec in E. apply matchAt_suffix in E.
  destruct E as (p & l0 & S & E). injection E as _ <-.
  apply (suffixOf_In _ _ _ S H).
Qed.

Lemma cleanString_In s c : In c (chars (cleanString s)) -> In c (chars s).
Proof.
  unfold cleanString.
  assert (H : forall patterns t,
             In c (chars (fold_left (fun cleaned pattern => removeAll pattern cleaned)
                                    patterns t)) -> In c (chars t)).
  { induction patterns as [| r patterns IH]; intros t Hc; simpl in Hc; [exact Hc |].
    apply IH in Hc. unfold removeAll in Hc. rewrite chars_of_list in Hc.
    apply removeFrom_In in Hc. exact Hc. }
  apply H.
Qed.

Lemma cleanString_length s : (String.length (cleanString s) <= String.length s)%nat.
Proof.
  unfold cleanString.
  assert (H : forall patterns t,
             (String.length (fold_left (fun cleaned pattern => removeAll pattern cleaned)
                                       patterns t) <= String.length t)%nat).
  { induction patterns as [| r patterns IH]; intro t; simpl; [lia |].
    specialize (IH (removeAll r t)). pose proof (removeAll_length r t). lia. }
  apply H.
Qed.

Lemma sanitizeString_tidy s :
  (forall c, In c (chars (sanitizeString s)) -> isMarkupChar c = false) /\
  (String.length (sanitizeString s) <= 200)%nat.
Proof.
  unfold sanitizeString, prefix, removeChars, trim.
  rewrite <- !length_chars. fold (chars s). rewrite !chars_of_list. split.
  - intros c Hc. apply In_firstn in Hc. apply filter_In in Hc. destruct Hc as [_ Hc].
    destruct (isMarkupChar c); [discriminate Hc | reflexivity].
  - rewrite length_firstn. lia.
Qed.

Lemma filter_all_true {A} (f : A -> bool) (l : list A) :
  (forall x, In x l -> f x = true) -> filter f l = l.
Proof.
  induction l as [| a l IH]; intro H; simpl; [reflexivity |].
  rewrite (H a (or_introl eq_refl)), IH; [reflexivity |].
  intros x Hx. apply H. right. exact Hx.
Qed.

(** On a string without markup characters and of at most 200 code units,
    [sanitizeString] only trims. *)
Lemma sanitizeString_trims y :
  (forall c, In c (chars y) -> isMarkupChar c = false) ->
  (String.length y <= 200)%nat ->
  sanitizeString y = trim y.
Proof.
  intros Hm Hl. unfold sanitizeString, prefix, removeChars, trim.
  fold (chars y). rewrite !chars_of_list.
  rewrite filter_all_true.
  - rewrite firstn_all2; [reflexivity |].
    pose proof (trimList_length (chars y)). rewrite length_chars in H. lia.
  - intros c Hc. apply trimList_In in Hc. rewrite (Hm c Hc). reflexivity.
Qed.

Lemma trim_tidy y :
  (forall c, In c (chars y) -> isMarkupChar c = false) ->
  (String.length y <= 200)%nat ->
  (forall c, In c (chars (trim y)) -> isMarkupChar c = false) /\
  (String.length (trim y) <= 200)%nat.
Proof.
  intros Hm Hl. unfold trim. fold (chars y). rewrite <- length_chars, chars_of_list.
  split.
  - intros c Hc. apply Hm. apply trimList_In. exact Hc.
  - pose proof (trimList_length (chars y)). rewrite length_chars in H. lia.
Qed.

Lemma blank_Val y : blank (Val y) = isEmpty (trim y).
Proof. destruct y; reflexivity. Qed.

Lemma cleanString_empty : cleanString "" = "".
Proof. vm_compute. reflexivity. Qed.

(** A name as a validation hands it back has no markup character and at
    most 200 code units. *)
Lemma sanitizedName_tidy x :
  match sanitizedName x with
  | Val y => (forall c, In c (chars y) -> isMarkupChar c = false) /\
             (String.length y <= 200)%nat
  | _ => True
  end.
Proof.
  unfold sanitizedName, sanitizeField.
  destruct x as [| | s]; cbn [truthyString isEmpty negb mapField]; try exact I.
  destruct s as [| a s]; cbn [truthyString isEmpty negb mapField].
  - rewrite cleanString_empty. split; [intros c [] | apply Nat.le_0_l].
  - destruct (sanitizeString_tidy (String a s)) as [Hm Hl]. split.
    + intros c Hc. apply Hm. apply cleanString_In. exact Hc.
    + pose proof (cleanString_length (sanitizeString (String a s))). lia.
Qed.

Lemma sanitizeField_trims y :
  (forall c, In c (chars y) -> isMarkupChar c = false) ->
  (String.length y <= 200)%nat ->
  sanitizeField (Val y) = Val (trim y).
Proof.
  intros Hm Hl. unfold sanitizeField. destruct y as [| a y];
    cbn [truthyString isEmpty negb mapField]; [reflexivity |].
  rewrite (sanitizeString_trims _ Hm Hl). reflexivity.
Qed.

(** Sanitizing a returned name in place, any number of times, yields the
    name or the name trimmed. *)
Lemma iter_sanitizeField (n : nat) (x : field string) :
  match x with
  | Val y => (forall c, In c (chars y) -> isMarkupChar c = false) /\
             (String.length y <= 200)%nat
  | _ => True
  end ->
  blank (Nat.iter n sanitizeField x) = blank x /\
  sanitizeField (Nat.iter n sanitizeField x) = sanitizeField x.
Proof.
  destruct x as [| | y].
  - intros _. assert (E : Nat.iter n sanitizeField (@Missing string) = Missing)
      by (induction n as [| n IH]; simpl; [| rewrite IH]; reflexivity).
    rewrite E. split; reflexivity.
  - intros _. assert (E : Nat.iter n sanitizeField (@Null string) = Null)
      by (induction n as [| n IH]; simpl; [| rewrite IH]; reflexivity).
    rewrite E. split; reflexivity.
  - intros [Hm Hl].
    destruct (trim_tidy y Hm Hl) as [Hm' Hl'].
    assert (E : Nat.iter n sanitizeField (Val y) = Val y \/
                Nat.iter n sanitizeField (Val y) = Val (trim y)).
    { induction n as [| n [IH | IH]]; simpl; [left; reflexivity | |].
      - right. rewrite IH. apply sanitizeField_trims; assumption.
      - right. rewrite IH, (sanitizeField_trims _ Hm' Hl'), trim_idempotent.
        reflexivity. }
    destruct E as [-> | ->]; [split; reflexivity |].
    rewrite !blank_Val, trim_idempotent.
    rewrite (sanitizeField_trims _ Hm' Hl'), trim_idempotent.
    rewrite (sanitizeField_trims _ Hm Hl). split; reflexivity.
Qed.

(** A name that is blank is blank when sanitized, and one that does not
    count for the score does not count when sanitized. *)
Lemma sanitizedName_blank x : blank x = true -> blank (sanitizedName x) = true.
Proof.
  unfold sanitizedName, sanitizeField.
  destruct x as [| | s]; cbn [truthyString isEmpty negb mapField];
    [reflexivity | reflexivity |].
  destruct s as [| a s]; cbn [truthyString isEmpty negb mapField].
  - intros _. rewrite cleanString_empty. reflexivity.
  - cbn [blank isEmpty orb]. intro H.
    destruct (trim (String a s)) eqn:E; [| discriminate H].
    unfold sanitizeString. rewrite E.
    replace (prefix 200 (removeChars isMarkupChar "")) with ""
      by (vm_compute; reflexivity).
    rewrite cleanString_empty. reflexivity.
Qed.

Lemma sanitizedName_falsy x :
  truthyString x = false -> truthyString (sanitizedName x) = false.
Proof.
  unfold sanitizedName, sanitizeField.
  destruct x as [| | s]; cbn [truthyString isEmpty negb mapField];
    [reflexivity | reflexivity |].
  destruct s as [| a s]; cbn [truthyString isEmpty negb mapField].
  - intros _. rewrite cleanString_empty. reflexivity.
  - intro H. discriminate H.
Qed.

(** *** Errors and scores of two records with the same numbers *)

Lemma computeErrors_flags currentYear d d' :
  numbers d = numbers d' ->
  (computeErrors currentYear d = computeErrors currentYear d' <->
   blank (manufacturer d) = blank (manufacturer d') /\
   blank (model d) = blank (model d')).
Proof.
  unfold numbers. intro H. injection H as Hy Hp Hh Hc.
  unfold computeErrors. rewrite Hy, Hp.
  match goal with
  | |- context [(_ ++ _ ++ ?c ++ ?e)%list] => generalize (c ++ e)%list
  end.
  intro rest.
  destruct (blank (manufacturer d)), (blank (manufacturer d')),
    (blank (model d)), (blank (model d')); cbn [app];
    (split; [intro H | intros [H1 H2]]);
    first [ split; reflexivity
          | reflexivity
          | discriminate H1
          | discriminate H2
          | exfalso; apply (f_equal (@List.length string)) in H; simpl in H; lia
          | exfalso; discriminate H ].
Qed.

Lemma score_flags d d' a b a' b' rest :
  shape d = a :: b :: rest ->
  shape d' = a' :: b' :: rest ->
  (a' = true -> a = true) ->
  (b' = true -> b = true) ->
  (calculateValidationScore d' = calculateValidationScore d <-> a' = a /\ b' = b).
Proof.
  unfold shape. intros H H' Ha Hb.
  injection H as H1 H2 Hr. injection H' as H1' H2' Hr'.
  subst rest. injection Hr' as H3 H4 H5 H6 H7 H8.
  unfold calculateValidationScore.
  rewrite H1, H2, H1', H2', H3, H4, H5, H6, H7, H8.
  assert (Hw : forall (c : bool) w, 0 <= w -> 0 <= weight c w <= w)
    by (intros [|] w Hw; simpl; lia).
  pose proof (Hw (truthyNumber (year d)) 10 ltac:(lia)).
  pose proof (Hw (nonEmptyObject keysPrice (price d)) 20 ltac:(lia)).
  pose proof (Hw (nonEmptyObject keysPerformance (performance d)) 15 ltac:(lia)).
  pose proof (Hw (nonEmptyObject keysSpecifications (specifications d)) 10 ltac:(lia)).
  pose proof (Hw (truthyObject (features d)) 10 ltac:(lia)).
  pose proof (Hw (truthyObject (dimensions d)) 5 ltac:(lia)).
  destruct a, a', b, b'; cbn [weight];
    try (specialize (Ha eq_refl); discriminate Ha);
    try (specialize (Hb eq_refl); discriminate Hb);
    (split; [intro E | intros [E1 E2]]);
    first [ split; reflexivity
          | reflexivity
          | discriminate E1
          | discriminate E2
          | exfalso; lia ].
Qed.

(** C6 (counterexample). A record whose manufacturer is a blank between
    two apostrophes passes the first validation without error and scores
    60; the sanitized copy has a manufacturer that is one blank, and
    validating it reports that the manufacturer is required and scores 45:
    the errors and the score both differ.  A manufacturer that is the text
    [data:] makes the errors differ in the same way. *)
Lemma revalidation_differs :
  errors (fst (validateTwice 2024 [] quotedBlankCar)) = [] /\
  score (fst (validateTwice 2024 [] quotedBlankCar)) = 60 /\
  manufacturer (data (fst (validateTwice 2024 [] quotedBlankCar))) = Val " " /\
  errors (snd (validateTwice 2024 [] quotedBlankCar)) = ["Manufacturer is required"] /\
  score (snd (validateTwice 2024 [] quotedBlankCar)) = 45 /\
  errors (snd (validateTwice 2024 [] quotedBlankCar))
    <> errors (fst (validateTwice 2024 [] quotedBlankCar)) /\
  score (snd (validateTwice 2024 [] quotedBlankCar))
    <> score (fst (validateTwice 2024 [] quotedBlankCar)) /\
  errors (fst (validateTwice 2024 [] dataUriCar)) = [] /\
  errors (snd (validateTwice 2024 [] dataUriCar)) = ["Manufacturer is required"].
Proof.
  assert (E : validateTwice 2024 [] quotedBlankCar =
              (computeResult 2024 quotedBlankCar,
               computeResult 2024 (data (computeResult 2024 quotedBlankCar))))
    by (vm_compute; reflexivity).
  assert (E' : validateTwice 2024 [] dataUriCar =
               (computeResult 2024 dataUriCar,
                computeResult 2024 (data (computeResult 2024 dataUriCar))))
    by (vm_compute; reflexivity).
  rewrite E, E'.
  repeat split; try (vm_compute; reflexivity); vm_compute; discriminate.
Qed.

(** C6 (as amended). Validating the sanitized copy of a validated record
    yields the same warnings for every record.  It yields the same errors
    exactly when neither the manufacturer nor the model passes the
    required-field check as it is given and fails it once sanitized, and the
    same score exactly when neither of the two, once sanitized, counts for
    the score and no longer does when sanitized again.  Sanitized means:
    trimmed, stripped of the four markup characters, cut to 200 code units
    (when the name is not empty), then cleaned of the malicious patterns. *)
Theorem revalidation_agrees (currentYear : Z) (cache : Cache) (r : CarData) :
  cacheSound currentYear cache ->
  warnings (snd (validateTwice currentYear cache r))
    = warnings (fst (validateTwice currentYear cache r)) /\
  (errors (snd (validateTwice currentYear cache r))
     = errors (fst (validateTwice currentYear cache r))
   <-> blanked (manufacturer r) = false /\ blanked (model r) = false) /\
  (score (snd (validateTwice currentYear cache r))
     = score (fst (validateTwice currentYear cache r))
   <-> emptied (manufacturer r) = false /\ emptied (model r) = false).
Proof.
  intro Hs. rewrite validateTwice_eq. simpl fst; simpl snd.
  pose proof (validateCarData_sound currentYear cache r Hs) as Hs1.
  destruct (validateCarData_verdict currentYear cache r Hs)
    as [(_ & He & Hw & Hsc) (n & m & Hd)].
  set (v := resultOf (validateCarData currentYear cache r)) in *.
  destruct (validateCarData_verdict currentYear _ (data v) Hs1)
    as [(_ & He2 & Hw2 & Hsc2) _].
  rewrite He, Hw, Hsc, He2, Hw2, Hsc2. simpl errors; simpl warnings; simpl score.
  assert (Hnum : numbers (data v) = numbers r)
    by (rewrite Hd; apply numbers_computed).
  assert (Hm : manufacturer (data v)
               = Nat.iter n sanitizeField (sanitizedName (manufacturer r)))
    by (rewrite Hd; reflexivity).
  assert (Hmo : model (data v)
                = Nat.iter m sanitizeField (sanitizedName (model r)))
    by (rewrite Hd; reflexivity).
  destruct (iter_sanitizeField n _ (sanitizedName_tidy (manufacturer r))) as [Bm Sm].
  destruct (iter_sanitizeField m _ (sanitizedName_tidy (model r))) as [Bmo Smo].
  split; [apply computeWarnings_numbers; exact Hnum |]. split.
  - rewrite (computeErrors_flags currentYear (data v) r Hnum).
    rewrite Hm, Hmo, Bm, Bmo. unfold blanked.
    pose proof (sanitizedName_blank (manufacturer r)).
    pose proof (sanitizedName_blank (model r)).
    destruct (blank (manufacturer r)), (blank (sanitizedName (manufacturer r))),
      (blank (model r)), (blank (sanitizedName (model r))); simpl;
      intuition congruence.
  - assert (Hrest : skipn 2 (shape (data v)) = skipn 2 (shape r)).
    { rewrite Hd. unfold computeResult; simpl data.
      change (skipn 2 (shape (resanitize n m (removeMaliciousContent (sanitizeInPlace r)))))
        with (skipn 2 (shape (removeMaliciousContent (sanitizeInPlace r)))).
      rewrite shape_sanitized. reflexivity. }
    pose proof (shape_sanitized r) as S1.
    pose proof (shape_sanitized (data v)) as S2.
    rewrite Hrest in S2.
    fold (sanitizedName (manufacturer r)) in S1. fold (sanitizedName (model r)) in S1.
    fold (sanitizedName (manufacturer (data v))) in S2.
    fold (sanitizedName (model (data v))) in S2.
    assert (Em : sanitizedName (manufacturer (data v))
                 = sanitizedName (sanitizedName (manufacturer r)))
      by (unfold sanitizedName at 1 2; rewrite Hm, Sm; reflexivity).
    assert (Emo : sanitizedName (model (data v))
                  = sanitizedName (sanitizedName (model r)))
      by (unfold sanitizedName at 1 2; rewrite Hmo, Smo; reflexivity).
    rewrite Em, Emo in S2.
    rewrite (score_flags _ _ _ _ _ _ _ S1 S2).
    + unfold emptied.
      pose proof (sanitizedName_falsy (sanitizedName (manufacturer r))).
      pose proof (sanitizedName_falsy (sanitizedName (model r))).
      destruct (truthyString (sanitizedName (manufacturer r))),
        (truthyString (sanitizedName (sanitizedName (manufacturer r)))),
        (truthyString (sanitizedName (model r))),
        (truthyString (sanitizedName (sanitizedName (model r)))); simpl;
        intuition congruence.
    + intro H. destruct (truthyString (sanitizedName (manufacturer r))) eqn:E;
        [reflexivity |].
      rewrite (sanitizedName_falsy _ E) in H. discriminate H.
    + intro H. destruct (truthyString (sanitizedName (model r))) eqn:E;
        [reflexivity |].
      rewrite (sanitizedName_falsy _ E) in H. discriminate H.
Qed.

(** Witness of [revalidation_agrees]: the sanitized copy of a record whose
    manufacturer has blanks around it is another record, so the second
    validation runs the checks again, and gives the same errors and the same
    score. *)
Lemma revalidation_agrees_witness :
  manufacturer (data (fst (validateTwice 2024 [] paddedCar)))
    <> manufacturer paddedCar /\
  errors (snd (validateTwice 2024 [] paddedCar))
    = errors (fst (validateTwice 2024 [] paddedCar)) /\
  score (snd (validateTwice 2024 [] paddedCar))
    = score (fst (validateTwice 2024 [] paddedCar)).
Proof.
  split; [vm_compute; discriminate |].
  destruct (revalidation_agrees 2024 [] paddedCar (cacheSound_nil 2024))
    as (_ & He & Hs).
  split; [apply He | apply Hs]; split; vm_compute; reflexivity.
Defined.

End RevalidationProps.

Module MonitorOpsProps.
Import JsString SecurityMonitor MonitorOps.
Local Open Scope string_scope.
Local Open Scope Z_scope.

Lemma extends_refl st : extends st st.
Proof.
  exists []. rewrite !app_nil_r. repeat split; reflexivity.
Qed.

Lemma extends_trans st1 st2 st3 : extends st1 st2 -> extends st2 st3 -> extends st1 st3.
Proof.
  intros (n1 & A1 & B1 & C1 & D1 & E1 & F1 & G1 & H1)
         (n2 & A2 & B2 & C2 & D2 & E2 & F2 & G2 & H2).
  exists (n1 ++ n2)%list.
  rewrite A2, A1, B2, B1, filter_app, !app_assoc.
  repeat split; congruence.
Qed.

Lemma extends_tick st : extends st (tick st).
Proof. exists []. rewrite !app_nil_r. repeat split; reflexivity. Qed.

Lemma extends_push event st : extends st (pushEvent event (tick (draw st))).
Proof.
  exists [event]. simpl. unfold incidentEvent.
  destruct (isIncident (severity event)); rewrite ?app_nil_r; repeat split; reflexivity.
Qed.

Lemma overIncidents_extends st st' : extends st st' -> overIncidents st -> overIncidents st'.
Proof.
  intros (new & _ & B & C & _) H. unfold overIncidents in *.
  rewrite B, C, length_app. lia.
Qed.

Section Monitor.

Variable clock : nat -> Z.
Variable randomHex : nat -> string.
Variable sanitizeUrl : detail -> string.

(** Whether they return or not, [logEvent] and [checkThresholds] only add
    events. *)
Lemma logEvent_extends (depth : nat) :
  (forall eventType d st,
     extends st (stateOf (logEvent clock randomHex sanitizeUrl depth eventType d st))) /\
  (forall st,
     extends st (stateOf (checkThresholds clock randomHex sanitizeUrl depth st))).
Proof.
  induction depth as [| depth [IHlog IHcheck]].
  - split; intros; simpl; apply extends_refl.
  - split.
    + intros eventType d st.
      rewrite SecurityMonitorProps.logEvent_S.
      rewrite (proj1 (SecurityMonitorProps.returning_stateOf _ _)).
      eapply extends_trans; [apply extends_push | apply IHcheck].
    + intro st. rewrite SecurityMonitorProps.checkThresholds_S. cbv zeta.
      match goal with
      | |- context [if ?c then returning tt ?o else _] =>
          assert (H1 : extends st (stateOf (if c then returning tt o else Returned tt (tick st))))
      end.
      { destruct (_ <? _).
        - rewrite (proj1 (SecurityMonitorProps.returning_stateOf _ _)).
          eapply extends_trans; [apply extends_tick | apply IHlog].
        - apply extends_tick. }
      destruct (if _ <? _ then _ else _) as [u st1 | st1]; simpl in H1; [| exact H1].
      destruct (_ <? _).
      * rewrite (proj1 (SecurityMonitorProps.returning_stateOf _ _)).
        eapply extends_trans; [exact H1 | apply IHlog].
      * exact H1.
Qed.

Lemma overIncidents_exhausts (depth : nat) :
  (forall eventType d st,
     overIncidents st ->
     hasReturned (logEvent clock randomHex sanitizeUrl depth eventType d st) = false) /\
  (forall st,
     overIncidents st ->
     hasReturned (checkThresholds clock randomHex sanitizeUrl depth st) = false).
Proof.
  induction depth as [| depth [IHlog IHcheck]].
  - split; intros; reflexivity.
  - split.
    + intros eventType d st H.
      rewrite SecurityMonitorProps.logEvent_S.
      rewrite (proj2 (SecurityMonitorProps.returning_stateOf _ _)).
      apply IHcheck. apply (overIncidents_extends st); [apply extends_push | exact H].
    + intros st H. rewrite SecurityMonitorProps.checkThresholds_S. cbv zeta.
      match goal with
      | |- context [if ?c then returning tt ?o else _] =>
          assert (H1 : extends st (stateOf (if c then returning tt o else Returned tt (tick st))))
      end.
      { destruct (_ <? _).
        - rewrite (proj1 (SecurityMonitorProps.returning_stateOf _ _)).
          eapply extends_trans;
            [apply extends_tick | apply (proj1 (logEvent_extends depth))].
        - apply extends_tick. }
      destruct (if _ <? _ then _ else _) as [u st1 | st1]; simpl in H1; [| reflexivity].
      pose proof (overIncidents_extends st st1 H1 H) as Hover.
      unfold overIncidents in Hover. apply Z.ltb_lt in Hover. rewrite Hover.
      rewrite (proj2 (SecurityMonitorProps.returning_stateOf _ _)).
      apply IHlog. apply (overIncidents_extends st st1 H1 H).
Qed.

End Monitor.

(** X12. Once more incidents are on record than the ceiling allows (more
    than 10 on a new monitor), no call of [logEvent] returns, whatever the
    event, the clock and the call depth: the threshold check logs
    [security_threshold_exceeded], which is not an incident, so the check
    that follows it finds the same count and logs again.  The call that logs
    the incident which takes the count over the ceiling is the first not to
    return. *)
Theorem logEvent_over_incidents_never_returns
    (clock : nat -> Z) (randomHex : nat -> string) (sanitizeUrl : detail -> string)
    (depth : nat) (eventType : string) (d : Details) (st : State) :
  (maxSecurityIncidents (thresholds st) < Z.of_nat (List.length (securityIncidents st)) ->
   hasReturned (logEvent clock randomHex sanitizeUrl depth eventType d st) = false) /\
  (maxSecurityIncidents (thresholds st) <= Z.of_nat (List.length (securityIncidents st)) ->
   isIncident (getEventSeverity eventType) = true ->
   hasReturned (logEvent clock randomHex sanitizeUrl depth eventType d st) = false) /\
  isIncident (getEventSeverity "security_threshold_exceeded") = false.
Proof.
  split; [| split; [| reflexivity]].
  - intro H.
    apply (proj1 (overIncidents_exhausts clock randomHex sanitizeUrl depth)). exact H.
  - intros H Hinc. destruct depth as [| depth]; [reflexivity |].
    rewrite SecurityMonitorProps.logEvent_S.
    rewrite (proj2 (SecurityMonitorProps.returning_stateOf _ _)).
    apply (proj2 (overIncidents_exhausts clock randomHex sanitizeUrl depth)).
    unfold overIncidents. simpl. rewrite Hinc, length_app. simpl. lia.
Qed.

(** Witness of [logEvent_over_incidents_never_returns]: after eleven blocked
    requests the monitor holds eleven incidents, and logging a plain request
    with a call depth of 1000 does not return. *)
Lemma logEvent_over_incidents_never_returns_witness :
  List.length (securityIncidents after11Blocked) = 11%nat /\
  hasReturned (logEvent frozenClock fixedHex anyUrl 1000 "request_made" []
                 after11Blocked) = false.
Proof.
  split; [vm_compute; reflexivity |].
  apply (proj1 (logEvent_over_incidents_never_returns frozenClock fixedHex anyUrl
                  1000 "request_made" [] after11Blocked)).
  vm_compute. reflexivity.
Defined.

Section MonitorCalls.

Variable clock : nat -> Z.
Variable randomHex : nat -> string.
Variable sanitizeUrl : detail -> string.

(** X13. When, with the new event in the log, the requests of the trailing
    minute do not exceed their ceiling and the incidents do not exceed
    theirs, [logEvent] returns the identifier of the new event, given two
    levels of call stack or more, and has appended that event and nothing
    else. *)
Theorem logEvent_below_thresholds_returns
    (depth : nat) (eventType : string) (d : Details) (st : State) :
  Z.of_nat (List.length
              (filter (recentRequest (clock (S (clockReads st)) - 60000))
                      (auditLog st ++ [newEvent clock randomHex sanitizeUrl eventType d st])))
    <= maxRequestsPerMinute (thresholds st) ->
  Z.of_nat (List.length
              (securityIncidents
                 (pushEvent (newEvent clock randomHex sanitizeUrl eventType d st)
                            (tick (draw st)))))
    <= maxSecurityIncidents (thresholds st) ->
  logEvent clock randomHex sanitizeUrl (S (S depth)) eventType d st
  = Returned (randomHex (randomDraws st))
      (tick (pushEvent (newEvent clock randomHex sanitizeUrl eventType d st)
                       (tick (draw st)))).
Proof.
  intros Hrate Hinc.
  rewrite SecurityMonitorProps.logEvent_S, SecurityMonitorProps.checkThresholds_S.
  cbv zeta.
  set (event := newEvent clock randomHex sanitizeUrl eventType d st) in *.
  change (auditLog (tick (pushEvent event (tick (draw st)))))
    with (auditLog st ++ [event])%list.
  change (thresholds (tick (pushEvent event (tick (draw st))))) with (thresholds st).
  change (clockReads (pushEvent event (tick (draw st)))) with (S (clockReads st)).
  apply Z.ltb_ge in Hrate. rewrite Hrate.
  cbv beta iota.
  change (securityIncidents (tick (pushEvent event (tick (draw st)))))
    with (securityIncidents (pushEvent event (tick (draw st)))).
  change (thresholds (tick (pushEvent event (tick (draw st))))) with (thresholds st).
  apply Z.ltb_ge in Hinc. rewrite Hinc.
  reflexivity.
Qed.

Lemma grows_refl st : grows st st.
Proof. exists []. rewrite !app_nil_r. repeat split; reflexivity. Qed.

Lemma grows_trans st1 st2 st3 : grows st1 st2 -> grows st2 st3 -> grows st1 st3.
Proof.
  intros (n1 & A1 & B1 & C1) (n2 & A2 & B2 & C2).
  exists (n1 ++ n2)%list.
  rewrite A2, A1, B2, B1, filter_app, !app_assoc.
  repeat split; congruence.
Qed.

Lemma logEvent_grows depth eventType d st0 st :
  auditLog st0 = auditLog st -> securityIncidents st0 = securityIncidents st ->
  thresholds st0 = thresholds st ->
  grows st (stateOf (logEvent clock randomHex sanitizeUrl depth eventType d st0)).
Proof.
  intros A B C.
  destruct (proj1 (logEvent_extends clock randomHex sanitizeUrl depth) eventType d st0)
    as (new & A' & B' & C' & _).
  exists new. rewrite A', B', C', A, B, C. auto.
Qed.

Lemma call_grows depth c st :
  grows st (stateOf (call clock randomHex sanitizeUrl depth c st)).
Proof.
  destruct c; simpl; unfold trackRequest, trackBlockedRequest, trackRetry, setSessionId;
    rewrite ?(proj1 (SecurityMonitorProps.returning_stateOf _ _));
    apply logEvent_grows; reflexivity.
Qed.

Lemma calls_app depth cs1 cs2 st :
  calls clock randomHex sanitizeUrl depth (cs1 ++ cs2) st =
  calls clock randomHex sanitizeUrl depth cs2
    (calls clock randomHex sanitizeUrl depth cs1 st).
Proof. unfold calls. apply fold_left_app. Qed.

Lemma calls_grows depth cs : forall st,
  grows st (calls clock randomHex sanitizeUrl depth cs st).
Proof.
  induction cs as [| c cs IH]; intro st; [apply grows_refl |].
  change (calls clock randomHex sanitizeUrl depth (c :: cs) st)
    with (calls clock randomHex sanitizeUrl depth cs
            (stateOf (call clock randomHex sanitizeUrl depth c st))).
  eapply grows_trans; [apply call_grows | apply IH].
Qed.

(** X14. The log is append-only and the incident list is its shadow: after
    any sequence of calls on a new monitor, returned or not, the incidents
    are exactly the logged events of severity 3 or more, in the order of the
    log; the ceilings are the initial ones; and the log reached after the
    first calls of a sequence is a prefix of the log reached after all of
    them. *)
Theorem incidents_shadow_log (depth : nat) (cs1 cs2 : list mcall) :
  securityIncidents (calls clock randomHex sanitizeUrl depth cs1 (constructor clock))
    = filter incidentEvent
        (auditLog (calls clock randomHex sanitizeUrl depth cs1 (constructor clock))) /\
  thresholds (calls clock randomHex sanitizeUrl depth cs1 (constructor clock))
    = initialThresholds /\
  exists new,
    auditLog (calls clock randomHex sanitizeUrl depth (cs1 ++ cs2) (constructor clock))
    = (auditLog (calls clock randomHex sanitizeUrl depth cs1 (constructor clock))
       ++ new)%list.
Proof.
  destruct (calls_grows depth cs1 (constructor clock)) as (new & A & B & C).
  split; [| split].
  - rewrite A, B. reflexivity.
  - exact C.
  - rewrite calls_app.
    destruct (calls_grows depth cs2
                (calls clock randomHex sanitizeUrl depth cs1 (constructor clock)))
      as (new2 & A2 & _).
    exists new2. exact A2.
Qed.

Lemma logEvent_counters depth eventType d st :
  requestCount (stateOf (logEvent clock randomHex sanitizeUrl depth eventType d st))
    = requestCount st /\
  blockedCount (stateOf (logEvent clock randomHex sanitizeUrl depth eventType d st))
    = blockedCount st /\
  retryCount (stateOf (logEvent clock randomHex sanitizeUrl depth eventType d st))
    = retryCount st.
Proof.
  destruct (proj1 (logEvent_extends clock randomHex sanitizeUrl depth) eventType d st)
    as (new & _ & _ & _ & D & E & F & _).
  auto.
Qed.

Lemma call_counters depth c st :
  requestCount (stateOf (call clock randomHex sanitizeUrl depth c st))
    = requestCount st + (if isMTrackRequest c then 1 else 0) /\
  blockedCount (stateOf (call clock randomHex sanitizeUrl depth c st))
    = blockedCount st + (if isMTrackBlockedRequest c then 1 else 0) /\
  retryCount (stateOf (call clock randomHex sanitizeUrl depth c st))
    = retryCount st + (if isMTrackRetry c then 1 else 0).
Proof.
  destruct c; simpl; unfold trackRequest, trackBlockedRequest, trackRetry, setSessionId;
    rewrite ?(proj1 (SecurityMonitorProps.returning_stateOf _ _));
    match goal with
    | |- context [logEvent clock randomHex sanitizeUrl depth ?t ?d ?s] =>
        destruct (logEvent_counters depth t d s) as (A & B & C); rewrite A, B, C
    end; simpl; repeat split; lia.
Qed.

Lemma calls_counters (depth : nat) (cs : list mcall) : forall st,
  requestCount (calls clock randomHex sanitizeUrl depth cs st)
    = requestCount st + Z.of_nat (List.length (filter isMTrackRequest cs)) /\
  blockedCount (calls clock randomHex sanitizeUrl depth cs st)
    = blockedCount st + Z.of_nat (List.length (filter isMTrackBlockedRequest cs)) /\
  retryCount (calls clock randomHex sanitizeUrl depth cs st)
    = retryCount st + Z.of_nat (List.length (filter isMTrackRetry cs)).
Proof.
  induction cs as [| c cs IH]; intro st.
  - simpl. repeat split; lia.
  - change (calls clock randomHex sanitizeUrl depth (c :: cs) st)
      with (calls clock randomHex sanitizeUrl depth cs
              (stateOf (call clock randomHex sanitizeUrl depth c st))).
    destruct (IH (stateOf (call clock randomHex sanitizeUrl depth c st)))
      as (A & B & C).
    destruct (call_counters depth c st) as (A' & B' & C').
    rewrite A, B, C, A', B', C'. simpl filter.
    destruct c; simpl; repeat split; lia.
Qed.

(** X15. The three counters count calls, not outcomes: after any sequence of
    calls on a new monitor, [requestCount], [blockedCount] and [retryCount]
    are the numbers of [trackRequest], [trackBlockedRequest] and
    [trackRetry] calls made, also for the calls that ran out of call stack;
    a blocked request is not counted as a request. *)
Theorem counters_count_calls (depth : nat) (cs : list mcall) :
  requestCount (calls clock randomHex sanitizeUrl depth cs (constructor clock))
    = Z.of_nat (List.length (filter isMTrackRequest cs)) /\
  blockedCount (calls clock randomHex sanitizeUrl depth cs (constructor clock))
    = Z.of_nat (List.length (filter isMTrackBlockedRequest cs)) /\
  retryCount (calls clock randomHex sanitizeUrl depth cs (constructor clock))
    = Z.of_nat (List.length (filter isMTrackRetry cs)).
Proof.
  destruct (calls_counters depth cs (constructor clock)) as (A & B & C).
  rewrite A, B, C. simpl. repeat split; lia.
Qed.

(** An event of severity 3 or more adds to the incidents, given one level
    of call stack. *)
Lemma logEvent_incident (depth : nat) (eventType : string) (d : Details) (st : State) :
  isIncident (getEventSeverity eventType) = true ->
  (List.length (securityIncidents st)
   < List.length (securityIncidents
                    (stateOf (logEvent clock randomHex sanitizeUrl (S depth)
                                eventType d st))))%nat.
Proof.
  intro Hinc.
  rewrite SecurityMonitorProps.logEvent_S.
  rewrite (proj1 (SecurityMonitorProps.returning_stateOf _ _)).
  destruct (proj2 (logEvent_extends clock randomHex sanitizeUrl depth)
              (pushEvent (newEvent clock randomHex sanitizeUrl eventType d st)
                         (tick (draw st))))
    as (new & _ & B & _).
  rewrite B. simpl. rewrite Hinc. rewrite !length_app. simpl. lia.
Qed.

Lemma logEvent_incidents_le (depth : nat) (eventType : string) (d : Details) (st : State) :
  (List.length (securityIncidents st)
   <= List.length (securityIncidents
                     (stateOf (logEvent clock randomHex sanitizeUrl depth
                                 eventType d st))))%nat.
Proof.
  destruct (proj1 (logEvent_extends clock randomHex sanitizeUrl depth) eventType d st)
    as (new & _ & B & _).
  rewrite B, length_app. lia.
Qed.

(** Every blocked request reported with one level of call stack or more is
    on record as an incident. *)
Lemma calls_blocked_le_incidents (depth : nat) (cs : list mcall) : forall st,
  blockedCount st <= Z.of_nat (List.length (securityIncidents st)) ->
  blockedCount (calls clock randomHex sanitizeUrl (S depth) cs st)
  <= Z.of_nat (List.length
                 (securityIncidents (calls clock randomHex sanitizeUrl (S depth) cs st))).
Proof.
  induction cs as [| c cs IH]; intros st H; [exact H |].
  change (calls clock randomHex sanitizeUrl (S depth) (c :: cs) st)
    with (calls clock randomHex sanitizeUrl (S depth) cs
            (stateOf (call clock randomHex sanitizeUrl (S depth) c st))).
  apply IH.
  destruct (call_counters (S depth) c st) as (_ & B & _). rewrite B.
  destruct c; cbn [isMTrackBlockedRequest call];
    unfold trackRequest, trackBlockedRequest, trackRetry, setSessionId; cbv zeta;
    rewrite ?(proj1 (SecurityMonitorProps.returning_stateOf _ _));
    match goal with
    | |- context [logEvent clock randomHex sanitizeUrl (S depth) "request_blocked" ?d ?s] =>
        pose proof (logEvent_incident depth "request_blocked" d s eq_refl) as L;
        change (securityIncidents s) with (securityIncidents st) in L
    | |- context [logEvent clock randomHex sanitizeUrl (S depth) ?t ?d ?s] =>
        pose proof (logEvent_incidents_le (S depth) t d s) as L;
        change (securityIncidents s) with (securityIncidents st) in L
    end; lia.
Qed.

Section LoggedInvariant.

Variable P : Event -> Prop.
Hypothesis newEvent_P :
  forall eventType d st, P (newEvent clock randomHex sanitizeUrl eventType d st).

(** What holds of every new event holds of the whole log. *)
Lemma logEvent_Forall (depth : nat) :
  (forall eventType d st,
     Forall P (auditLog st) ->
     Forall P (auditLog (stateOf (logEvent clock randomHex sanitizeUrl depth
                                    eventType d st)))) /\
  (forall st,
     Forall P (auditLog st) ->
     Forall P (auditLog (stateOf (checkThresholds clock randomHex sanitizeUrl depth st)))).
Proof.
  induction depth as [| depth [IHlog IHcheck]].
  - split; intros; simpl; assumption.
  - split.
    + intros eventType d st H.
      rewrite SecurityMonitorProps.logEvent_S.
      rewrite (proj1 (SecurityMonitorProps.returning_stateOf _ _)).
      apply IHcheck. simpl. apply Forall_app. split; [exact H |].
      constructor; [apply newEvent_P | constructor].
    + intros st H. rewrite SecurityMonitorProps.checkThresholds_S. cbv zeta.
      match goal with
      | |- context [if ?c then returning tt ?o else _] =>
          assert (H1 : Forall P (auditLog
                     (stateOf (if c then returning tt o else Returned tt (tick st)))))
      end.
      { destruct (_ <? _).
        - rewrite (proj1 (SecurityMonitorProps.returning_stateOf _ _)).
          apply IHlog. exact H.
        - exact H. }
      destruct (if _ <? _ then _ else _) as [u st1 | st1]; simpl in H1; [| exact H1].
      destruct (_ <? _).
      * rewrite (proj1 (SecurityMonitorProps.returning_stateOf _ _)).
        apply IHlog. exact H1.
      * exact H1.
Qed.

Lemma calls_Forall (depth : nat) (cs : list mcall) : forall st,
  Forall P (auditLog st) ->
  Forall P (auditLog (calls clock randomHex sanitizeUrl depth cs st)).
Proof.
  induction cs as [| c cs IH]; intros st H; [exact H |].
  change (calls clock randomHex sanitizeUrl depth (c :: cs) st)
    with (calls clock randomHex sanitizeUrl depth cs
            (stateOf (call clock randomHex sanitizeUrl depth c st))).
  apply IH.
  destruct c; cbn [call];
    unfold trackRequest, trackBlockedRequest, trackRetry, setSessionId;
    rewrite ?(proj1 (SecurityMonitorProps.returning_stateOf _ _));
    apply (proj1 (logEvent_Forall depth)); exact H.
Qed.

End LoggedInvariant.

End MonitorCalls.

(** Witness of [logEvent_below_thresholds_returns]: the first blocked request
    logged on a new monitor, with two levels of call stack. *)
Lemma logEvent_below_thresholds_returns_witness :
  hasReturned (logEvent frozenClock fixedHex anyUrl 2 "request_blocked" []
                 (constructor frozenClock)) = true.
Proof.
  rewrite (logEvent_below_thresholds_returns frozenClock fixedHex anyUrl
             0 "request_blocked" [] (constructor frozenClock)).
  - reflexivity.
  - vm_compute. discriminate.
  - vm_compute. discriminate.
Defined.

Lemma indexOf_app_In (x : string) (pre l : list string) :
  In x pre -> exists i, indexOf x (pre ++ l)%list = Some i /\ (i < List.length pre)%nat.
Proof.
  induction pre as [| y pre IH]; simpl; [tauto |].
  intros [-> | H].
  - rewrite String.eqb_refl. exists 0%nat. split; [reflexivity | lia].
  - destruct (String.eqb y x); [exists 0%nat; split; [reflexivity | lia] |].
    destruct (IH H) as (i & E & L). rewrite E.
    exists (S i). split; [reflexivity | lia].
Qed.

Lemma indexOf_app_notIn (x : string) (pre rest : list string) :
  ~ In x pre -> indexOf x (pre ++ x :: rest)%list = Some (List.length pre).
Proof.
  induction pre as [| y pre IH]; simpl; intro H.
  - rewrite String.eqb_refl. reflexivity.
  - destruct (String.eqb y x) eqn:E.
    + apply String.eqb_eq in E. tauto.
    + rewrite IH by tauto. reflexivity.
Qed.

(** The filter of [checkSuspiciousPatterns] keeps nothing of a tail of the
    array exactly when the tail repeats no element of its own nor of what
    comes before it. *)
Lemma filterFrom_nil (l : list string) : forall pre,
  filterFrom (notFirstAt (pre ++ l)%list) (List.length pre) l = []
  <-> NoDup l /\ (forall x, In x l -> ~ In x pre).
Proof.
  induction l as [| x rest IH]; intro pre.
  - simpl. split; [intros _; split; [constructor | tauto] | reflexivity].
  - cbn [filterFrom]. unfold notFirstAt at 1.
    destruct (in_dec string_dec x pre) as [Hin | Hnin].
    + destruct (indexOf_app_In x pre (x :: rest) Hin) as (i & E & L). rewrite E.
      replace (negb (i =? List.length pre)%nat) with true
        by (symmetry; apply negb_true_iff, Nat.eqb_neq; lia).
      split; [discriminate |].
      intros [_ H]. exfalso. apply (H x); [left; reflexivity | exact Hin].
    + rewrite (indexOf_app_notIn x pre rest Hnin). rewrite Nat.eqb_refl. cbn [negb].
      specialize (IH (pre ++ [x])%list).
      rewrite <- app_assoc in IH. simpl app in IH.
      rewrite length_app in IH. simpl List.length in IH. rewrite Nat.add_1_r in IH.
      rewrite IH. split.
      * intros [ND H]. split.
        -- constructor; [| exact ND].
           intro Hx. apply (H x Hx). apply in_or_app. right. left. reflexivity.
        -- intros y [<- | Hy]; [exact Hnin |].
           intro Hp. apply (H y Hy). apply in_or_app. left. exact Hp.
      * intros [ND H]. inversion ND as [| ? ? Hx ND']; subst. split; [exact ND' |].
        intros y Hy Hp. apply in_app_or in Hp. destruct Hp as [Hp | [<- | []]].
        -- apply (H y); [right; exact Hy | exact Hp].
        -- exact (Hx Hy).
Qed.

(** X16. [checkSuspiciousPatterns] answers [false] exactly when no two
    incidents on record have the same type: one repeated type is enough for
    [true], whatever the types are and however far apart the two incidents
    lie. *)
Theorem checkSuspiciousPatterns_repeated_type (st : State) :
  checkSuspiciousPatterns st = false <-> NoDup (map type (securityIncidents st)).
Proof.
  unfold checkSuspiciousPatterns. cbv zeta.
  pose proof (filterFrom_nil (map type (securityIncidents st)) []) as H.
  simpl in H.
  destruct (filterFrom _ 0 (map type (securityIncidents st))) as [| x l] eqn:E.
  - split; [intros _; apply H; reflexivity | reflexivity].
  - split; [discriminate |].
    intro ND. destruct H as [_ H]. discriminate H. split; [exact ND | tauto].
Qed.

Lemma lastN_suffix {A} (n : nat) (l : list A) :
  (exists older, l = (older ++ lastN n l)%list) /\
  List.length (lastN n l) = Nat.min n (List.length l).
Proof.
  unfold lastN. split.
  - exists (firstn (List.length l - n) l). rewrite firstn_skipn. reflexivity.
  - rewrite length_skipn. lia.
Qed.

(** X17. The audit trail of a monitor that has served any sequence of calls
    reports the full number of logged events, shows the last 100 of them (all
    of them when there are fewer) in the order of the log, and lists every
    incident of the whole run: an incident among the events shown is also
    among the incidents, and incidents older than the events shown are not
    dropped. *)
Theorem audit_trail_keeps_incidents
    (clock : nat -> Z) (randomHex : nat -> string) (sanitizeUrl : detail -> string)
    (depth : nat) (cs : list mcall) :
  let st := calls clock randomHex sanitizeUrl depth cs (constructor clock) in
  let trail := fst (getAuditTrail clock st) in
  total_events trail = List.length (auditLog st) /\
  List.length (events trail) = Nat.min 100 (total_events trail) /\
  (exists older, auditLog st = (older ++ events trail)%list) /\
  incidents trail = filter incidentEvent (auditLog st) /\
  (forall e, In e (events trail) -> incidentEvent e = true -> In e (incidents trail)).
Proof.
  intros st trail.
  destruct (lastN_suffix 100 (auditLog st)) as [[older Hold] Hlen].
  destruct (calls_grows clock randomHex sanitizeUrl depth cs (constructor clock))
    as (new & A & B & _).
  fold st in A, B. simpl in A, B.
  assert (Hinc : incidents trail = filter incidentEvent (auditLog st)).
  { unfold trail. simpl. rewrite A, B. reflexivity. }
  split; [reflexivity |].
  split; [exact Hlen |].
  split; [exists older; exact Hold |].
  split; [exact Hinc |].
  intros e He Hsev. rewrite Hinc. apply filter_In. split; [| exact Hsev].
  rewrite Hold. apply in_or_app. right. exact He.
Qed.

Lemma sanitizeDetails_keys (sanitizeUrl : detail -> string) (d : Details) (k : string) :
  In k (map fst (sanitizeDetails sanitizeUrl d)) <->
  In k (map fst d) /\ sensitiveKey k = false.
Proof.
  unfold sanitizeDetails. rewrite map_map.
  rewrite (map_ext _ fst) by (intros [k' v]; simpl; destruct (_ && _); reflexivity).
  rewrite !in_map_iff. split.
  - intros ([k' v] & <- & H). apply filter_In in H. destruct H as [H1 H2].
    split; [exists (k', v); split; [reflexivity | exact H1] |].
    simpl in *. apply negb_true_iff. exact H2.
  - intros [([k' v] & <- & H1) H2]. exists (k', v). split; [reflexivity |].
    apply filter_In. split; [exact H1 |]. simpl in *. rewrite H2. reflexivity.
Qed.

(** X18. No event in the audit log carries a [password], an [apiKey] or a
    [token] among the keys of its details, whatever the callers passed and
    whichever calls returned: every event, also those the threshold check
    logs, has gone through [sanitizeDetails], which keeps every other key of
    what it is given. *)
Theorem audit_log_holds_no_secrets
    (clock : nat -> Z) (randomHex : nat -> string) (sanitizeUrl : detail -> string)
    (depth : nat) (cs : list mcall) (e : Event) (k : string) :
  In e (auditLog (calls clock randomHex sanitizeUrl depth cs (constructor clock))) ->
  In k (map fst (details e)) ->
  (k <> "password" /\ k <> "apiKey" /\ k <> "token") /\
  (forall d k', In k' (map fst (sanitizeDetails sanitizeUrl d)) <->
                In k' (map fst d) /\ k' <> "password" /\ k' <> "apiKey" /\ k' <> "token").
Proof.
  assert (Hkey : forall k', sensitiveKey k' = false <->
                            k' <> "password" /\ k' <> "apiKey" /\ k' <> "token").
  { intro k'. unfold sensitiveKey. rewrite !orb_false_iff, !String.eqb_neq. tauto. }
  intros He Hk. split.
  - pose proof (calls_Forall clock randomHex sanitizeUrl
                  (fun e => forall k, In k (map fst (details e)) -> sensitiveKey k = false))
      as H.
    cbv beta in H.
    assert (Hnew : forall eventType d st k0,
               In k0 (map fst (details (newEvent clock randomHex sanitizeUrl eventType d st))) ->
               sensitiveKey k0 = false).
    { intros eventType d st k0 H0. simpl in H0.
      apply sanitizeDetails_keys in H0. tauto. }
    specialize (H Hnew depth cs (constructor clock) (Forall_nil _)).
    rewrite Forall_forall in H. apply Hkey. exact (H e He k Hk).
  - intros d k'. rewrite sanitizeDetails_keys, Hkey. tauto.
Qed.

(** Witness of [audit_log_holds_no_secrets]: an event logged with a password
    and a user name keeps the user name only. *)
Lemma audit_log_holds_no_secrets_witness :
  map fst (details (newEvent frozenClock fixedHex anyUrl "login"
                      [("password", DStr "hunter2"); ("user", DStr "ann")]
                      (constructor frozenClock))) = ["user"] /\
  "user" <> "password" /\ "user" <> "apiKey" /\ "user" <> "token".
Proof.
  split; [reflexivity |].
  refine (proj1 (audit_log_holds_no_secrets frozenClock fixedHex anyUrl 2
            [MLogEvent "login" [("password", DStr "hunter2"); ("user", DStr "ann")]]
            (newEvent frozenClock fixedHex anyUrl "login"
               [("password", DStr "hunter2"); ("user", DStr "ann")]
               (constructor frozenClock))
            "user" _ _)).
  - vm_compute. left. reflexivity.
  - vm_compute. left. reflexivity.
Defined.

End MonitorOpsProps.

Module UtilsProps.
Import Car SecurityMonitor Utils.
Local Open Scope string_scope.
Local Open Scope Z_scope.

(** X19. The value score lies between 40 and 100: the only deduction is the
    10 points of a price above 60000, so the lower clamp at 0 never applies,
    while the four bonuses add up to 60 and the upper clamp at 100 does.
    Both ends are reached. *)
Theorem calculateValueScore_range (carData : CarData) :
  40 <= calculateValueScore carData <= 100 /\
  calculateValueScore worstValue = 40 /\
  calculateValueScore bestValue = 100.
Proof.
  split; [| split; reflexivity].
  unfold calculateValueScore. cbv zeta.
  destruct (optChain (price carData) starting_msrp) as [| | msrp];
    destruct (optChain (performance carData) horsepower) as [| | hp];
    destruct (features carData) as [| | l];
    destruct (optChain (fuel_economy carData) combined) as [| | mpg];
    repeat match goal with
           | |- context [if ?c then _ else _] => destruct c
           end;
    lia.
Qed.

(** X20. The completeness score of a record of the scraper is one of 0, 20,
    40, 60 and 80, and never 100: of the five required paths the last,
    [specifications.engine], is never there, because the engine is filed
    under [performance].  It is 80 exactly when the maker, the model, the
    starting price and the horsepower all hold a value; an empty name
    counts as one. *)
Theorem calculateCompleteness_at_most_80 (carData : CarData) :
  In (calculateCompleteness carData) [0; 20; 40; 60; 80] /\
  (calculateCompleteness carData = 80 <->
   present (manufacturer carData) = true /\
   present (model carData) = true /\
   present (optChain (price carData) starting_msrp) = true /\
   present (optChain (performance carData) horsepower) = true).
Proof.
  unfold calculateCompleteness, requiredFields.
  replace (present (optChain (specifications carData) (fun _ => @Missing string)))
    with false by (destruct (specifications carData); reflexivity).
  destruct (present (manufacturer carData)), (present (model carData)),
    (present (optChain (price carData) starting_msrp)),
    (present (optChain (performance carData) horsepower)); cbn;
    (split;
     [ repeat (first [left; reflexivity | right])
     | split; [intro H; first [discriminate H | repeat split; reflexivity]
              | intros (A & B & C & D); first [reflexivity | congruence]] ]).
Qed.

Lemma inheritedNames_In (s : string) :
  existsb (String.eqb s) inheritedNames = true <-> In s inheritedNames.
Proof.
  rewrite existsb_exists. split.
  - intros (x & Hx & E). apply String.eqb_eq in E. subst. exact Hx.
  - intro H. exists s. split; [exact H | apply String.eqb_refl].
Qed.

(** X21. [estimatePrice] gives a price between 27000 and 75000, so that an
    estimated car is never in the luxury band and never without a price,
    unless the maker's name is one of the names that every object inherits
    ([constructor], [toString], ...): then what it gives is not a number. *)
Theorem estimatePrice_range (manufacturer model : string) :
  match estimatePrice manufacturer model with
  | Some p => 27000 <= p <= 75000 /\ ~ In manufacturer inheritedNames
  | None => In manufacturer inheritedNames
  end.
Proof.
  unfold estimatePrice, priceRanges. cbn [ownProperty].
  repeat match goal with
         | |- context [String.eqb manufacturer ?k] =>
             destruct (String.eqb manufacturer k) eqn:?E;
             [ apply String.eqb_eq in E; subst manufacturer; cbn;
               split; [lia |];
               intro H; simpl in H;
               repeat (destruct H as [H | H]; [discriminate H |]); exact H
             | clear E ]
         end.
  destruct (existsb (String.eqb manufacturer) inheritedNames) eqn:E.
  - apply inheritedNames_In. exact E.
  - split; [lia |]. intro H. apply inheritedNames_In in H. congruence.
Qed.

End UtilsProps.

Module CompetitorsProps.
Import Car JsString Competitors.
Local Open Scope string_scope.
Local Open Scope Z_scope.

(** The loop of [groupCarsByPrice] appends to each group the cars of its
    band, in their order. *)
Lemma fold_pushCar (cars : list CarData) : forall groups,
  fold_left pushCar cars groups =
  mkGroups
    (budget groups ++ filter (fun c => priceOf c <? 30000) cars)
    (midrange groups
     ++ filter (fun c => (30000 <=? priceOf c) && (priceOf c <? 50000)) cars)
    (premium groups
     ++ filter (fun c => (50000 <=? priceOf c) && (priceOf c <? 80000)) cars)
    (luxury groups ++ filter (fun c => 80000 <=? priceOf c) cars).
Proof.
  induction cars as [| car cars IH]; intro groups.
  - simpl. rewrite !app_nil_r. destruct groups; reflexivity.
  - cbn [fold_left filter]. rewrite IH. unfold pushCar. cbv zeta.
    destruct (priceOf car <? 30000) eqn:E1;
      [| destruct (priceOf car <? 50000) eqn:E2;
         [| destruct (priceOf car <? 80000) eqn:E3]];
      destruct (30000 <=? priceOf car) eqn:F1;
      destruct (50000 <=? priceOf car) eqn:F2;
      destruct (80000 <=? priceOf car) eqn:F3;
      try (exfalso;
           repeat match goal with
                  | H : (_ <? _) = true |- _ => apply Z.ltb_lt in H
                  | H : (_ <? _) = false |- _ => apply Z.ltb_ge in H
                  | H : (_ <=? _) = true |- _ => apply Z.leb_le in H
                  | H : (_ <=? _) = false |- _ => apply Z.leb_gt in H
                  end; lia);
      cbn [andb budget midrange premium luxury]; rewrite <- ?app_assoc; reflexivity.
Qed.

Lemma groupCarsByPrice_filter (cars : list CarData) :
  groupCarsByPrice cars =
  mkGroups
    (filter (fun c => priceOf c <? 30000) cars)
    (filter (fun c => (30000 <=? priceOf c) && (priceOf c <? 50000)) cars)
    (filter (fun c => (50000 <=? priceOf c) && (priceOf c <? 80000)) cars)
    (filter (fun c => 80000 <=? priceOf c) cars).
Proof. unfold groupCarsByPrice. rewrite fold_pushCar. reflexivity. Qed.

(** X22. [groupCarsByPrice] puts every car in exactly one of the four
    groups, by its starting price, and keeps the order of the cars inside
    each group; a car with no price, or a price of 0 or [null], is a budget
    car.  The four groups together hold as many cars as were given. *)
Theorem groupCarsByPrice_partitions (cars : list CarData) :
  budget (groupCarsByPrice cars) = filter (fun c => priceOf c <? 30000) cars /\
  midrange (groupCarsByPrice cars)
    = filter (fun c => (30000 <=? priceOf c) && (priceOf c <? 50000)) cars /\
  premium (groupCarsByPrice cars)
    = filter (fun c => (50000 <=? priceOf c) && (priceOf c <? 80000)) cars /\
  luxury (groupCarsByPrice cars) = filter (fun c => 80000 <=? priceOf c) cars /\
  (List.length (budget (groupCarsByPrice cars))
   + List.length (midrange (groupCarsByPrice cars))
   + List.length (premium (groupCarsByPrice cars))
   + List.length (luxury (groupCarsByPrice cars)) = List.length cars)%nat /\
  (forall car, optChain (price car) starting_msrp = Missing ->
               In car cars -> In car (budget (groupCarsByPrice cars))).
Proof.
  rewrite groupCarsByPrice_filter. cbn [budget midrange premium luxury].
  repeat (split; [reflexivity |]). split.
  - induction cars as [| car cars IH]; [reflexivity |].
    cbn [filter List.length].
    destruct (priceOf car <? 30000) eqn:E1;
      destruct (priceOf car <? 50000) eqn:E2;
      destruct (priceOf car <? 80000) eqn:E3;
      destruct (30000 <=? priceOf car) eqn:F1;
      destruct (50000 <=? priceOf car) eqn:F2;
      destruct (80000 <=? priceOf car) eqn:F3;
      try (exfalso;
           repeat match goal with
                  | H : (_ <? _) = true |- _ => apply Z.ltb_lt in H
                  | H : (_ <? _) = false |- _ => apply Z.ltb_ge in H
                  | H : (_ <=? _) = true |- _ => apply Z.leb_le in H
                  | H : (_ <=? _) = false |- _ => apply Z.leb_gt in H
                  end; lia);
      cbn [andb List.length]; lia.
  - intros car Hp Hin. apply filter_In. split; [exact Hin |].
    unfold priceOf. rewrite Hp. reflexivity.
Qed.

Lemma strictlyDiffers_true (a b : field string) :
  strictlyDiffers a b = true <-> a <> b.
Proof.
  unfold strictlyDiffers. destruct (field_eq_dec string_dec a b); split;
    congruence.
Qed.

Lemma rival_spec (car c : CarData) :
  rival car (priceOf car) c = true <->
  manufacturer c <> manufacturer car /\ Z.abs (priceOf c - priceOf car) < 15000.
Proof.
  unfold rival. rewrite andb_true_iff, strictlyDiffers_true, Z.ltb_lt. tauto.
Qed.

(** The group in which [getCompetitorAnalysis] looks holds the cars of the
    band of the car's own price. *)
Lemma competitorsGroup_band (cars : list CarData) (p : Z) (c : CarData) :
  In c (if p <? 30000 then budget (groupCarsByPrice cars)
        else if p <? 50000 then midrange (groupCarsByPrice cars)
        else if p <? 80000 then premium (groupCarsByPrice cars)
        else luxury (groupCarsByPrice cars))
  <-> In c cars /\ sameBand (priceOf c) p.
Proof.
  rewrite groupCarsByPrice_filter. cbn [budget midrange premium luxury].
  unfold sameBand.
  destruct (p <? 30000) eqn:E1;
    [| destruct (p <? 50000) eqn:E2; [| destruct (p <? 80000) eqn:E3]];
    rewrite filter_In, ?andb_true_iff, ?Z.ltb_lt, ?Z.leb_le;
    repeat match goal with
           | H : (_ <? _) = true |- _ => apply Z.ltb_lt in H
           | H : (_ <? _) = false |- _ => apply Z.ltb_ge in H
           end;
    intuition lia.
Qed.

Lemma firstn_nil_iff {A} (n : nat) (l : list A) : firstn (S n) l = [] <-> l = [].
Proof. destruct l; simpl; split; congruence. Qed.

Lemma filter_nil_iff {A} (f : A -> bool) (l : list A) :
  filter f l = [] <-> forall x, In x l -> f x = false.
Proof.
  induction l as [| a l IH]; simpl; [tauto |].
  destruct (f a) eqn:E; split.
  - discriminate.
  - intro H. specialize (H a (or_introl eq_refl)). congruence.
  - intros H x [<- | Hx]; [exact E | apply IH; assumption].
  - intro H. apply IH. intros x Hx. apply H. right. exact Hx.
Qed.

(** X23. The competitors that [addCompetitorAnalysis] writes to a car are at
    most three, and each one is made of a car of the same list that has
    another maker, a price less than 15000 away, and a price in the same
    band: two cars on either side of 30000, 50000 or 80000 are never
    competitors, however close their prices, and a car is never its own
    competitor.  The list is empty exactly when no car of the list
    qualifies. *)
Theorem competitors_are_rivals_of_the_same_band
    (cars : list CarData) (car : CarData) (ks : list Competitor) :
  In (car, ks) (addCompetitorAnalysis cars) ->
  In car cars /\
  (List.length ks <= 3)%nat /\
  (forall k,
     In k ks ->
     exists c,
       In c cars /\ k = entry car (priceOf car) c /\
       manufacturer c <> manufacturer car /\
       Z.abs (priceOf c - priceOf car) < 15000 /\
       sameBand (priceOf c) (priceOf car)) /\
  (ks = [] <->
   forall c, In c cars ->
             ~ (manufacturer c <> manufacturer car /\
                Z.abs (priceOf c - priceOf car) < 15000 /\
                sameBand (priceOf c) (priceOf car))).
Proof.
  intro H. unfold addCompetitorAnalysis in H. cbv zeta in H.
  apply in_map_iff in H. destruct H as (car' & E & Hin).
  inversion E; subst car'. clear E.
  split; [exact Hin |].
  unfold getCompetitorAnalysis. cbv zeta.
  set (group := if priceOf car <? 30000 then budget (groupCarsByPrice cars)
                else if priceOf car <? 50000 then midrange (groupCarsByPrice cars)
                else if priceOf car <? 80000 then premium (groupCarsByPrice cars)
                else luxury (groupCarsByPrice cars)).
  assert (Hgroup : forall c, In c group <-> In c cars /\ sameBand (priceOf c) (priceOf car))
    by (intro c; apply competitorsGroup_band).
  split; [| split].
  - rewrite length_map, length_firstn. lia.
  - intros k Hk. apply in_map_iff in Hk. destruct Hk as (c & <- & Hc).
    apply ValidatorOpsProps.In_firstn in Hc. apply filter_In in Hc.
    destruct Hc as [Hc Hr]. apply Hgroup in Hc. apply rival_spec in Hr.
    exists c. tauto.
  - split.
    + intros Hnil c Hc (Hm & Hd & Hb).
      apply map_eq_nil in Hnil. apply firstn_nil_iff in Hnil.
      pose proof (proj1 (filter_nil_iff _ _) Hnil c (proj2 (Hgroup c) (conj Hc Hb))) as Hr.
      assert (Ht : rival car (priceOf car) c = true) by (apply rival_spec; tauto).
      congruence.
    + intro Hall.
      replace (filter (rival car (priceOf car)) group) with (@nil CarData);
        [reflexivity |].
      symmetry. apply filter_nil_iff. intros c Hc.
      apply Hgroup in Hc. destruct Hc as [Hc Hb].
      destruct (rival car (priceOf car) c) eqn:Hr; [| reflexivity].
      apply rival_spec in Hr. exfalso. apply (Hall c Hc). tauto.
Qed.

(** Witness of [competitors_are_rivals_of_the_same_band]: of a Honda at
    31000 and a Kia at 28000, only the Kia competes with a Toyota at
    29000. *)
Lemma competitors_are_rivals_of_the_same_band_witness :
  (List.length [entry (priced "Toyota" "Camry" 29000) 29000 (priced "Kia" "K5" 28000)]
   <= 3)%nat.
Proof.
  refine (proj1 (proj2 (competitors_are_rivals_of_the_same_band
            [priced "Toyota" "Camry" 29000; priced "Honda" "Accord" 31000;
             priced "Kia" "K5" 28000]
            (priced "Toyota" "Camry" 29000)
            [entry (priced "Toyota" "Camry" 29000) 29000 (priced "Kia" "K5" 28000)]
            _))).
  vm_compute. left. reflexivity.
Defined.

End CompetitorsProps.

Module MetadataProps.
Import Car JsString SecurityMonitor MonitorOps Competitors Metadata.
Local Open Scope string_scope.
Local Open Scope Z_scope.

Lemma blockRateOver_spec (bound : Z) (audit : AuditSummary) :
  0 < total_requests audit ->
  (blockRateOver bound audit = true <->
   bound * total_requests audit < 100 * blocked_requests audit).
Proof.
  intro HT. unfold blockRateOver.
  rewrite negb_true_iff. rewrite <- not_true_iff_false, Qle_bool_iff.
  generalize (blocked_requests audit). intro B.
  destruct (total_requests audit) as [| p | p]; try lia.
  unfold Qle, Qdiv, Qmult, Qinv, inject_Z. cbn [Qnum Qden].
  rewrite !Pos.mul_1_r, !Z.mul_1_r. lia.
Qed.

(** X24. The security score is 100 less 5 for each incident, less a
    deduction for the share of blocked requests, and not below 0.  The
    deduction is 0 when no request was counted or at most a tenth as many
    were blocked, 10 when more than a tenth but at most three tenths, and 30
    (never 20) when more than three tenths.  The score is a whole number
    between 0 and 100. *)
Theorem calculateSecurityScore_deductions (audit : AuditSummary) :
  exists deduction,
    calculateSecurityScore audit
    = Z.max 0 (100 - 5 * Z.of_nat (security_incidents audit) - deduction) /\
    (deduction = 0 \/ deduction = 10 \/ deduction = 30) /\
    (deduction = 30 <->
     0 < total_requests audit /\
     30 * total_requests audit < 100 * blocked_requests audit) /\
    (deduction = 0 <->
     total_requests audit <= 0 \/
     100 * blocked_requests audit <= 10 * total_requests audit) /\
    0 <= calculateSecurityScore audit <= 100.
Proof.
  unfold calculateSecurityScore. cbv zeta.
  destruct (0 <? total_requests audit) eqn:ET.
  - apply Z.ltb_lt in ET.
    pose proof (blockRateOver_spec 10 audit ET) as H10.
    pose proof (blockRateOver_spec 30 audit ET) as H30.
    destruct (blockRateOver 10 audit), (blockRateOver 30 audit).
    + exists 30. intuition lia.
    + exists 10. intuition lia.
    + exists 20. exfalso.
      assert (30 * total_requests audit < 100 * blocked_requests audit)
        by (apply H30; reflexivity).
      assert (~ 10 * total_requests audit < 100 * blocked_requests audit)
        by (intro A; apply H10 in A; discriminate).
      lia.
    + exists 0.
      assert (~ 10 * total_requests audit < 100 * blocked_requests audit)
        by (intro A; apply H10 in A; discriminate).
      intuition lia.
  - apply Z.ltb_ge in ET. exists 0. intuition lia.
Qed.

Lemma calculateSecurityScore_le (audit : AuditSummary) :
  calculateSecurityScore audit
  <= Z.max 0 (100 - 5 * Z.of_nat (security_incidents audit)).
Proof.
  unfold calculateSecurityScore. cbv zeta.
  destruct (0 <? total_requests audit), (blockRateOver 10 audit),
    (blockRateOver 30 audit); lia.
Qed.

(** X25. The audit summary of a monitor that has served any sequence of
    calls, each with one level of call stack or more: the requests and the
    blocked requests it reports are the numbers of [trackRequest] and
    [trackBlockedRequest] calls; every blocked request is also an incident,
    so that each one costs the security score 5 points or more and twenty
    of them bring it to 0; and because a blocked request is not counted as a
    request, the success rate is never above 100 but falls below 0 as soon
    as more requests were blocked than made. *)
Theorem blocked_requests_cost_points
    (clock : nat -> Z) (randomHex : nat -> string) (sanitizeUrl : detail -> string)
    (depth : nat) (cs : list mcall) :
  let st := calls clock randomHex sanitizeUrl (S depth) cs (constructor clock) in
  let audit := fst (getAuditSummary clock st) in
  let requests := Z.of_nat (List.length (filter isMTrackRequest cs)) in
  let blocked := Z.of_nat (List.length (filter isMTrackBlockedRequest cs)) in
  total_requests audit = requests /\
  blocked_requests audit = blocked /\
  blocked <= Z.of_nat (security_incidents audit) /\
  calculateSecurityScore audit <= Z.max 0 (100 - 5 * blocked) /\
  ((success_rate audit < 0)%Q <-> 0 < requests < blocked) /\
  (success_rate audit <= 100)%Q.
Proof.
  intros st audit requests blocked.
  destruct (MonitorOpsProps.calls_counters clock randomHex sanitizeUrl (S depth) cs
              (constructor clock)) as (A & B & _).
  fold st in A, B. simpl in A, B. fold requests in A. fold blocked in B.
  assert (C : blockedCount st <= Z.of_nat (List.length (securityIncidents st))).
  { apply MonitorOpsProps.calls_blocked_le_incidents. simpl. lia. }
  assert (HT : total_requests audit = requests) by exact A.
  assert (HB : blocked_requests audit = blocked) by exact B.
  assert (HI : blocked <= Z.of_nat (security_incidents audit))
    by (rewrite <- B; exact C).
  split; [exact HT |]. split; [exact HB |]. split; [exact HI |].
  split.
  - pose proof (calculateSecurityScore_le audit). lia.
  - assert (HS : success_rate audit
                 = if 0 <? requests
                   then (inject_Z (requests - blocked) / inject_Z requests * 100)%Q
                   else 0%Q).
    { unfold audit. simpl. rewrite A, B. reflexivity. }
    rewrite HS.
    assert (Hb : 0 <= blocked) by (unfold blocked; lia).
    destruct (0 <? requests) eqn:E.
    + apply Z.ltb_lt in E. clearbody requests blocked.
      destruct requests as [| p | p]; try lia.
      unfold Qlt, Qle, Qdiv, Qmult, Qinv, inject_Z. cbn [Qnum Qden].
      rewrite !Pos.mul_1_r, !Z.mul_1_r. split; lia.
    + apply Z.ltb_ge in E. split; [| discriminate].
      split; [intro H; discriminate H | lia].
Qed.

Lemma distribution_sum (l : list Z) :
  (List.length (filter (fun s => 90 <=? s)%Z l)
   + List.length (filter (fun s => (70 <=? s) && (s <? 90))%Z l)
   + List.length (filter (fun s => (50 <=? s) && (s <? 70))%Z l)
   + List.length (filter (fun s => s <? 50)%Z l) = List.length l)%nat.
Proof.
  induction l as [| s l IH]; [reflexivity |].
  cbn [filter List.length].
  destruct (90 <=? s) eqn:E1; destruct (70 <=? s) eqn:E2; destruct (50 <=? s) eqn:E3;
    destruct (s <? 90) eqn:F1; destruct (s <? 70) eqn:F2; destruct (s <? 50) eqn:F3;
    try (exfalso;
         repeat match goal with
                | H : (_ <? _) = true |- _ => apply Z.ltb_lt in H
                | H : (_ <? _) = false |- _ => apply Z.ltb_ge in H
                | H : (_ <=? _) = true |- _ => apply Z.leb_le in H
                | H : (_ <=? _) = false |- _ => apply Z.leb_gt in H
                end; lia);
    cbn [andb List.length]; lia.
Qed.

Lemma fold_add_bounds (lo hi : Z) (l : list Z) : forall acc,
  Forall (fun x => lo <= x <= hi) l ->
  acc + Z.of_nat (List.length l) * lo <= fold_left Z.add l acc
  <= acc + Z.of_nat (List.length l) * hi.
Proof.
  induction l as [| x l IH]; intros acc H.
  - simpl. lia.
  - inversion H as [| ? ? Hx Hl]; subst. cbn [fold_left].
    specialize (IH (acc + x) Hl). cbn [List.length]. lia.
Qed.

(** The rounded mean of whole numbers lies between the least and the
    greatest of them. *)
Lemma average_bounds (lo hi : Z) (l : list Z) :
  l <> [] -> Forall (fun x => lo <= x <= hi) l -> lo <= average l <= hi.
Proof.
  intros Hne H. unfold average. destruct l as [| x l]; [congruence |].
  cbn [Nat.ltb Nat.leb List.length reduceSum].
  inversion H as [| ? ? Hx Hl]; subst.
  pose proof (fold_add_bounds lo hi l x Hl) as Hs.
  unfold roundedMean.
  set (n := Z.of_nat (S (List.length l))).
  assert (Hn : 0 < n) by (unfold n; lia).
  assert (Hn' : Z.of_nat (List.length l) = n - 1) by (unfold n; lia).
  rewrite Hn' in Hs.
  set (s := fold_left Z.add l x) in *.
  split.
  - apply Z.div_le_lower_bound; nia.
  - assert ((2 * s + n) / (2 * n) < hi + 1); [| lia].
    apply Z.div_lt_upper_bound; nia.
Qed.

(** X26. The quality distribution of the metadata counts every car exactly
    once: the four classes add up to the number of records, a car with no
    quality score (or one of 0 or [null]) being counted as poor. *)
Theorem quality_distribution_counts_every_car
    (clock : nat -> Z) (cars : list CarData) (processingTime successRate : string)
    (st : State) :
  let m := fst (generateMetadata clock cars processingTime successRate st) in
  total_records m = List.length cars /\
  (excellent (distribution m) + good (distribution m)
   + fair (distribution m) + poor (distribution m) = total_records m)%nat /\
  (List.length (filter (fun car => negb (truthyNumber (data_quality car))) cars)
   <= poor (distribution m))%nat.
Proof.
  intro m. subst m. unfold generateMetadata. cbn [getAuditSummary fst distribution
    total_records excellent good fair poor].
  split; [reflexivity |]. split.
  - rewrite distribution_sum, length_map. reflexivity.
  - induction cars as [| car cars IH]; [simpl; lia |].
    cbn [map filter]. unfold truthyNumber at 1.
    destruct (data_quality car) as [| | z]; cbn [orZero negb];
      [change (0 <? 50) with true; cbn [List.length]; lia
      | change (0 <? 50) with true; cbn [List.length]; lia |].
    destruct (z =? 0) eqn:E; cbn [negb].
    + apply Z.eqb_eq in E. subst z. change (0 <? 50) with true.
      cbn [List.length]. lia.
    + destruct (z <? 50); cbn [List.length]; lia.
Qed.

Lemma calculateCompleteness_le_80 (d : CarData) :
  0 <= Utils.calculateCompleteness d <= 80.
Proof.
  unfold Utils.calculateCompleteness, Utils.requiredFields.
  replace (Utils.present (optChain (specifications d) (fun _ => @Missing string)))
    with false by (destruct (specifications d); reflexivity).
  destruct (Utils.present (manufacturer d)), (Utils.present (model d)),
    (Utils.present (optChain (price d) starting_msrp)),
    (Utils.present (optChain (performance d) horsepower)); cbn; lia.
Qed.

(** X27. When every car carries the completeness score that
    [calculateCompleteness] gave to some record, as the cars of a run do,
    the metadata rates no car excellent, and the average quality is between
    0 and 80. *)
Theorem no_car_is_rated_excellent
    (clock : nat -> Z) (cars : list CarData) (processingTime successRate : string)
    (st : State) :
  Forall (fun car => exists d, data_quality car = Val (Utils.calculateCompleteness d))
         cars ->
  excellent (distribution (fst (generateMetadata clock cars processingTime
                                  successRate st))) = 0%nat /\
  0 <= average_score (fst (generateMetadata clock cars processingTime
                             successRate st)) <= 80.
Proof.
  intro H. unfold generateMetadata. cbn [getAuditSummary fst distribution
    average_score excellent].
  assert (Hq : Forall (fun x => 0 <= x <= 80)
                      (map (fun car => orZero (data_quality car)) cars)).
  { apply Forall_map. eapply Forall_impl; [| exact H].
    intros car (d & E). cbv beta. rewrite E. cbn [orZero].
    apply calculateCompleteness_le_80. }
  split.
  - replace (filter (fun s => 90 <=? s) (map (fun car => orZero (data_quality car)) cars))
      with (@nil Z); [reflexivity |].
    symmetry. apply CompetitorsProps.filter_nil_iff. intros x Hx.
    rewrite Forall_forall in Hq. specialize (Hq x Hx). apply Z.leb_gt. lia.
  - destruct cars as [| car cars]; [cbn; lia |].
    apply average_bounds; [discriminate | exact Hq].
Qed.

(** Witness of [no_car_is_rated_excellent]: one car, rated as the record of
    a Toyota is. *)
Lemma no_car_is_rated_excellent_witness :
  excellent (distribution (fst (generateMetadata frozenClock
                                  [rated DataValidator.toyota] "1.00" "100.00"
                                  (constructor frozenClock)))) = 0%nat.
Proof.
  refine (proj1 (no_car_is_rated_excellent frozenClock [rated DataValidator.toyota]
                   "1.00" "100.00" (constructor frozenClock) _)).
  constructor; [| constructor].
  exists DataValidator.toyota. reflexivity.
Defined.

Lemma fold_min_Finite (l : list Z) : forall a,
  exists m, fold_left minNumber (map Finite l) (Finite a) = Finite m /\
            In m (a :: l) /\ Forall (fun x => m <= x) (a :: l).
Proof.
  induction l as [| x l IH]; intro a.
  - exists a. split; [reflexivity |]. split; [left; reflexivity |].
    constructor; [lia | constructor].
  - cbn [map fold_left minNumber].
    destruct (IH (Z.min a x)) as (m & E & Hin & Hall).
    exists m. split; [exact E |].
    inversion Hall as [| ? ? Hm Hl]; subst. split.
    + destruct Hin as [<- | Hin]; [| right; right; exact Hin].
      destruct (Z.min_spec a x) as [[_ ->] | [_ ->]];
        [left; reflexivity | right; left; reflexivity].
    + constructor; [lia |]. constructor; [lia | exact Hl].
Qed.

Lemma fold_max_Finite (l : list Z) : forall a,
  exists m, fold_left maxNumber (map Finite l) (Finite a) = Finite m /\
            In m (a :: l) /\ Forall (fun x => x <= m) (a :: l).
Proof.
  induction l as [| x l IH]; intro a.
  - exists a. split; [reflexivity |]. split; [left; reflexivity |].
    constructor; [lia | constructor].
  - cbn [map fold_left maxNumber].
    destruct (IH (Z.max a x)) as (m & E & Hin & Hall).
    exists m. split; [exact E |].
    inversion Hall as [| ? ? Hm Hl]; subst. split.
    + destruct Hin as [<- | Hin]; [| right; right; exact Hin].
      destruct (Z.max_spec a x) as [[_ ->] | [_ ->]];
        [right; left; reflexivity | left; reflexivity].
    + constructor; [lia |]. constructor; [lia | exact Hl].
Qed.

(** X28. The price statistics of the metadata cover the cars with a positive
    starting price.  When there is one at least, the least and the greatest
    price are prices of such cars, bound every positive price, and have the
    average between them.  When there is none (no car, or no car with a
    price), the least price is [Infinity] and the greatest [-Infinity], the
    average is 0 and so is the count. *)
Theorem price_statistics_edges
    (clock : nat -> Z) (cars : list CarData) (processingTime successRate : string)
    (st : State) :
  let ps := price_statistics (fst (generateMetadata clock cars processingTime
                                     successRate st)) in
  match price_min ps, price_max ps with
  | Finite lo, Finite hi =>
      0 < lo <= price_average ps /\ price_average ps <= hi /\
      (exists c, In c cars /\ priceOf c = lo) /\
      (exists c, In c cars /\ priceOf c = hi) /\
      (forall c, In c cars -> 0 < priceOf c -> lo <= priceOf c <= hi) /\
      (0 < price_count ps)%nat
  | Infinity, NegInfinity =>
      price_count ps = 0%nat /\ price_average ps = 0 /\
      (forall c, In c cars -> priceOf c <= 0)
  | _, _ => False
  end.
Proof.
  intro ps. subst ps. unfold generateMetadata. cbn [getAuditSummary fst price_statistics
    price_min price_max price_average price_count].
  assert (Hp : forall p, In p (filter (fun p => 0 <? p) (map priceOf cars)) <->
                         (exists c, In c cars /\ priceOf c = p) /\ 0 < p).
  { intro p. rewrite filter_In, in_map_iff, Z.ltb_lt.
    split; intros [(c & A & B) C]; (split; [exists c; tauto | exact C]). }
  destruct (filter (fun p => 0 <? p) (map priceOf cars)) as [| p prices] eqn:E.
  - cbn. split; [reflexivity |]. split; [reflexivity |].
    intros c Hc. destruct (Z_le_gt_dec (priceOf c) 0) as [Hle | Hgt]; [exact Hle |].
    exfalso. apply (proj2 (Hp (priceOf c))). split; [exists c; tauto | lia].
  - unfold mathMin, mathMax. cbn [map fold_left minNumber maxNumber].
    destruct (fold_min_Finite prices p) as (lo & -> & Hlo & Hall_lo).
    destruct (fold_max_Finite prices p) as (hi & -> & Hhi & Hall_hi).
    assert (Hb : Forall (fun x => lo <= x <= hi) (p :: prices)).
    { rewrite Forall_forall in *. intros x Hx.
      specialize (Hall_lo x Hx). specialize (Hall_hi x Hx). lia. }
    pose proof (average_bounds lo hi (p :: prices) ltac:(discriminate) Hb) as Havg.
    apply Hp in Hlo. apply Hp in Hhi.
    split; [lia |]. split; [lia |].
    split; [tauto |]. split; [tauto |]. split.
    + intros c Hc Hpos. rewrite Forall_forall in Hb. apply Hb. apply Hp.
      split; [exists c; tauto | exact Hpos].
    + simpl. lia.
Qed.

Lemma minNumber_cases (a b : number) : minNumber a b = a \/ minNumber a b = b.
Proof.
  destruct a as [| x |], b as [| y |]; simpl; auto.
  destruct (Z.min_spec x y) as [[_ ->] | [_ ->]]; auto.
Qed.

Lemma leNumber_refl (a : number) : leNumber a a.
Proof. destruct a; simpl; auto. lia. Qed.

Lemma leNumber_trans (a b c : number) : leNumber a b -> leNumber b c -> leNumber a c.
Proof. destruct a, b, c; simpl; auto; try tauto; lia. Qed.

Lemma minNumber_le (a b : number) : leNumber (minNumber a b) a /\ leNumber (minNumber a b) b.
Proof. destruct a as [| x |], b as [| y |]; simpl; auto; split; auto; lia. Qed.

Lemma maxNumber_ge (a b : number) : leNumber a (maxNumber a b) /\ leNumber b (maxNumber a b).
Proof. destruct a as [| x |], b as [| y |]; simpl; auto; split; auto; lia. Qed.

Lemma fold_min_In (l : list number) : forall acc,
  In (fold_left minNumber l acc) (acc :: l).
Proof.
  induction l as [| x l IH]; intro acc; [left; reflexivity |].
  cbn [fold_left]. destruct (IH (minNumber acc x)) as [H | H].
  - rewrite <- H. destruct (minNumber_cases acc x) as [-> | ->];
      [left; reflexivity | right; left; reflexivity].
  - right; right; exact H.
Qed.

Lemma fold_min_le (l : list number) : forall acc x,
  In x (acc :: l) -> leNumber (fold_left minNumber l acc) x.
Proof.
  induction l as [| y l IH]; intros acc x H.
  - destruct H as [<- | []]. apply leNumber_refl.
  - cbn [fold_left]. destruct H as [<- | [<- | H]].
    + eapply leNumber_trans;
        [apply IH; left; reflexivity | apply (proj1 (minNumber_le acc y))].
    + eapply leNumber_trans;
        [apply IH; left; reflexivity | apply (proj2 (minNumber_le acc y))].
    + apply IH. right. exact H.
Qed.

Lemma fold_max_ge (l : list number) : forall acc x,
  In x (acc :: l) -> leNumber x (fold_left maxNumber l acc).
Proof.
  induction l as [| y l IH]; intros acc x H.
  - destruct H as [<- | []]. apply leNumber_refl.
  - cbn [fold_left]. destruct H as [<- | [<- | H]].
    + eapply leNumber_trans;
        [apply (proj1 (maxNumber_ge acc y)) | apply IH; left; reflexivity].
    + eapply leNumber_trans;
        [apply (proj2 (maxNumber_ge acc y)) | apply IH; left; reflexivity].
    + apply IH. right. exact H.
Qed.

Lemma orInfinity_cases (x : field Z) :
  (orInfinity x = Infinity /\ orZero x = 0) \/
  (orInfinity x = Finite (orZero x)).
Proof.
  destruct x as [| | z]; simpl; auto.
  destruct (z =? 0) eqn:E; [left | right; reflexivity].
  apply Z.eqb_eq in E. auto.
Qed.

(** X29. The price range of the final summary is in order exactly when
    there is a car: for a list that is not empty [getMinPrice] is at most
    [getMaxPrice], also when no car has a price (both are 0 then); for the
    empty list [getMinPrice] is 0 and [getMaxPrice] is [-Infinity]. *)
Theorem price_range_in_order (cars : list CarData) :
  (leNumber (getMinPrice cars) (getMaxPrice cars) <-> cars <> []) /\
  getMinPrice [] = Finite 0 /\
  getMaxPrice [] = NegInfinity.
Proof.
  split; [| split; reflexivity].
  destruct cars as [| c0 cars].
  - cbn. split; [tauto | congruence].
  - split; [discriminate | intros _].
    set (all := c0 :: cars).
    assert (Hmax : forall c, In c all ->
                             leNumber (Finite (priceOf c)) (getMaxPrice all)).
    { intros c Hc. unfold getMaxPrice, mathMax. apply fold_max_ge. right.
      apply in_map_iff. exists c. split; [reflexivity | exact Hc]. }
    unfold getMinPrice. cbv zeta.
    set (prices := map (fun car => orInfinity (optChain (price car) starting_msrp)) all).
    pose proof (fold_min_In prices Infinity) as Hin.
    pose proof (fold_min_le prices Infinity) as Hle.
    fold (mathMin prices) in Hin, Hle.
    destruct (mathMin prices) as [| z |] eqn:E.
    + exfalso. destruct Hin as [Hin | Hin]; [discriminate |].
      apply in_map_iff in Hin. destruct Hin as (c & Hc & _).
      destruct (orInfinity_cases (optChain (price c) starting_msrp)) as [[H _] | H];
        congruence.
    + destruct Hin as [Hin | Hin]; [discriminate |].
      apply in_map_iff in Hin. destruct Hin as (c & Hc & Hcin).
      destruct (orInfinity_cases (optChain (price c) starting_msrp)) as [[H _] | H];
        [congruence |].
      rewrite H in Hc. inversion Hc; subst z. apply Hmax. exact Hcin.
    + assert (H0 : leNumber Infinity (orInfinity (optChain (price c0) starting_msrp))).
      { apply Hle. right. apply in_map_iff. exists c0. split; [reflexivity |].
        left. reflexivity. }
      destruct (orInfinity_cases (optChain (price c0) starting_msrp)) as [[_ H] | H].
      * fold (priceOf c0) in H. rewrite <- H. apply Hmax. left. reflexivity.
      * rewrite H in H0. destruct H0.
Qed.

End MetadataProps.

Module RoutesOpsProps.
Import Car Routes RoutesOps.
Local Open Scope string_scope.

(** Removing repetitions before appending more changes nothing. *)
Lemma uniqueFrom_absorb (a b : list string) : forall seen,
  uniqueFrom seen (uniqueFrom seen a ++ b)%list = uniqueFrom seen (a ++ b)%list.
Proof.
  induction a as [| x a IH]; intro seen; [reflexivity |].
  cbn [uniqueFrom app].
  destruct (existsb (String.eqb x) seen) eqn:E; [apply IH |].
  cbn [uniqueFrom app]. rewrite E. rewrite IH. reflexivity.
Qed.

Lemma mergeObject_Val {A} (spreadA : A -> A -> A) (t : A) (source : field A) :
  exists r, mergeObject spreadA (Val t) source = Val r.
Proof. destruct source as [| | s]; simpl; eauto. Qed.

Lemma mergeAll_features (sources : list CarData) : forall target acc p q,
  features target = Val (setToArray acc) ->
  price target = Val p ->
  performance target = Val q ->
  exists t,
    mergeAll target sources = Merged t /\
    features t = Val (setToArray (acc ++ List.concat (map featuresOf sources))%list) /\
    vehicle_type t = vehicle_type target /\
    manufacturer t = manufacturer target /\
    model t = model target /\
    year t = year target /\
    scraped_at t = scraped_at target /\
    (exists p', price t = Val p') /\
    (exists q', performance t = Val q').
Proof.
  induction sources as [| s sources IH]; intros target acc p q Hf Hp Hq.
  - exists target. simpl. rewrite app_nil_r. repeat split; eauto.
  - cbn [mergeAll map List.concat].
    destruct (mergeObject_Val spreadPrice p (price s)) as (p1 & Hp1).
    destruct (mergeObject_Val spreadPerformance q (performance s)) as (q1 & Hq1).
    unfold mergeCarData. cbv zeta. cbn [features withObjects].
    rewrite Hf. unfold featuresOf.
    assert (Hacc : forall sf, Val (setToArray (setToArray acc ++ sf)%list)
                              = Val (setToArray (acc ++ sf)%list))
      by (intro sf; unfold setToArray; rewrite uniqueFrom_absorb; reflexivity).
    destruct (features s) as [| | sf]; cbv beta iota;
      match goal with
      | |- context [mergeAll ?t1 sources] => set (next := t1)
      end;
      assert (H2 : price next = Val p1) by (cbn; rewrite Hp; exact Hp1);
      assert (H3 : performance next = Val q1) by (cbn; rewrite Hq; exact Hq1).
    + destruct (IH next acc p1 q1 eq_refl H2 H3) as (t & E & F & A & B & C & D & G & R).
      exists t. split; [exact E |]. split; [rewrite F; reflexivity |].
      cbn in A, B, C, D, G. exact (conj A (conj B (conj C (conj D (conj G R))))).
    + destruct (IH next acc p1 q1 eq_refl H2 H3) as (t & E & F & A & B & C & D & G & R).
      exists t. split; [exact E |]. split; [rewrite F; reflexivity |].
      cbn in A, B, C, D, G. exact (conj A (conj B (conj C (conj D (conj G R))))).
    + destruct (IH next (acc ++ sf)%list p1 q1 (Hacc sf) H2 H3)
        as (t & E & F & A & B & C & D & G & R).
      exists t. split; [exact E |]. split; [rewrite F, app_assoc; reflexivity |].
      cbn in A, B, C, D, G. exact (conj A (conj B (conj C (conj D (conj G R))))).
Qed.

(** X30. Merging any sources, one after the other, into the record that
    [scrapeCarDetails] starts from never throws and leaves the type, the
    maker, the model, the year and the time of the scrape as they were; the
    price and the performance are still objects, so that the estimated
    price can be written; and the features are those of all sources
    together, each once, in the order of first appearance: merging source by
    source gives what one merge of all the features would. *)
Theorem merging_into_a_new_record_never_throws
    (manufacturer0 model0 : string) (year0 : Z) (now : string)
    (sources : list CarData) :
  exists t,
    mergeAll (initialCarData manufacturer0 model0 year0 now) sources = Merged t /\
    features t = Val (setToArray (List.concat (map featuresOf sources))) /\
    vehicle_type t = Val "Sedan" /\
    manufacturer t = Val manufacturer0 /\
    model t = Val model0 /\
    year t = Val year0 /\
    scraped_at t = Val now /\
    (exists p, price t = Val p) /\
    (exists q, performance t = Val q).
Proof.
  apply (mergeAll_features sources (initialCarData manufacturer0 model0 year0 now) []
           (mkPrice Missing Missing Missing Missing)
           (mkPerformance Missing Missing Missing Missing));
    reflexivity.
Qed.

End RoutesOpsProps.
